(** * apex-analyzer: corner analysis and race-position reconstruction

    A shallow embedding of the analysis core of the apex-analyzer front end:

    - [CornerZoom]: corner detection on the reference lap
      ([fetchTrackData]) and the position-trace aligner
      ([fetchDriverTraces]), from [src/components/track/CornerZoom.tsx];
    - [CornerAnalysis]: the telemetry aligner and the kinematics extraction
      ([analyzeCorner]), from [src/components/analysis/CornerAnalysis.tsx];
    - [RacePositionChart]: the lap-by-lap position reconstruction
      (the [driverPositions] memo of [RacePositionChart]).

    JavaScript numbers that hold array indices, lengths, driver numbers, lap
    numbers and the integral telemetry channels of the OpenF1 feed (speed,
    throttle, brake) are modelled as [Z].  Numbers that carry fractions (lap
    durations, ratios, the factor 0.08) are binary64 values, modelled with
    the kernel's primitive floats, so that rounding is the one of the
    source.  [Math.atan2] has no counterpart in the kernel and is a section
    variable. *)

From Stdlib Require Import String PrimFloat.
From Stdlib Require FloatOps FloatAxioms SpecFloat Uint63.
From Stdlib Require Import ZArith List Bool Lia Permutation Sorted.
Import ListNotations.
Local Open Scope Z_scope.

(** ** JavaScript values and built-ins used by the three components *)

Module JS.

Definition number : Set := PrimFloat.float.

(** An integer as a JavaScript number (exact below 2^53). *)
Definition of_int (n : Z) : number :=
    if n <? 0
    then PrimFloat.opp (PrimFloat.of_uint63 (Uint63.of_Z (- n)))
    else PrimFloat.of_uint63 (Uint63.of_Z n).

(** [Math.floor] of a finite number.  The source never applies it to NaN
      or an infinity (the divisors are 15, 30 and the length of a non-empty
      reference lap); on those this model answers 0. *)
Definition Math_floor (x : number) : Z :=
    match FloatOps.Prim2SF x with
    | SpecFloat.S754_finite s m e =>
        let v := if 0 <=? e then Z.shiftl (Zpos m) e else Z.shiftr (Zpos m) (- e) in
        let exact := if 0 <=? e then true else Z.shiftl v (- e) =? Zpos m in
        if s then (if exact then - v else - v - 1) else v
    | _ => 0
    end.

(** [x > y], [x < y] and [x === y] on numbers. *)
Definition gt (x y : number) : bool := PrimFloat.ltb y x.
Definition lt (x y : number) : bool := PrimFloat.ltb x y.
Definition eq (x y : number) : bool := PrimFloat.eqb x y.

(** [x || 0]: 0, -0 and NaN are falsy. *)
Definition or_zero (x : number) : number :=
    if PrimFloat.eqb x PrimFloat.zero || negb (PrimFloat.eqb x x)
    then PrimFloat.zero else x.

Definition Math_PI : number := 0x1.921fb54442d18p+1%float.

Definition length {A} (a : list A) : Z := Z.of_nat (List.length a).

(** [a[i]]: [None] is [undefined]. *)
Definition get {A} (a : list A) (i : Z) : option A :=
    if i <? 0 then None else nth_error a (Z.to_nat i).

(** [a.slice(start, end)], negative arguments counting from the end. *)
Definition slice {A} (a : list A) (start end_ : Z) : list A :=
    let n := length a in
    let k := if start <? 0 then Z.max (n + start) 0 else Z.min start n in
    let final := if end_ <? 0 then Z.max (n + end_) 0 else Z.min end_ n in
    firstn (Z.to_nat (final - k)) (skipn (Z.to_nat k) a).

(** [a.forEach((x, i) => ...)] and [a.map((x, i) => ...)] see each element
      with its index. *)
Fixpoint indexed_from {A} (i : Z) (a : list A) : list (Z * A) :=
    match a with
    | [] => []
    | x :: r => (i, x) :: indexed_from (i + 1) r
    end.
Definition indexed {A} (a : list A) : list (Z * A) := indexed_from 0 a.

(** [a.sort(cmp)] with [cmp x y] the sign of the comparator ([Gt] when it
      is positive).  The sort of the language is stable; for a comparator
      that is a total preorder every stable sort returns this list. *)
Fixpoint sort_insert {A} (cmp : A -> A -> comparison) (x : A) (l : list A) : list A :=
    match l with
    | [] => [x]
    | y :: r =>
        match cmp x y with
        | Gt => y :: sort_insert cmp x r
        | _ => x :: l
        end
    end.
Fixpoint sort {A} (cmp : A -> A -> comparison) (l : list A) : list A :=
    match l with
    | [] => []
    | x :: r => sort_insert cmp x (sort cmp r)
    end.

(** The sign of a numeric comparator result [d] ([NaN] counts as 0). *)
Definition sign (d : number) : comparison :=
    if PrimFloat.ltb d PrimFloat.zero then Lt
    else if PrimFloat.ltb PrimFloat.zero d then Gt
    else Eq.

(** A [Map] with number keys: entries in insertion order; [set] on a
      present key keeps its place. *)
Module Map.
Definition t (V : Type) : Type := list (Z * V).
Definition empty {V} : t V := [].
Fixpoint get {V} (m : t V) (k : Z) : option V :=
      match m with
      | [] => None
      | (k', v) :: r => if k =? k' then Some v else get r k
      end.
Definition has {V} (m : t V) (k : Z) : bool :=
      match get m k with Some _ => true | None => false end.
Fixpoint set {V} (m : t V) (k : Z) (v : V) : t V :=
      match m with
      | [] => [(k, v)]
      | (k', v') :: r => if k =? k' then (k, v) :: r else (k', v') :: set r k v
      end.
Definition keys {V} (m : t V) : list Z := map fst m.
Definition values {V} (m : t V) : list V := map snd m.
Definition entries {V} (m : t V) : list (Z * V) := m.
End Map.

(** How a block of statements ends: normally, by a thrown [TypeError]
      (a property read on [undefined]), or, in this model only, because the
      loop counter of the model ran out. *)
Inductive completion (A : Type) : Type :=
  | Normal (a : A)
  | Throw
  | OutOfFuel.
Arguments Normal {A} a.
Arguments Throw {A}.
Arguments OutOfFuel {A}.

End JS.

(** ** Records of the OpenF1 client (the fields the analysis reads) *)

Module Driver.
Record t : Type := mk {
    driver_number : Z;
    name_acronym : string;
    team_colour : string
  }.
End Driver.

Module Lap.
Record t : Type := mk {
    date_start : string;
    driver_number : Z;
    is_pit_out_lap : bool;
    lap_duration : option JS.number;   (* [None] is [null] *)
    lap_number : Z
  }.
End Lap.

Module CarData.
Record t : Type := mk {
    brake : Z;      (* 0-100 *)
    speed : Z;      (* km/h *)
    throttle : Z    (* 0-100 *)
  }.
End CarData.

Module Location.
Record t : Type := mk {
    x : JS.number;
    y : JS.number
  }.
End Location.

(** The fastest lap of each driver, as the three components compute it:
    laps with a duration that are not pit-out laps, the first of the
    shortest ones. *)
Definition driverFastestLaps (laps : list Lap.t) (drivers : list Driver.t)
  : JS.Map.t Lap.t :=
  fold_left
    (fun fastestLaps driver =>
       let driverLaps :=
         filter (fun lap =>
                   (Lap.driver_number lap =? Driver.driver_number driver)
                   && (match Lap.lap_duration lap with Some _ => true | None => false end)
                   && negb (Lap.is_pit_out_lap lap)) laps in
       let fastest :=
         fold_left
           (fun best lap =>
              match best with
              | None => Some lap
              | Some b =>
                  match Lap.lap_duration lap, Lap.lap_duration b with
                  | Some d, Some db => if JS.lt d db then Some lap else Some b
                  | _, _ => Some b
                  end
              end) driverLaps None in
       match fastest with
       | Some lap => JS.Map.set fastestLaps (Driver.driver_number driver) lap
       | None => fastestLaps
       end)
    drivers JS.Map.empty.


(** ** CornerZoom.tsx: corner detection and the position-trace aligner *)

Module CornerZoom.

Record TrackPoint : Type := mkTrackPoint {
  x : JS.number;
  y : JS.number
}.

Record CornerData : Type := mkCornerData {
  index : Z;
  center : TrackPoint;
  points : list TrackPoint
}.

Record DriverTraceData : Type := mkDriverTraceData {
  driver : Driver.t;
  trace_points : list TrackPoint;   (* the field [points] of the source *)
  color : string
}.

(** The two pieces of component state that [fetchTrackData] writes and
    [fetchDriverTraces] reads. *)
Record State : Type := mkState {
  fullTrackPoints : list TrackPoint;
  corners : list CornerData
}.

Definition toPoint (loc : Location.t) : TrackPoint :=
  mkTrackPoint (Location.x loc) (Location.y loc).

(** [locationData.filter((loc) => loc.x !== 0 || loc.y !== 0)] *)
Definition validData (locationData : list Location.t) : list Location.t :=
  filter (fun loc => negb (JS.eq (Location.x loc) PrimFloat.zero)
                     || negb (JS.eq (Location.y loc) PrimFloat.zero))
         locationData.

(** [Math.max(10, Math.floor(points.length / 30))] *)
Definition windowSize (points : list TrackPoint) : Z :=
  Z.max 10 (JS.Math_floor (PrimFloat.div (JS.of_int (JS.length points)) (JS.of_int 30))).

(** [Math.floor(points.length * 0.08)] *)
Definition segmentSize {A} (points : list A) : Z :=
  JS.Math_floor (PrimFloat.mul (JS.of_int (JS.length points)) 0x1.47ae147ae147bp-4%float).

(** The filter that keeps distinct corners.  [windowSize * 1.5] is a
    multiple of one half, so [|d| < windowSize * 1.5] is the integer test
    [2 * |d| < 3 * windowSize]. *)
Definition filterCorners (windowSize : Z) (detectedCorners : list CornerData)
  : list CornerData :=
  fold_left
    (fun filteredCorners corner =>
       let isTooClose :=
         existsb (fun existing =>
                    2 * Z.abs (index existing - index corner) <? 3 * windowSize)
                 filteredCorners in
       if isTooClose then filteredCorners else filteredCorners ++ [corner])
    detectedCorners [].

Section Detection.

(** [Math.atan2(dy, dx)] *)
Variable Math_atan2 : JS.number -> JS.number -> JS.number.

(** The turn of the path at [curr], folded into [0, pi]. *)
Definition angleDiff (prev curr next : TrackPoint) : JS.number :=
  let angle1 := Math_atan2 (PrimFloat.sub (y curr) (y prev)) (PrimFloat.sub (x curr) (x prev)) in
  let angle2 := Math_atan2 (PrimFloat.sub (y next) (y curr)) (PrimFloat.sub (x next) (x curr)) in
  let angleDiff := PrimFloat.abs (PrimFloat.sub angle2 angle1) in
  if JS.gt angleDiff JS.Math_PI
  then PrimFloat.sub (PrimFloat.mul (JS.of_int 2) JS.Math_PI) angleDiff
  else angleDiff.

(** The detection loop
    [for (let i = windowSize * 2; i < points.length - windowSize * 2;
          i += Math.floor(windowSize / 2))],
    entered at counter [i] with the corners pushed so far.  Halving an
    integer is exact in binary64, so the step is [windowSize / 2] on [Z].
    Reading a coordinate of [undefined] throws. *)
Fixpoint detectLoop (fuel : nat) (points : list TrackPoint) (windowSize i : Z)
  (detectedCorners : list CornerData) : JS.completion (list CornerData) :=
  if i <? JS.length points - windowSize * 2 then
    match fuel with
    | O => JS.OutOfFuel
    | S fuel' =>
        match JS.get points (i - windowSize), JS.get points i,
              JS.get points (i + windowSize) with
        | Some prev, Some curr, Some next =>
            let detectedCorners' :=
              if JS.gt (angleDiff prev curr next) 0.25%float then
                let segmentSize := segmentSize points in
                let startIdx := Z.max 0 (i - segmentSize) in
                let endIdx := Z.min (JS.length points - 1) (i + segmentSize) in
                detectedCorners
                  ++ [mkCornerData i curr (JS.slice points startIdx (endIdx + 1))]
              else detectedCorners in
            detectLoop fuel' points windowSize (i + windowSize / 2) detectedCorners'
        | _, _, _ => JS.Throw
        end
    end
  else JS.Normal detectedCorners.

(** Lines 118-158 of [fetchTrackData]: the catalog handed to [setCorners].
    The loop counter grows by at least 5 each round, so [length points]
    rounds are enough. *)
Definition detectCorners (points : list TrackPoint) : JS.completion (list CornerData) :=
  let windowSize := windowSize points in
  match detectLoop (List.length points) points windowSize (windowSize * 2) [] with
  | JS.Normal detectedCorners =>
      JS.Normal (JS.slice (filterCorners windowSize detectedCorners) 0 20)
  | JS.Throw => JS.Throw
  | JS.OutOfFuel => JS.OutOfFuel
  end.

(** [fetchTrackData] after the location fetch has resolved: nothing is
    written when no sample is valid; an exception after
    [setFullTrackPoints] is caught and leaves [corners] as it was. *)
Definition fetchTrackData (st : State) (locationData : list Location.t) : State :=
  let validData := validData locationData in
  if JS.length validData =? 0 then st
  else
    let points := map toPoint validData in
    match detectCorners points with
    | JS.Normal filteredCorners => mkState points filteredCorners
    | _ => mkState points (corners st)
    end.

End Detection.

(** [Math.floor(validData.length * (currentCorner.index / fullTrackPoints.length))] *)
Definition centerIdx (cornerIndex Nref Ntarget : Z) : Z :=
  JS.Math_floor
    (PrimFloat.mul (JS.of_int Ntarget)
                   (PrimFloat.div (JS.of_int cornerIndex) (JS.of_int Nref))).

Section Traces.

(** The awaited [openf1.getLocation] for a driver over the time range of
    the given lap. *)
Variable getLocation : Z -> Lap.t -> list Location.t.

Variable drivers : list Driver.t.
Variable driverFastestLaps : JS.Map.t Lap.t.

(** The body of the loop over [selectedDrivers]: [None] is [continue]. *)
Definition driverTrace (st : State) (currentCorner : CornerData) (driverNumber : Z)
  : option DriverTraceData :=
  match find (fun d => Driver.driver_number d =? driverNumber) drivers,
        JS.Map.get driverFastestLaps driverNumber with
  | Some driver, Some fastestLap =>
      let validData := validData (getLocation driverNumber fastestLap) in
      if JS.length validData =? 0 then None
      else
        let segmentSize := segmentSize validData in
        let centerIdx :=
          centerIdx (index currentCorner) (JS.length (fullTrackPoints st))
                    (JS.length validData) in
        let startIdx := Z.max 0 (centerIdx - segmentSize) in
        let endIdx := Z.min (JS.length validData - 1) (centerIdx + segmentSize) in
        Some (mkDriverTraceData driver
                (map toPoint (JS.slice validData startIdx (endIdx + 1)))
                (String.append "#" (Driver.team_colour driver)))
  | _, _ => None
  end.

(** [fetchDriverTraces]: the list handed to [setDriverTraces]; [None] when
    the function returns before setting it (no corner at
    [selectedCorner - 1]). *)
Definition fetchDriverTraces (st : State) (selectedCorner : Z)
  (selectedDrivers : list Z) : option (list DriverTraceData) :=
  match JS.get (corners st) (selectedCorner - 1) with
  | None => None
  | Some currentCorner =>
      Some (fold_left
              (fun traces driverNumber =>
                 match driverTrace st currentCorner driverNumber with
                 | Some t => traces ++ [t]
                 | None => traces
                 end)
              selectedDrivers [])
  end.

End Traces.

End CornerZoom.


(** ** CornerAnalysis.tsx: the telemetry window and its kinematics *)

Module CornerAnalysis.

(** A speed, or the [Infinity] the minimum search starts from. *)
Inductive bound : Type :=
| Finite (v : Z)
| Infinity.

Record TracePoint : Type := mkTracePoint {
  distance : Z;
  speed : Z
}.

Record DriverCornerData : Type := mkDriverCornerData {
  driver : Driver.t;
  entrySpeed : Z;
  minSpeed : bound;
  exitSpeed : Z;
  brakingDistance : Z;      (* meters before apex *)
  throttleOnDistance : Z;   (* meters after apex *)
  color : string;
  speedTrace : list TracePoint
}.

Definition metersPerSample : Z := 27.

(** [Math.floor(carData.length * (selectedCorner / 15))] *)
Definition cornerIndex (selectedCorner : Z) (carData : list CarData.t) : Z :=
  let cornerPercent := PrimFloat.div (JS.of_int selectedCorner) (JS.of_int 15) in
  JS.Math_floor (PrimFloat.mul (JS.of_int (JS.length carData)) cornerPercent).

(** [Math.floor(carData.length * 0.08)] *)
Definition windowSize (carData : list CarData.t) : Z :=
  JS.Math_floor (PrimFloat.mul (JS.of_int (JS.length carData)) 0x1.47ae147ae147bp-4%float).

Definition cornerWindow (selectedCorner : Z) (carData : list CarData.t)
  : list CarData.t :=
  let cornerIndex := cornerIndex selectedCorner carData in
  let windowSize := windowSize carData in
  let startIdx := Z.max 0 (cornerIndex - windowSize) in
  let endIdx := Z.min (JS.length carData - 1) (cornerIndex + windowSize) in
  JS.slice carData startIdx (endIdx + 1).

(** [data.speed < minSpeed] *)
Definition below (v : Z) (minSpeed : bound) : bool :=
  match minSpeed with
  | Finite m => v <? m
  | Infinity => true
  end.

(** The [forEach] that finds the apex: the pair [(minSpeedIdx, minSpeed)]. *)
Definition findApex (cornerWindow : list CarData.t) : Z * bound :=
  fold_left
    (fun '(minSpeedIdx, minSpeed) '(i, data) =>
       if below (CarData.speed data) minSpeed
       then (i, Finite (CarData.speed data))
       else (minSpeedIdx, minSpeed))
    (JS.indexed cornerWindow) (0, Infinity).

(** [for (let i = from; i < to; i++) if (test(cornerWindow[i])) { idx = i; break; }]
    with [idx] initialised to [init]: [rest] holds the samples from index
    [i] on.  Both loops of the source stay inside the window. *)
Fixpoint scan (test : CarData.t -> bool) (rest : list CarData.t) (i to init : Z) : Z :=
  match rest with
  | [] => init
  | data :: rest' =>
      if i <? to then
        if test data then i else scan test rest' (i + 1) to init
      else init
  end.

Definition brakingStartIdx (cornerWindow : list CarData.t) (minSpeedIdx : Z) : Z :=
  scan (fun data => CarData.brake data >? 10) cornerWindow 0 minSpeedIdx 0.

Definition throttleOnIdx (cornerWindow : list CarData.t) (minSpeedIdx : Z) : Z :=
  scan (fun data => CarData.throttle data >? 50)
       (skipn (Z.to_nat minSpeedIdx) cornerWindow)
       minSpeedIdx (JS.length cornerWindow) minSpeedIdx.

(** [cornerWindow[i]?.speed || 0] *)
Definition speedAt (cornerWindow : list CarData.t) (i : Z) : Z :=
  match JS.get cornerWindow i with
  | Some data => CarData.speed data
  | None => 0
  end.

(** Lines 108-163: what is pushed for a driver whose window passed the
    length test. *)
Definition analyzeWindow (driver : Driver.t) (cornerWindow : list CarData.t)
  : DriverCornerData :=
  let '(minSpeedIdx, minSpeed) := findApex cornerWindow in
  let entrySpeed := speedAt cornerWindow 0 in
  let exitSpeed := speedAt cornerWindow (JS.length cornerWindow - 1) in
  let brakingStartIdx := brakingStartIdx cornerWindow minSpeedIdx in
  let throttleOnIdx := throttleOnIdx cornerWindow minSpeedIdx in
  let brakingDistance := (minSpeedIdx - brakingStartIdx) * metersPerSample in
  let throttleOnDistance := (throttleOnIdx - minSpeedIdx) * metersPerSample in
  let speedTrace :=
    map (fun '(i, data) =>
           mkTracePoint ((i - minSpeedIdx) * metersPerSample) (CarData.speed data))
        (JS.indexed cornerWindow) in
  mkDriverCornerData driver entrySpeed minSpeed exitSpeed
    brakingDistance throttleOnDistance
    (String.append "#" (Driver.team_colour driver)) speedTrace.

Section Analyze.

(** The awaited [openf1.getCarData] for a driver over the time range of the
    given lap. *)
Variable getCarData : Z -> Lap.t -> list CarData.t.

Variable drivers : list Driver.t.
Variable driverFastestLaps : JS.Map.t Lap.t.
Variable selectedCorner : Z.

(** The body of the loop over [focusedDrivers]: [None] is [continue]. *)
Definition analyzeDriver (driverNumber : Z) : option DriverCornerData :=
  match find (fun d => Driver.driver_number d =? driverNumber) drivers,
        JS.Map.get driverFastestLaps driverNumber with
  | Some driver, Some fastestLap =>
      let carData := getCarData driverNumber fastestLap in
      if JS.length carData =? 0 then None
      else
        let cornerWindow := cornerWindow selectedCorner carData in
        if JS.length cornerWindow <? 10 then None
        else Some (analyzeWindow driver cornerWindow)
  | _, _ => None
  end.

(** [analyzeCorner]: the list handed to [setCornerData]. *)
Definition analyzeCorner (focusedDrivers : list Z) : list DriverCornerData :=
  fold_left
    (fun results driverNumber =>
       match analyzeDriver driverNumber with
       | Some r => results ++ [r]
       | None => results
       end)
    focusedDrivers [].

End Analyze.

End CornerAnalysis.


(** ** RacePositionChart: positions from cumulative lap times *)

Module RacePositionChart.

Record PositionData : Type := mkPositionData {
  lap : Z;
  position : Z
}.

Record DriverPositions : Type := mkDriverPositions {
  driverNumber : Z;
  acronym : string;
  color : string;
  positions : list PositionData
}.

(** An element of a lap group: [{ driverNumber, duration }]. *)
Record GroupEntry : Type := mkGroupEntry {
  entry_driverNumber : Z;
  duration : option JS.number
}.

(** [positionMap] after "Initialize drivers". *)
Definition initPositionMap (drivers : list Driver.t) : JS.Map.t DriverPositions :=
  fold_left
    (fun positionMap driver =>
       JS.Map.set positionMap (Driver.driver_number driver)
         (mkDriverPositions (Driver.driver_number driver)
            (Driver.name_acronym driver)
            (String.append "#" (Driver.team_colour driver)) []))
    drivers JS.Map.empty.

(** [lapGroups] after [laps.forEach]: every lap record is pushed, with or
    without a duration. *)
Definition lapGroups (laps : list Lap.t) : JS.Map.t (list GroupEntry) :=
  fold_left
    (fun lapGroups lap =>
       let lapGroups :=
         if JS.Map.has lapGroups (Lap.lap_number lap) then lapGroups
         else JS.Map.set lapGroups (Lap.lap_number lap) [] in
       match JS.Map.get lapGroups (Lap.lap_number lap) with
       | Some group =>
           JS.Map.set lapGroups (Lap.lap_number lap)
             (group ++ [mkGroupEntry (Lap.driver_number lap) (Lap.lap_duration lap)])
       | None => lapGroups
       end)
    laps JS.Map.empty.

(** [Array.from(lapGroups.keys()).sort((a, b) => a - b)] *)
Definition sortedLapNumbers (lapGroups : JS.Map.t (list GroupEntry)) : list Z :=
  JS.sort Z.compare (JS.Map.keys lapGroups).

(** "Update cumulative times" *)
Definition updateCumulativeTimes (cumulativeTimes : JS.Map.t JS.number)
  (lapData : list GroupEntry) : JS.Map.t JS.number :=
  fold_left
    (fun cumulativeTimes lap =>
       match duration lap with
       | Some d =>
           let prev :=
             match JS.Map.get cumulativeTimes (entry_driverNumber lap) with
             | Some v => JS.or_zero v
             | None => PrimFloat.zero
             end in
           JS.Map.set cumulativeTimes (entry_driverNumber lap) (PrimFloat.add prev d)
       | None => cumulativeTimes
       end)
    lapData cumulativeTimes.

(** [Array.from(cumulativeTimes.entries()).sort((a, b) => a[1] - b[1])] *)
Definition sortByTime (cumulativeTimes : JS.Map.t JS.number) : list (Z * JS.number) :=
  JS.sort (fun a b => JS.sign (PrimFloat.sub (snd a) (snd b)))
          (JS.Map.entries cumulativeTimes).

(** [sorted.forEach(([driverNumber], idx) => ...)]: a position is pushed
    only for a driver of [positionMap]. *)
Definition pushPositions (lapNum : Z) (sorted : list (Z * JS.number))
  (positionMap : JS.Map.t DriverPositions) : JS.Map.t DriverPositions :=
  fold_left
    (fun positionMap '(idx, (driverNumber, _)) =>
       match JS.Map.get positionMap driverNumber with
       | Some driverData =>
           JS.Map.set positionMap driverNumber
             (mkDriverPositions (RacePositionChart.driverNumber driverData)
                (acronym driverData) (color driverData)
                (positions driverData ++ [mkPositionData lapNum (idx + 1)]))
       | None => positionMap
       end)
    (JS.indexed sorted) positionMap.

(** One round of the loop over the sorted lap numbers, on the pair
    [(cumulativeTimes, positionMap)]. *)
Definition processLap (lapGroups : JS.Map.t (list GroupEntry))
  (st : JS.Map.t JS.number * JS.Map.t DriverPositions) (lapNum : Z)
  : JS.Map.t JS.number * JS.Map.t DriverPositions :=
  let '(cumulativeTimes, positionMap) := st in
  let lapData := match JS.Map.get lapGroups lapNum with Some g => g | None => [] end in
  let cumulativeTimes := updateCumulativeTimes cumulativeTimes lapData in
  let sorted := sortByTime cumulativeTimes in
  (cumulativeTimes, pushPositions lapNum sorted positionMap).

(** The state after the rounds of the lap numbers up to [upTo]. *)
Definition stateAfter (drivers : list Driver.t) (laps : list Lap.t) (upTo : Z)
  : JS.Map.t JS.number * JS.Map.t DriverPositions :=
  let lapGroups := lapGroups laps in
  fold_left (processLap lapGroups)
            (filter (fun n => n <=? upTo) (sortedLapNumbers lapGroups))
            (JS.Map.empty, initPositionMap drivers).

(** The state after the whole loop. *)
Definition finalState (drivers : list Driver.t) (laps : list Lap.t)
  : JS.Map.t JS.number * JS.Map.t DriverPositions :=
  let lapGroups := lapGroups laps in
  fold_left (processLap lapGroups) (sortedLapNumbers lapGroups)
            (JS.Map.empty, initPositionMap drivers).

(** The value of the [driverPositions] memo. *)
Definition driverPositions (drivers : list Driver.t) (laps : list Lap.t)
  : list DriverPositions :=
  filter (fun d => 0 <? JS.length (positions d))
         (JS.Map.values (snd (finalState drivers laps))).

End RacePositionChart.


(** ** Concrete inputs used by the examples below *)

Module Fixtures.

Definition verstappen : Driver.t := Driver.mk 1 "VER" "3671C6".
Definition hamilton : Driver.t := Driver.mk 44 "HAM" "27F4D2".

(** Eleven samples: speed is the parabola [100 + (i - 5)^2], the brake is
    applied on samples 0..4 and the throttle is open on samples 6..10. *)
Definition parabolaWindow : list CarData.t :=
  [ CarData.mk 100 125 0; CarData.mk 100 116 0; CarData.mk 100 109 0;
    CarData.mk 100 104 0; CarData.mk 100 101 0; CarData.mk 0 100 0;
    CarData.mk 0 101 100; CarData.mk 0 104 100; CarData.mk 0 109 100;
    CarData.mk 0 116 100; CarData.mk 0 125 100 ].

(** Ten samples with the slowest one at index 5 and the brake never used. *)
Definition coastingWindow : list CarData.t :=
  [ CarData.mk 0 150 0; CarData.mk 0 140 0; CarData.mk 0 130 0;
    CarData.mk 0 120 0; CarData.mk 0 110 0; CarData.mk 0 100 20;
    CarData.mk 0 110 60; CarData.mk 0 120 100; CarData.mk 0 130 100;
    CarData.mk 0 140 100 ].

(** A fastest lap for a driver (start date and duration only select the
    time range of the fetch). *)
Definition fastestLapOf (driverNumber : Z) : Lap.t :=
  Lap.mk "2024-05-26T13:10:00" driverNumber false (Some 75%float) 12.

Definition bothDrivers : list Driver.t := [verstappen; hamilton].

Definition bothFastestLaps : JS.Map.t Lap.t :=
  [(1, fastestLapOf 1); (44, fastestLapOf 44)].

(** [n] location samples on a straight line, sample [i] at [x = 1000 + i]. *)
Definition straightLine (n : nat) : list Location.t :=
  map (fun i => Location.mk (JS.of_int (1000 + Z.of_nat i)) (JS.of_int 1)) (seq 0 n).

(** A reference lap of 300 samples with one catalogued corner, at index 110. *)
Definition referenceState : CornerZoom.State :=
  CornerZoom.mkState
    (map CornerZoom.toPoint (straightLine 300))
    [CornerZoom.mkCornerData 110
       (CornerZoom.mkTrackPoint (JS.of_int 1110) (JS.of_int 1)) []].

(** Location feed: 300 samples for driver 1, three samples for driver 44. *)
Definition locationFeed (driverNumber : Z) (_ : Lap.t) : list Location.t :=
  if driverNumber =? 1 then straightLine 300
  else if driverNumber =? 44 then straightLine 3
  else [].

(** Telemetry feed: 200 samples for driver 1, 40 samples for driver 44. *)
Definition telemetryFeed (driverNumber : Z) (_ : Lap.t) : list CarData.t :=
  if driverNumber =? 1 then
    map (fun i => CarData.mk 0 (200 + Z.abs (Z.of_nat i - 30)) 100) (seq 0 200)
  else if driverNumber =? 44 then
    map (fun i => CarData.mk 0 (200 + Z.of_nat i) 100) (seq 0 40)
  else [].

End Fixtures.



(** ** Orders and views used to state the results *)

(** The body of the [forEach] that searches the apex. *)
Definition apexStep : Z * CornerAnalysis.bound -> Z * CarData.t -> Z * CornerAnalysis.bound :=
  fun '(minSpeedIdx, minSpeed) '(i, data) =>
    if CornerAnalysis.below (CarData.speed data) minSpeed
    then (i, CornerAnalysis.Finite (CarData.speed data))
    else (minSpeedIdx, minSpeed).

(** Catalog order: the earlier corner has the lower index. *)
Definition ascending : CornerZoom.CornerData -> CornerZoom.CornerData -> Prop :=
  fun a b => CornerZoom.index a < CornerZoom.index b.


Module Fixtures2.

(** A stand-in for [Math.atan2] used to run examples: the direction
    rounded to the nearest of the eight compass directions (exact on the
    axes and the diagonals). *)
Definition compass_atan2 (dy dx : JS.number) : JS.number :=
  let pos v := JS.gt v PrimFloat.zero in
  let neg v := JS.lt v PrimFloat.zero in
  let quarter := PrimFloat.div JS.Math_PI (JS.of_int 4) in
  let times k := PrimFloat.mul (JS.of_int k) quarter in
  let steep := JS.gt (PrimFloat.abs dy) (PrimFloat.mul (JS.of_int 2) (PrimFloat.abs dx)) in
  let flat := JS.gt (PrimFloat.abs dx) (PrimFloat.mul (JS.of_int 2) (PrimFloat.abs dy)) in
  if steep then (if pos dy then times 2 else times (-2))
  else if flat then (if pos dx then times 0 else if pos dy then times 4 else
                     if neg dy then times (-4) else times 4)
  else if pos dx then (if pos dy then times 1 else times (-1))
  else if neg dx then (if pos dy then times 3 else times (-3))
  else times 0.

(** A lap of [4 * n] samples around a square of side [n], starting on the
    bottom edge and turning left at each corner. *)
Definition squareLap (n : nat) : list Location.t :=
  let pt x y := Location.mk (JS.of_int (1000 + x)) (JS.of_int (1000 + y)) in
  let side := Z.of_nat n in
  map (fun i => pt (Z.of_nat i) 0) (seq 0 n)
  ++ map (fun i => pt side (Z.of_nat i)) (seq 0 n)
  ++ map (fun i => pt (side - Z.of_nat i) side) (seq 0 n)
  ++ map (fun i => pt 0 (side - Z.of_nat i)) (seq 0 n).

End Fixtures2.

(** *** Views of the lap records and of the position table *)

(** [k] appended to [ks] unless it is there: how the keys of a [Map] grow
    under [set]. *)
Definition addKey (ks : list Z) (k : Z) : list Z :=
  if existsb (Z.eqb k) ks then ks else ks ++ [k].

(** The distinct members of [l], in the order of their first occurrence. *)
Definition firstOccurrences (l : list Z) : list Z := fold_left addKey l [].

(** A lap record with a duration ([lap.lap_duration !== null]). *)
Definition hasDuration (lap : Lap.t) : bool :=
  match Lap.lap_duration lap with Some _ => true | None => false end.

(** The lap numbers that occur in the records, ascending. *)
Definition ascendingLapNumbers (laps : list Lap.t) : list Z :=
  JS.sort Z.compare (firstOccurrences (map Lap.lap_number laps)).

(** The records with a lap number up to [upTo], by ascending lap number,
    records of one lap number in the order of the input. *)
Definition processingOrder (laps : list Lap.t) (upTo : Z) : list Lap.t :=
  flat_map (fun n => filter (fun lap => Lap.lap_number lap =? n) laps)
           (filter (fun n => n <=? upTo) (ascendingLapNumbers laps)).

(** The durations of the records of driver [d] that have one. *)
Definition durationsOf (d : Z) (records : list Lap.t) : list JS.number :=
  flat_map (fun lap =>
              if Lap.driver_number lap =? d then
                match Lap.lap_duration lap with Some t => [t] | None => [] end
              else [])
           records.

(** Durations added one after the other as the source does,
    [(total || 0) + duration], from a total that may be absent. *)
Definition accumulate (start : option JS.number) (durations : list JS.number)
  : option JS.number :=
  fold_left
    (fun total t =>
       Some (PrimFloat.add
               (match total with Some v => JS.or_zero v | None => PrimFloat.zero end) t))
    durations start.

(** The drivers with a duration on some record up to [upTo], in the order
    in which they first record one. *)
Definition firstValidOrder (laps : list Lap.t) (upTo : Z) : list Z :=
  firstOccurrences
    (map Lap.driver_number (filter hasDuration (processingOrder laps upTo))).

(** [cumulativeTimes] after the round of lap number [upTo]. *)
Definition cumulativeAfter (laps : list Lap.t) (upTo : Z) : JS.Map.t JS.number :=
  fst (RacePositionChart.stateAfter [] laps upTo).

(** The 1-based place of driver [d] in a sorted list of entries whose
    first element has place [i + 1]. *)
Fixpoint rankFrom (i : Z) (d : Z) (sorted : list (Z * JS.number)) : option Z :=
  match sorted with
  | [] => None
  | (driverNumber, _) :: rest =>
      if driverNumber =? d then Some (i + 1) else rankFrom (i + 1) d rest
  end.

Definition rankOf (d : Z) (sorted : list (Z * JS.number)) : option Z :=
  rankFrom 0 d sorted.

(** The rows of the chart data at lap [L]: (driver number, position). *)
Definition entriesAt (L : Z) (out : list RacePositionChart.DriverPositions)
  : list (Z * Z) :=
  flat_map
    (fun d =>
       map (fun p => (RacePositionChart.driverNumber d, RacePositionChart.position p))
           (filter (fun p => RacePositionChart.lap p =? L)
                   (RacePositionChart.positions d)))
    out.

(** [x] occurs before an occurrence of [y]. *)
Inductive Before {A} (x y : A) : list A -> Prop :=
| Before_here (l : list A) : In y l -> Before x y (x :: l)
| Before_skip (z : A) (l : list A) : Before x y l -> Before x y (z :: l).

(** *** Auxiliary views of the lap groups *)

(** [lapGroups.get(n)!], empty for a lap number that is no key. *)
Definition groupOf (g : JS.Map.t (list RacePositionChart.GroupEntry)) (n : Z)
  : list RacePositionChart.GroupEntry :=
  match JS.Map.get g n with Some lapData => lapData | None => [] end.

(** The entry pushed for a lap record. *)
Definition toEntry (lap : Lap.t) : RacePositionChart.GroupEntry :=
  RacePositionChart.mkGroupEntry (Lap.driver_number lap) (Lap.lap_duration lap).

(** The records of lap number [n], in input order. *)
Definition lapsAt (laps : list Lap.t) (n : Z) : list Lap.t :=
  filter (fun lap => Lap.lap_number lap =? n) laps.

(** The durations of driver [d] among the entries of a lap group. *)
Definition entryDurations (d : Z) (lapData : list RacePositionChart.GroupEntry)
  : list JS.number :=
  flat_map (fun e =>
              if RacePositionChart.entry_driverNumber e =? d then
                match RacePositionChart.duration e with Some t => [t] | None => [] end
              else [])
           lapData.

Definition entryHasDuration (e : RacePositionChart.GroupEntry) : bool :=
  match RacePositionChart.duration e with Some _ => true | None => false end.

(** The body of [laps.forEach] that fills [lapGroups]. *)
Definition lapGroupsStep (lapGroups : JS.Map.t (list RacePositionChart.GroupEntry))
  (lap : Lap.t) : JS.Map.t (list RacePositionChart.GroupEntry) :=
  let lapGroups :=
    if JS.Map.has lapGroups (Lap.lap_number lap) then lapGroups
    else JS.Map.set lapGroups (Lap.lap_number lap) [] in
  match JS.Map.get lapGroups (Lap.lap_number lap) with
  | Some group =>
      JS.Map.set lapGroups (Lap.lap_number lap)
        (group ++ [RacePositionChart.mkGroupEntry (Lap.driver_number lap)
                     (Lap.lap_duration lap)])
  | None => lapGroups
  end.

(** The positions pushed at lap [L] for driver [d] while walking a sorted
    list whose first entry has index [i]. *)
Fixpoint pushed (L i d : Z) (sorted : list (Z * JS.number))
  : list RacePositionChart.PositionData :=
  match sorted with
  | [] => []
  | (driverNumber, _) :: rest =>
      (if driverNumber =? d then [RacePositionChart.mkPositionData L (i + 1)] else [])
      ++ pushed L (i + 1) d rest
  end.

(** The positions recorded for driver [d] in a position map. *)
Definition positionsOf (positionMap : JS.Map.t RacePositionChart.DriverPositions) (d : Z)
  : list RacePositionChart.PositionData :=
  match JS.Map.get positionMap d with
  | Some driverData => RacePositionChart.positions driverData
  | None => []
  end.

(** Every value of a position map sits under its own driver number. *)
Definition keyedByDriver (positionMap : JS.Map.t RacePositionChart.DriverPositions)
  : Prop :=
  forall d driverData,
    JS.Map.get positionMap d = Some driverData ->
    RacePositionChart.driverNumber driverData = d.

(** The cumulative map after each round of a run over the lap numbers
    [ks], paired with the lap number of the round. *)
Fixpoint cumTrace (g : JS.Map.t (list RacePositionChart.GroupEntry)) (ks : list Z)
  (cum : JS.Map.t JS.number) : list (Z * JS.Map.t JS.number) :=
  match ks with
  | [] => []
  | k :: rest =>
      let cum' := RacePositionChart.updateCumulativeTimes cum (groupOf g k) in
      (k, cum') :: cumTrace g rest cum'
  end.

(** The row of driver [d] in a sorted table, if the driver is in it. *)
Definition rowOf (sorted : list (Z * JS.number)) (d : Z) : list (Z * Z) :=
  match rankOf d sorted with
  | Some p => [(d, p)]
  | None => []
  end.

(** The integers from 1 to [K]. *)
Definition oneTo (K : Z) : list Z := map Z.of_nat (seq 1 (Z.to_nat K)).

Module RaceFixtures.

Definition lapOf (driverNumber lapNumber : Z) (duration : option JS.number)
  (pitOut : bool) : Lap.t :=
  Lap.mk "2024-05-26T13:00:00" driverNumber pitOut duration lapNumber.

(** Driver 1 laps in 60, 61 and 59 seconds, driver 44 in 60, 60 and 60:
    equal totals of 180 after lap 3. *)
Definition tiedLaps : list Lap.t :=
  [ lapOf 1 1 (Some 60%float) false; lapOf 44 1 (Some 60%float) false;
    lapOf 1 2 (Some 61%float) false; lapOf 44 2 (Some 60%float) false;
    lapOf 1 3 (Some 59%float) false; lapOf 44 3 (Some 60%float) false ].

(** Driver 44 leads after lap 1 and then has a pit-out lap of 95 seconds. *)
Definition pitOutLaps : list Lap.t :=
  [ lapOf 44 1 (Some 90%float) false; lapOf 1 1 (Some 91%float) false;
    lapOf 44 2 (Some 95%float) true; lapOf 1 2 (Some 91%float) false ].

(** Driver 44 has no duration on lap 5, between timed laps 4 and 6. *)
Definition missingLap : list Lap.t :=
  [ lapOf 1 4 (Some 80%float) false; lapOf 44 4 (Some 79%float) false;
    lapOf 1 5 (Some 80%float) false; lapOf 44 5 None false;
    lapOf 1 6 (Some 80%float) false; lapOf 44 6 (Some 82%float) false ].

End RaceFixtures.


(** ** More of CornerZoom.tsx: reference driver, selection, navigation *)

Module CornerZoomUI.

(** [lap.lap_duration!] in a comparison: [null] compares as 0. *)
Definition durationNumber (lap : Lap.t) : JS.number :=
  match Lap.lap_duration lap with Some d => d | None => PrimFloat.zero end.

(** The [fastestDriver] memo: the roster driver whose fastest lap is the
    shortest, the first of them on ties; [None] is [null]. *)
Definition fastestDriver (drivers : list Driver.t) (driverFastestLaps : JS.Map.t Lap.t)
  : option (Driver.t * Lap.t) :=
  if JS.length driverFastestLaps =? 0 then None
  else
    fold_left
      (fun fastest driver =>
         match JS.Map.get driverFastestLaps (Driver.driver_number driver) with
         | Some lap =>
             match fastest with
             | None => Some (driver, lap)
             | Some (_, fastestLap) =>
                 if JS.lt (durationNumber lap) (durationNumber fastestLap)
                 then Some (driver, lap) else fastest
             end
         | None => fastest
         end)
      drivers None.

(** [toggleDriver]: the new value of [selectedDrivers]. *)
Definition toggleDriver (prev : list Z) (driverNumber : Z) : list Z :=
  if existsb (fun d => d =? driverNumber) prev then
    filter (fun d => negb (d =? driverNumber)) prev
  else if JS.length prev >=? 4 then
    JS.slice prev 1 (JS.length prev) ++ [driverNumber]
  else prev ++ [driverNumber].

(** [prevCorner] and [nextCorner]: the new value of [selectedCorner]. *)
Definition prevCorner (selectedCorner : Z) (corners : list CornerZoom.CornerData) : Z :=
  if selectedCorner >? 1 then selectedCorner - 1 else JS.length corners.

Definition nextCorner (selectedCorner : Z) (corners : list CornerZoom.CornerData) : Z :=
  if selectedCorner <? JS.length corners then selectedCorner + 1 else 1.

End CornerZoomUI.

(** *** Views of the detection loop *)

(** What the loop establishes for a corner it pushes while running over
    [points] with window size [w]. *)
Definition candidateOf (Math_atan2 : JS.number -> JS.number -> JS.number)
  (points : list CornerZoom.TrackPoint) (w : Z) (c : CornerZoom.CornerData) : Prop :=
  let i := CornerZoom.index c in
  let segmentSize := CornerZoom.segmentSize points in
  w * 2 <= i < JS.length points - w * 2
  /\ (exists k, 0 <= k /\ i = w * 2 + k * (w / 2))
  /\ JS.get points i = Some (CornerZoom.center c)
  /\ CornerZoom.points c
     = JS.slice points (Z.max 0 (i - segmentSize))
                (Z.min (JS.length points - 1) (i + segmentSize) + 1)
  /\ exists prev next,
       JS.get points (i - w) = Some prev /\ JS.get points (i + w) = Some next
       /\ JS.gt (CornerZoom.angleDiff Math_atan2 prev (CornerZoom.center c) next)
                0.25%float = true.

(** *** Views of the fastest-lap selection *)

(** The laps of driver [d] that count for its fastest lap: with a duration
    and not pit-out laps. *)
Definition validLapsOf (d : Z) (laps : list Lap.t) : list Lap.t :=
  filter (fun lap =>
            (Lap.driver_number lap =? d)
            && (match Lap.lap_duration lap with Some _ => true | None => false end)
            && negb (Lap.is_pit_out_lap lap)) laps.

(** The body of the [reduce] that keeps the shorter lap. *)
Definition keepFaster (best : option Lap.t) (lap : Lap.t) : option Lap.t :=
  match best with
  | None => Some lap
  | Some b =>
      match Lap.lap_duration lap, Lap.lap_duration b with
      | Some d, Some db => if JS.lt d db then Some lap else Some b
      | _, _ => Some b
      end
  end.

(** [lap] is strictly shorter than [other]: both have a duration and the
    first is less than the second. *)
Definition shorter (lap other : Lap.t) : Prop :=
  match Lap.lap_duration lap, Lap.lap_duration other with
  | Some d, Some d' => JS.lt d d' = true
  | _, _ => False
  end.

(** [lap.lap_duration! < other.lap_duration!] *)
Definition quicker (lap other : Lap.t) : bool :=
  JS.lt (CornerZoomUI.durationNumber lap) (CornerZoomUI.durationNumber other).

Module Fixtures3.

(** A corner record at index [i] (centre and segment left empty). *)
Definition cornerAt (i : Z) : CornerZoom.CornerData :=
  CornerZoom.mkCornerData i (CornerZoom.mkTrackPoint PrimFloat.zero PrimFloat.zero) [].

(** Driver 44: a pit-out lap of 70 s, then laps of 91.5, 90.25 and
    90.25 s, and a lap without a duration; driver 1: one lap of 89 s. *)
Definition sessionLaps : list Lap.t :=
  [ Lap.mk "2024-05-26T13:00:00" 44 true (Some 70%float) 1;
    Lap.mk "2024-05-26T13:01:10" 44 false (Some 91.5%float) 2;
    Lap.mk "2024-05-26T13:02:41" 44 false (Some 90.25%float) 3;
    Lap.mk "2024-05-26T13:00:05" 1 false (Some 89%float) 1;
    Lap.mk "2024-05-26T13:04:11" 44 false (Some 90.25%float) 4;
    Lap.mk "2024-05-26T13:05:41" 44 false None 5 ].

End Fixtures3.

(** ** SpeedTrace (second component of CornerAnalysis.tsx): sampling *)

Module SpeedTrace.

(** [Math.max(1, Math.floor(lapData.length / 200))] *)
Definition sampleRate (lapData : list CarData.t) : Z :=
  Z.max 1 (JS.Math_floor (PrimFloat.div (JS.of_int (JS.length lapData)) (JS.of_int 200))).

(** [lapData.filter((_, i) => i % sampleRate === 0)] *)
Definition sampled (lapData : list CarData.t) : list CarData.t :=
  let sampleRate := sampleRate lapData in
  map snd (filter (fun '(i, _) => Z.rem i sampleRate =? 0) (JS.indexed lapData)).

End SpeedTrace.

(** [test] holds on the [count] integers from [n] on. *)
Fixpoint allFrom (test : Z -> bool) (n : Z) (count : nat) : bool :=
  match count with
  | O => true
  | S count' => test n && allFrom test (n + 1) count'
  end.

(** [Math.floor(n / 200)] is the integer quotient for every [n] from 0 to
    [bound]. *)
Definition floorDivExact (bound : Z) : bool :=
  allFrom
    (fun n => JS.Math_floor (PrimFloat.div (JS.of_int n) (JS.of_int 200)) =? n / 200)
    0 (S (Z.to_nat bound)).

(** *** Views of the telemetry window *)

(** The number of samples of [cornerWindow] on a lap of [N] samples. *)
Definition windowLength (selectedCorner N : Z) : Z :=
  JS.length (CornerAnalysis.cornerWindow selectedCorner
               (repeat (CarData.mk 0 0 0) (Z.to_nat N))).

(** For corners 1 to 20, a lap of fewer than 63 samples gives a window of
    fewer than 10. *)
Definition shortLapsSkipped : bool :=
  forallb
    (fun n =>
       forallb (fun k => windowLength (Z.of_nat k) (Z.of_nat n) <? 10) (seq 1 20))
    (seq 0 63).

(** [analyzeDriver] pushes a result. *)
Definition analysed {A} (result : option A) : bool :=
  match result with Some _ => true | None => false end.


(** ** Proof automation shared by the three components *)

(** Closes a goal that follows, by evaluation and linear arithmetic, from a
    membership [H : In p l] in a literal list [l]. *)
Ltac by_cases_in H :=
  repeat (destruct H as [H|H]; [subst; cbn; try lia|]);
  try contradiction.

(** Turns a goal on every sample [a[i]] of a literal array into one on the
    members of its indexed list (through [JS_get_forall_indexed], passed
    as [lem]). *)
Ltac all_samples lem :=
  match goal with
  | |- forall i d, JS.get ?w i = Some d -> @?P i d =>
      apply (lem _ P w); cbn [JS.indexed JS.indexed_from]
  end.


(** ** Facts on the JavaScript built-ins *)

Lemma JS_length_nonneg {A} (a : list A) : 0 <= JS.length a.
Proof. unfold JS.length. lia. Qed.

Lemma JS_get_Some_range {A} (a : list A) (i : Z) (v : A) :
  JS.get a i = Some v -> 0 <= i < JS.length a.
Proof.
  unfold JS.get, JS.length. destruct (Z.ltb_spec i 0) as [Hneg|Hpos]; [discriminate|].
  intros Hv. assert (Hn : (Z.to_nat i < List.length a)%nat).
  { apply nth_error_Some. rewrite Hv. discriminate. }
  lia.
Qed.

Lemma JS_get_in_range {A} (a : list A) (i : Z) :
  0 <= i < JS.length a -> exists v, JS.get a i = Some v.
Proof.
  unfold JS.get, JS.length. intros Hi.
  destruct (Z.ltb_spec i 0); [lia|].
  destruct (nth_error a (Z.to_nat i)) eqn:E; [eauto|].
  apply nth_error_None in E. lia.
Qed.

Lemma JS_get_cons {A} (x : A) (a : list A) (i : Z) :
  0 < i -> JS.get (x :: a) i = JS.get a (i - 1).
Proof.
  intros Hi. unfold JS.get.
  destruct (Z.ltb_spec i 0); [lia|]. destruct (Z.ltb_spec (i - 1) 0); [lia|].
  replace (Z.to_nat i) with (S (Z.to_nat (i - 1))) by lia. reflexivity.
Qed.

Lemma JS_get_head {A} (x : A) (a : list A) : JS.get (x :: a) 0 = Some x.
Proof. reflexivity. Qed.

Lemma indexed_from_nth_error {A} (l : list A) :
  forall i0 n,
    nth_error (JS.indexed_from i0 l) n
    = option_map (fun d => (i0 + Z.of_nat n, d)) (nth_error l n).
Proof.
  induction l as [|x r IH]; intros i0 [|n]; cbn; try reflexivity.
  - now rewrite Z.add_0_r.
  - rewrite IH. destruct (nth_error r n); cbn; [|reflexivity].
    do 2 f_equal. lia.
Qed.

(** A property of every sample read with [a[i]] can be checked on the
    list of indexed samples. *)
Lemma JS_get_forall_indexed {A} (P : Z -> A -> Prop) (a : list A) :
  (forall p, In p (JS.indexed a) -> P (fst p) (snd p)) ->
  forall i d, JS.get a i = Some d -> P i d.
Proof.
  intros H i d Hget. unfold JS.get in Hget.
  destruct (Z.ltb_spec i 0) as [|Hi]; [discriminate|].
  apply (H (i, d)). apply (nth_error_In _ (Z.to_nat i)).
  unfold JS.indexed. rewrite indexed_from_nth_error, Hget. cbn.
  do 2 f_equal. lia.
Qed.

(** ** Kinematics: the apex search and the two threshold scans *)

Section Kinematics.

Import CornerAnalysis.

(** Once the minimum is held, samples that are not lower leave it alone. *)
Lemma apex_fold_keeps (l : list CarData.t) (i0 mi m : Z) :
  (forall d, In d l -> m <= CarData.speed d) ->
  fold_left apexStep (JS.indexed_from i0 l) (mi, Finite m) = (mi, Finite m).
Proof.
  revert i0. induction l as [|x r IH]; intros i0 Hall; [reflexivity|].
  cbn [JS.indexed_from fold_left apexStep below].
  destruct (Z.ltb_spec (CarData.speed x) m) as [Hlt|_].
  - specialize (Hall x (or_introl eq_refl)). lia.
  - apply IH. intros d Hd. apply Hall. now right.
Qed.

(** A strict minimum at offset [k] of the remaining samples, lower than
    the value held so far, is what the search ends with. *)
Lemma apex_fold_unique_min (l : list CarData.t) :
  forall (k : nat) (i0 : Z) (acc : Z * bound) (dk : CarData.t),
    nth_error l k = Some dk ->
    (forall j d, nth_error l j = Some d -> j <> k -> CarData.speed dk < CarData.speed d) ->
    below (CarData.speed dk) (snd acc) = true ->
    fold_left apexStep (JS.indexed_from i0 l) acc
    = (i0 + Z.of_nat k, Finite (CarData.speed dk)).
Proof.
  induction l as [|x r IH]; intros k i0 [mi mb] dk Hk Hmin Hacc.
  - destruct k; discriminate.
  - destruct k as [|k'].
    + cbn in Hk. injection Hk as ->.
      cbn [JS.indexed_from fold_left apexStep]. cbn [snd] in Hacc. rewrite Hacc.
      rewrite apex_fold_keeps.
      * f_equal. lia.
      * intros d Hd. apply In_nth_error in Hd as [j Hj].
        specialize (Hmin (S j) d Hj ltac:(discriminate)). lia.
    + cbn in Hk. cbn [JS.indexed_from fold_left].
      rewrite (IH k' (i0 + 1) _ dk Hk).
      * f_equal. lia.
      * intros j d Hj Hne. apply (Hmin (S j) d Hj). congruence.
      * cbn [snd] in Hacc. cbn [apexStep].
        pose proof (Hmin 0%nat x eq_refl ltac:(discriminate)) as Hx.
        destruct (below (CarData.speed x) mb); cbn [snd below]; [|exact Hacc].
        apply Z.ltb_lt. exact Hx.
Qed.

Lemma findApex_unique_min (w : list CarData.t) (k : Z) (dk : CarData.t) :
  JS.get w k = Some dk ->
  (forall i d, JS.get w i = Some d -> i <> k -> CarData.speed dk < CarData.speed d) ->
  findApex w = (k, Finite (CarData.speed dk)).
Proof.
  intros Hk Hmin. pose proof (JS_get_Some_range _ _ _ Hk) as Hr.
  unfold findApex, JS.indexed.
  change (fold_left apexStep (JS.indexed_from 0 w) (0, Infinity)
          = (k, Finite (CarData.speed dk))).
  rewrite (apex_fold_unique_min w (Z.to_nat k) 0 (0, Infinity) dk).
  - f_equal. lia.
  - unfold JS.get in Hk. destruct (Z.ltb_spec k 0); [lia|exact Hk].
  - intros j d Hj Hne. apply (Hmin (Z.of_nat j)); [|lia].
    unfold JS.get. destruct (Z.ltb_spec (Z.of_nat j) 0); [lia|].
    now rewrite Nat2Z.id.
  - reflexivity.
Qed.

(** The apex index always lies in the window (or is 0 for an empty one). *)
Lemma apex_fold_range (l : list CarData.t) :
  forall i0 acc lo,
    lo <= fst acc -> lo <= i0 ->
    lo <= fst (fold_left apexStep (JS.indexed_from i0 l) acc)
    /\ fst (fold_left apexStep (JS.indexed_from i0 l) acc)
       <= Z.max (fst acc) (i0 + JS.length l - 1).
Proof.
  induction l as [|x r IH]; intros i0 [mi mb] lo Hlo Hi.
  - cbn in *. lia.
  - cbn [JS.indexed_from fold_left]. cbn [fst] in Hlo.
    assert (HL : JS.length (x :: r) = JS.length r + 1).
    { unfold JS.length. cbn [List.length]. lia. }
    pose proof (JS_length_nonneg r).
    destruct (IH (i0 + 1) (apexStep (mi, mb) (i0, x)) lo) as [H1 H2].
    + cbn [apexStep]. destruct (below _ _); cbn [fst]; lia.
    + lia.
    + split; [exact H1|]. rewrite HL. cbn [fst].
      assert (fst (apexStep (mi, mb) (i0, x)) <= Z.max mi i0).
      { cbn [apexStep]. destruct (below _ _); cbn [fst]; lia. }
      lia.
Qed.

Lemma findApex_range (w : list CarData.t) :
  0 <= fst (findApex w) <= Z.max 0 (JS.length w - 1).
Proof.
  unfold findApex, JS.indexed.
  change (0 <= fst (fold_left apexStep (JS.indexed_from 0 w) (0, Infinity))
          <= Z.max 0 (JS.length w - 1)).
  destruct (apex_fold_range w 0 (0, Infinity) 0) as [H1 H2]; cbn [fst] in *; lia.
Qed.

(** The scan stops at the first index that passes the test. *)
Lemma scan_first (test : CarData.t -> bool) (rest : list CarData.t) :
  forall i to init j d,
    i <= j < to ->
    nth_error rest (Z.to_nat (j - i)) = Some d ->
    test d = true ->
    (forall j' d', i <= j' < j ->
                   nth_error rest (Z.to_nat (j' - i)) = Some d' -> test d' = false) ->
    scan test rest i to init = j.
Proof.
  induction rest as [|x r IH]; intros i to init j d Hj Hd Ht Hbefore.
  - destruct (Z.to_nat (j - i)); discriminate.
  - cbn [scan]. destruct (Z.ltb_spec i to); [|lia].
    destruct (Z.eq_dec j i) as [->|Hne].
    + rewrite Z.sub_diag in Hd. cbn in Hd. injection Hd as ->. now rewrite Ht.
    + rewrite (Hbefore i x); [|lia|now rewrite Z.sub_diag].
      apply (IH (i + 1) to init j d); [lia| |exact Ht|].
      * replace (Z.to_nat (j - i)) with (S (Z.to_nat (j - (i + 1)))) in Hd by lia.
        exact Hd.
      * intros j' d' Hj' Hd'. apply (Hbefore j' d'); [lia|].
        replace (Z.to_nat (j' - i)) with (S (Z.to_nat (j' - (i + 1)))) by lia.
        exact Hd'.
Qed.


Lemma nth_error_JS_get {A} (a : list A) (j : Z) :
  0 <= j -> nth_error a (Z.to_nat j) = JS.get a j.
Proof. intros Hj. unfold JS.get. destruct (Z.ltb_spec j 0); [lia|reflexivity]. Qed.

Lemma nth_error_skipn_JS_get {A} (a : list A) (k j : Z) :
  0 <= k <= j -> nth_error (skipn (Z.to_nat k) a) (Z.to_nat (j - k)) = JS.get a j.
Proof.
  intros H. rewrite nth_error_skipn.
  replace (Z.to_nat k + Z.to_nat (j - k))%nat with (Z.to_nat j) by lia.
  apply nth_error_JS_get. lia.
Qed.

Lemma brakingStartIdx_first (w : list CarData.t) (apex j : Z) (d : CarData.t) :
  0 <= j < apex ->
  JS.get w j = Some d -> 10 < CarData.brake d ->
  (forall j' d', 0 <= j' < j -> JS.get w j' = Some d' -> CarData.brake d' <= 10) ->
  brakingStartIdx w apex = j.
Proof.
  intros Hj Hd Hb Hbefore. unfold brakingStartIdx.
  apply (scan_first _ w 0 apex 0 j d); [lia| | |].
  - rewrite Z.sub_0_r, nth_error_JS_get by lia. exact Hd.
  - apply Z.gtb_lt. lia.
  - intros j' d' Hj' Hd'. rewrite Z.sub_0_r, nth_error_JS_get in Hd' by lia.
    specialize (Hbefore j' d' Hj' Hd').
    destruct (Z.gtb_spec (CarData.brake d') 10); [lia|reflexivity].
Qed.


Lemma throttleOnIdx_first (w : list CarData.t) (apex j : Z) (d : CarData.t) :
  0 <= apex <= j ->
  JS.get w j = Some d -> 50 < CarData.throttle d ->
  (forall j' d', apex <= j' < j -> JS.get w j' = Some d' -> CarData.throttle d' <= 50) ->
  throttleOnIdx w apex = j.
Proof.
  intros Hj Hd Ht Hbefore. unfold throttleOnIdx.
  pose proof (JS_get_Some_range _ _ _ Hd) as Hr.
  apply (scan_first _ _ apex (JS.length w) apex j d); [lia| | |].
  - rewrite nth_error_skipn_JS_get by lia. exact Hd.
  - apply Z.gtb_lt. lia.
  - intros j' d' Hj' Hd'. rewrite nth_error_skipn_JS_get in Hd' by lia.
    specialize (Hbefore j' d' Hj' Hd').
    destruct (Z.gtb_spec (CarData.throttle d') 50); [lia|reflexivity].
Qed.

End Kinematics.


Section KinematicsClaims.

Import CornerAnalysis.

Lemma JS_get_map_indexed {A B} (f : Z * A -> B) (l : list A) (i : Z) :
  JS.get (map f (JS.indexed l)) i = option_map (fun d => f (i, d)) (JS.get l i).
Proof.
  unfold JS.get, JS.indexed. destruct (Z.ltb_spec i 0); [reflexivity|].
  rewrite nth_error_map, indexed_from_nth_error.
  destruct (nth_error l (Z.to_nat i)); cbn; [|reflexivity].
  do 2 f_equal. f_equal. lia.
Qed.

(** C1 (amended).  In a window of at least 10 samples whose speed has its
    only minimum at index [k], with [brake > 10] exactly on [[k-5, k)] and
    [throttle > 50] exactly on [(k, k+5]], the extraction puts the apex at
    [k] (the trace point of index [k] is at distance 0 and carries the
    minimum speed), reports [brakingDistance = 5 * metersPerSample] and
    reports [throttleOnDistance = 1 * metersPerSample]: the throttle scan
    starts at the apex and stops at the first sample over 50, index [k+1]. *)
Theorem kinematics_round_trip
  (driver : Driver.t) (w : list CarData.t) (k : Z) (dk : CarData.t) :
  10 <= JS.length w ->
  5 <= k -> k + 5 < JS.length w ->
  JS.get w k = Some dk ->
  (forall i d, JS.get w i = Some d -> i <> k -> CarData.speed dk < CarData.speed d) ->
  (forall i d, JS.get w i = Some d -> (10 < CarData.brake d <-> k - 5 <= i < k)) ->
  (forall i d, JS.get w i = Some d -> (50 < CarData.throttle d <-> k < i <= k + 5)) ->
  fst (findApex w) = k
  /\ minSpeed (analyzeWindow driver w) = Finite (CarData.speed dk)
  /\ JS.get (speedTrace (analyzeWindow driver w)) k
     = Some (mkTracePoint 0 (CarData.speed dk))
  /\ brakingDistance (analyzeWindow driver w) = 5 * metersPerSample
  /\ throttleOnDistance (analyzeWindow driver w) = 1 * metersPerSample.
Proof.
  intros _ Hk5 Hk5' Hk Hmin Hbrake Hthr.
  pose proof (findApex_unique_min w k dk Hk Hmin) as Hapex.
  destruct (JS_get_in_range w (k - 5) ltac:(lia)) as [db Hdb].
  destruct (JS_get_in_range w (k + 1) ltac:(lia)) as [dt Hdt].
  assert (Hb : brakingStartIdx w k = k - 5).
  { apply (brakingStartIdx_first w k (k - 5) db); [lia|exact Hdb| |].
    - apply (Hbrake _ _ Hdb). lia.
    - intros j' d' Hj' Hd'.
      destruct (Z_le_gt_dec (CarData.brake d') 10) as [Hle|Hgt]; [exact Hle|].
      apply Z.gt_lt, (Hbrake _ _ Hd') in Hgt. lia. }
  assert (Ht : throttleOnIdx w k = k + 1).
  { apply (throttleOnIdx_first w k (k + 1) dt); [lia|exact Hdt| |].
    - apply (Hthr _ _ Hdt). lia.
    - intros j' d' Hj' Hd'.
      destruct (Z_le_gt_dec (CarData.throttle d') 50) as [Hle|Hgt]; [exact Hle|].
      apply Z.gt_lt, (Hthr _ _ Hd') in Hgt. lia. }
  unfold analyzeWindow. rewrite Hapex. cbn [fst minSpeed speedTrace brakingDistance
                                            throttleOnDistance].
  rewrite Hb, Ht, JS_get_map_indexed, Hk. cbn [option_map].
  repeat split; try (f_equal; f_equal; lia); unfold metersPerSample; lia.
Qed.

Lemma kinematics_round_trip_witness :
  fst (findApex Fixtures.parabolaWindow) = 5
  /\ minSpeed (analyzeWindow Fixtures.verstappen Fixtures.parabolaWindow) = Finite 100
  /\ JS.get (speedTrace (analyzeWindow Fixtures.verstappen Fixtures.parabolaWindow)) 5
     = Some (mkTracePoint 0 100)
  /\ brakingDistance (analyzeWindow Fixtures.verstappen Fixtures.parabolaWindow)
     = 5 * metersPerSample
  /\ throttleOnDistance (analyzeWindow Fixtures.verstappen Fixtures.parabolaWindow)
     = 1 * metersPerSample.
Proof.
  apply (kinematics_round_trip Fixtures.verstappen Fixtures.parabolaWindow 5
           (CarData.mk 0 100 0)).
  - vm_compute. discriminate.
  - lia.
  - vm_compute. reflexivity.
  - reflexivity.
  - all_samples @JS_get_forall_indexed. intros p H. by_cases_in H.
  - all_samples @JS_get_forall_indexed. intros p H. by_cases_in H.
  - all_samples @JS_get_forall_indexed. intros p H. by_cases_in H.
Defined.

(** C1 as the specification words it fails on the parabola window: all
    its premises hold with [k = 5], and the throttle-on distance is 27,
    not [5 * metersPerSample = 135]. *)
Lemma kinematics_round_trip_counterexample :
  let w := Fixtures.parabolaWindow in
  let k := 5 in
  10 <= JS.length w
  /\ (forall i d, JS.get w i = Some d -> i <> k -> 100 < CarData.speed d)
  /\ JS.get w k = Some (CarData.mk 0 100 0)
  /\ (forall i d, JS.get w i = Some d -> (10 < CarData.brake d <-> k - 5 <= i < k))
  /\ (forall i d, JS.get w i = Some d -> (50 < CarData.throttle d <-> k < i <= k + 5))
  /\ throttleOnDistance (analyzeWindow Fixtures.verstappen w) = 27
  /\ throttleOnDistance (analyzeWindow Fixtures.verstappen w) <> 5 * metersPerSample.
Proof.
  cbv zeta. split; [vm_compute; discriminate|].
  split; [all_samples @JS_get_forall_indexed; intros p H; by_cases_in H|].
  split; [reflexivity|].
  split; [all_samples @JS_get_forall_indexed; intros p H; by_cases_in H|].
  split; [all_samples @JS_get_forall_indexed; intros p H; by_cases_in H|].
  split; [reflexivity|vm_compute; discriminate].
Qed.




End KinematicsClaims.


(** ** The two aligners: which drivers are kept, and where the window sits *)

Section Aligners.

(** A loop that pushes the result of its body, or skips on [continue]. *)
Lemma In_push_loop {A B} (body : A -> option B) (l : list A) :
  forall (init : list B) (r : B),
    In r (fold_left
            (fun acc a => match body a with Some b => acc ++ [b] | None => acc end)
            l init)
    <-> In r init \/ exists a, In a l /\ body a = Some r.
Proof.
  induction l as [|a l IH]; intros init r; cbn [fold_left].
  - split; [auto|]. intros [H|[a [[] _]]]. exact H.
  - rewrite IH. split.
    + intros [H|[a' [Ha' Hb]]].
      * destruct (body a) eqn:E.
        -- apply in_app_or in H as [H|[<-|[]]]; [now left|].
           right. exists a. split; [now left|exact E].
        -- now left.
      * right. exists a'. split; [now right|exact Hb].
    + intros [H|[a' [[<-|Ha'] Hb]]].
      * left. destruct (body a); [apply in_or_app|]; auto.
      * left. rewrite Hb. apply in_or_app. right. now left.
      * right. exists a'. auto.
Qed.

Lemma JS_slice_nil {A} (s e : Z) : JS.slice (@nil A) s e = [].
Proof. unfold JS.slice. now rewrite skipn_nil, firstn_nil. Qed.

Lemma JS_length_zero {A} (a : list A) : JS.length a = 0 <-> a = [].
Proof.
  unfold JS.length. destruct a; cbn [List.length]; split; intros H;
    try reflexivity; try discriminate; lia.
Qed.

(** C5 (amended).  In the telemetry comparison ([analyzeCorner]) a focused
    driver with a roster entry and a fastest lap is in the results exactly
    when the extracted window has at least 10 samples; a shorter window
    drops the driver without an error.  The position-trace overlay
    ([fetchDriverTraces]) has no length threshold: such a driver is kept
    whenever at least one location sample is valid. *)
Theorem window_length_policy
  (getCarData : Z -> Lap.t -> list CarData.t)
  (getLocation : Z -> Lap.t -> list Location.t)
  (drivers : list Driver.t) (driverFastestLaps : JS.Map.t Lap.t)
  (selectedCorner : Z) (st : CornerZoom.State) (currentCorner : CornerZoom.CornerData)
  (driverNumber : Z) (driver : Driver.t) (fastestLap : Lap.t) :
  find (fun d => Driver.driver_number d =? driverNumber) drivers = Some driver ->
  JS.Map.get driverFastestLaps driverNumber = Some fastestLap ->
  let cornerWindow :=
    CornerAnalysis.cornerWindow selectedCorner (getCarData driverNumber fastestLap) in
  let validData := CornerZoom.validData (getLocation driverNumber fastestLap) in
  (JS.length cornerWindow < 10 ->
   CornerAnalysis.analyzeDriver getCarData drivers driverFastestLaps selectedCorner
     driverNumber = None
   /\ forall others,
        CornerAnalysis.analyzeCorner getCarData drivers driverFastestLaps selectedCorner
          (driverNumber :: others)
        = CornerAnalysis.analyzeCorner getCarData drivers driverFastestLaps
            selectedCorner others)
  /\ (10 <= JS.length cornerWindow ->
      forall focusedDrivers,
        In driverNumber focusedDrivers ->
        In (CornerAnalysis.analyzeWindow driver cornerWindow)
           (CornerAnalysis.analyzeCorner getCarData drivers driverFastestLaps
              selectedCorner focusedDrivers))
  /\ (validData <> [] ->
      exists t,
        CornerZoom.driverTrace getLocation drivers driverFastestLaps st currentCorner
          driverNumber = Some t
        /\ CornerZoom.driver t = driver
        /\ forall selectedDrivers,
             In driverNumber selectedDrivers ->
             JS.get (CornerZoom.corners st) (selectedCorner - 1) = Some currentCorner ->
             exists traces,
               CornerZoom.fetchDriverTraces getLocation drivers driverFastestLaps st
                 selectedCorner selectedDrivers = Some traces
               /\ In t traces).
Proof.
  intros Hfind Hlap cornerWindow validData.
  assert (Hshort : JS.length cornerWindow < 10 ->
                   CornerAnalysis.analyzeDriver getCarData drivers driverFastestLaps
                     selectedCorner driverNumber = None).
  { intros Hlt. unfold CornerAnalysis.analyzeDriver. rewrite Hfind, Hlap.
    destruct (JS.length (getCarData driverNumber fastestLap) =? 0); [reflexivity|].
    fold cornerWindow. destruct (Z.ltb_spec (JS.length cornerWindow) 10); [reflexivity|lia]. }
  split; [|split].
  - intros Hlt. split; [auto|]. intros others. unfold CornerAnalysis.analyzeCorner.
    cbn [fold_left]. now rewrite (Hshort Hlt).
  - intros Hge focusedDrivers Hin. unfold CornerAnalysis.analyzeCorner.
    apply In_push_loop. right. exists driverNumber. split; [exact Hin|].
    unfold CornerAnalysis.analyzeDriver. rewrite Hfind, Hlap.
    destruct (Z.eqb_spec (JS.length (getCarData driverNumber fastestLap)) 0) as [E|_].
    + apply JS_length_zero in E. subst cornerWindow. rewrite E in Hge.
      unfold CornerAnalysis.cornerWindow in Hge. rewrite JS_slice_nil in Hge.
      cbn in Hge. lia.
    + fold cornerWindow.
      destruct (Z.ltb_spec (JS.length cornerWindow) 10); [lia|reflexivity].
  - intros Hne.
    assert (Hlen : (JS.length validData =? 0) = false).
    { apply Z.eqb_neq. intros E. apply JS_length_zero in E. contradiction. }
    unfold CornerZoom.driverTrace. rewrite Hfind, Hlap. fold validData. rewrite Hlen.
    eexists. split; [reflexivity|]. split; [reflexivity|].
    intros selectedDrivers Hin Hcorner. unfold CornerZoom.fetchDriverTraces.
    rewrite Hcorner. eexists. split; [reflexivity|].
    apply In_push_loop. right. exists driverNumber. split; [exact Hin|].
    unfold CornerZoom.driverTrace. rewrite Hfind, Hlap. fold validData. now rewrite Hlen.
Qed.

Lemma window_length_policy_witness :
  CornerAnalysis.analyzeDriver Fixtures.telemetryFeed Fixtures.bothDrivers
    Fixtures.bothFastestLaps 5 44 = None
  /\ In (CornerAnalysis.analyzeWindow Fixtures.verstappen
           (CornerAnalysis.cornerWindow 5
              (Fixtures.telemetryFeed 1 (Fixtures.fastestLapOf 1))))
        (CornerAnalysis.analyzeCorner Fixtures.telemetryFeed Fixtures.bothDrivers
           Fixtures.bothFastestLaps 5 [1; 44]).
Proof.
  split.
  - apply (window_length_policy Fixtures.telemetryFeed Fixtures.locationFeed
             Fixtures.bothDrivers Fixtures.bothFastestLaps 5 Fixtures.referenceState
             (CornerZoom.mkCornerData 110
                (CornerZoom.mkTrackPoint (JS.of_int 1110) (JS.of_int 1)) [])
             44 Fixtures.hamilton (Fixtures.fastestLapOf 44) eq_refl eq_refl).
    vm_compute. reflexivity.
  - apply (window_length_policy Fixtures.telemetryFeed Fixtures.locationFeed
             Fixtures.bothDrivers Fixtures.bothFastestLaps 5 Fixtures.referenceState
             (CornerZoom.mkCornerData 110
                (CornerZoom.mkTrackPoint (JS.of_int 1110) (JS.of_int 1)) [])
             1 Fixtures.verstappen (Fixtures.fastestLapOf 1) eq_refl eq_refl).
    + vm_compute. discriminate.
    + left. reflexivity.
Defined.

(** C5 as worded fails on the position-trace overlay: driver 44 has three
    valid location samples, the extracted window holds one sample, and the
    driver is kept in the traces of the corner. *)
Lemma short_trace_retained_counterexample :
  CornerZoom.fetchDriverTraces Fixtures.locationFeed Fixtures.bothDrivers
    Fixtures.bothFastestLaps Fixtures.referenceState 1 [44]
  = Some [CornerZoom.mkDriverTraceData Fixtures.hamilton
            [CornerZoom.mkTrackPoint (JS.of_int 1001) (JS.of_int 1)] "#27F4D2"]
  /\ JS.length [CornerZoom.mkTrackPoint (JS.of_int 1001) (JS.of_int 1)] < 10.
Proof. split; vm_compute; reflexivity. Qed.







End Aligners.


(** ** Corner detection: the loop, the distinct-corner filter, the cap *)

Section CornerDetection.

Import CornerZoom.

Variable Math_atan2 : JS.number -> JS.number -> JS.number.

Lemma windowSize_ge_10 (points : list TrackPoint) : 10 <= windowSize points.
Proof. unfold windowSize. lia. Qed.


Lemma In_firstn_In {A} (n : nat) (l : list A) (x : A) :
  In x (firstn n l) -> In x l.
Proof.
  revert l. induction n as [|n IH]; intros [|a l]; cbn; try tauto.
  intros [H|H]; [now left|right; auto].
Qed.


Lemma StronglySorted_nth {A} (R : A -> A -> Prop) (l : list A) :
  StronglySorted R l ->
  forall i j a b, (i < j)%nat -> nth_error l i = Some a -> nth_error l j = Some b -> R a b.
Proof.
  induction 1 as [|x l Hs IH Hx]; intros i j a b Hij Hi Hj.
  - destruct i; discriminate.
  - destruct j as [|j]; [lia|]. cbn in Hj. destruct i as [|i].
    + cbn in Hi. injection Hi as <-. rewrite Forall_forall in Hx.
      apply Hx. eapply nth_error_In; eauto.
    + cbn in Hi. apply (IH i j); auto. lia.
Qed.

(** The loop ends normally for every array of points: its three reads stay
    inside the array, and [length points] rounds are enough.  The corners it
    pushes come in ascending index order, from the entry counter on. *)
Lemma detectLoop_normal (points : list TrackPoint) (w : Z) :
  2 <= w ->
  forall fuel i acc,
    w <= i ->
    (Z.to_nat (JS.length points - w * 2 - i) <= fuel)%nat ->
    exists new,
      detectLoop Math_atan2 fuel points w i acc = JS.Normal (acc ++ new)
      /\ Forall (fun c => i <= index c) new
      /\ StronglySorted ascending new.
Proof.
  intros Hw. induction fuel as [|fuel IH]; intros i acc Hi Hfuel.
  - cbn [detectLoop]. destruct (Z.ltb_spec i (JS.length points - w * 2)); [lia|].
    exists []. rewrite app_nil_r. repeat split; constructor.
  - cbn [detectLoop]. destruct (Z.ltb_spec i (JS.length points - w * 2)) as [Hlt|Hge].
    + destruct (JS_get_in_range points (i - w) ltac:(lia)) as [prev ->].
      destruct (JS_get_in_range points i ltac:(lia)) as [curr ->].
      destruct (JS_get_in_range points (i + w) ltac:(lia)) as [next ->].
      assert (Hstep : 1 <= w / 2) by (apply Z.div_le_lower_bound; lia).
      match goal with
      | |- context [detectLoop _ fuel points w (i + w / 2) ?acc'] =>
          destruct (IH (i + w / 2) acc' ltac:(lia) ltac:(lia)) as (new & Hrun & Hlo & Hsorted)
      end.
      rewrite Hrun. destruct (JS.gt _ _).
      * eexists (_ :: new). rewrite <- app_assoc. split; [reflexivity|]. split.
        -- constructor; [cbn; lia|].
           eapply Forall_impl; [|exact Hlo]. cbn. intros; lia.
        -- constructor; [exact Hsorted|].
           eapply Forall_impl; [|exact Hlo]. unfold ascending. cbn. intros; lia.
      * exists new. split; [reflexivity|]. split; [|exact Hsorted].
        eapply Forall_impl; [|exact Hlo]. cbn. intros; lia.
    + exists []. rewrite app_nil_r. repeat split; constructor.
Qed.



Lemma JS_slice_prefix {A} (l : list A) (n : Z) :
  0 <= n -> JS.slice l 0 n = firstn (Z.to_nat n) l.
Proof.
  intros Hn. unfold JS.slice. pose proof (JS_length_nonneg l) as HL.
  destruct (Z.ltb_spec 0 0); [lia|]. destruct (Z.ltb_spec n 0); [lia|].
  rewrite (Z.min_l 0) by lia. cbn [Z.to_nat skipn]. rewrite Z.sub_0_r.
  destruct (Z.le_ge_cases n (JS.length l)) as [Hle|Hge].
  - now rewrite Z.min_l by lia.
  - rewrite Z.min_r by lia. unfold JS.length in *. rewrite Nat2Z.id.
    rewrite !firstn_all2; auto; lia.
Qed.

(** Corner detection returns a catalog for every array of points. *)
Lemma detectCorners_normal (points : list TrackPoint) :
  exists detected,
    detectLoop Math_atan2 (List.length points) points (windowSize points)
               (windowSize points * 2) []
    = JS.Normal detected
    /\ StronglySorted ascending detected
    /\ detectCorners Math_atan2 points
       = JS.Normal (firstn 20 (filterCorners (windowSize points) detected)).
Proof.
  pose proof (windowSize_ge_10 points) as Hw.
  destruct (detectLoop_normal points (windowSize points) ltac:(lia)
              (List.length points) (windowSize points * 2) [] ltac:(lia))
    as (new & Hrun & _ & Hsorted).
  { unfold JS.length. lia. }
  exists new. cbn [app] in Hrun. split; [exact Hrun|]. split; [exact Hsorted|].
  unfold detectCorners. rewrite Hrun. now rewrite JS_slice_prefix by lia.
Qed.

End CornerDetection.


Section CornerClaims.

Import CornerZoom.

Variable Math_atan2 : JS.number -> JS.number -> JS.number.

(** C6.  A sequence of points shorter than four window sizes, the window
    size being [max(10, floor(N / 30))], gives the empty catalog, and
    detection ends normally (nothing is thrown). *)
Theorem short_lap_empty_catalog (points : list TrackPoint) :
  JS.length points < 4 * windowSize points ->
  detectCorners Math_atan2 points = JS.Normal [].
Proof.
  intros Hshort. unfold detectCorners.
  assert (Hloop : forall fuel,
             detectLoop Math_atan2 fuel points (windowSize points)
                        (windowSize points * 2) [] = JS.Normal []).
  { intros fuel.
    destruct fuel; cbn [detectLoop];
      destruct (Z.ltb_spec (windowSize points * 2)
                           (JS.length points - windowSize points * 2));
      try lia; reflexivity. }
  rewrite Hloop. reflexivity.
Qed.


End CornerClaims.

Lemma short_lap_empty_catalog_witness :
  CornerZoom.detectCorners Fixtures2.compass_atan2
    (map CornerZoom.toPoint (Fixtures2.squareLap 9))
  = JS.Normal [].
Proof.
  apply (short_lap_empty_catalog Fixtures2.compass_atan2
           (map CornerZoom.toPoint (Fixtures2.squareLap 9))).
  vm_compute. reflexivity.
Defined.

(** On a square lap of 400 samples (window size 13) the loop proposes
    three candidates around each of the turns at 100, 200 and 300; the
    filter keeps the first of each group. *)
Example square_lap_catalog :
  CornerZoom.windowSize (map CornerZoom.toPoint (Fixtures2.squareLap 100)) = 13
  /\ (exists detected,
         CornerZoom.detectLoop Fixtures2.compass_atan2 400
           (map CornerZoom.toPoint (Fixtures2.squareLap 100)) 13 26 []
         = JS.Normal detected
         /\ map CornerZoom.index detected = [92; 98; 104; 194; 200; 206; 296; 302; 308])
  /\ (exists catalog,
         CornerZoom.detectCorners Fixtures2.compass_atan2
           (map CornerZoom.toPoint (Fixtures2.squareLap 100))
         = JS.Normal catalog
         /\ map CornerZoom.index catalog = [92; 194; 296]).
Proof.
  split; [vm_compute; reflexivity|]. split.
  - destruct (CornerZoom.detectLoop _ _ _ _ _ _) as [detected| |] eqn:E.
    + exists detected. split; [reflexivity|].
      assert (H : match CornerZoom.detectLoop Fixtures2.compass_atan2 400
                          (map CornerZoom.toPoint (Fixtures2.squareLap 100)) 13 26 [] with
                  | JS.Normal d => map CornerZoom.index d
                  | _ => []
                  end = [92; 98; 104; 194; 200; 206; 296; 302; 308])
        by (vm_compute; reflexivity).
      rewrite E in H. exact H.
    + exfalso. revert E. vm_compute. discriminate.
    + exfalso. revert E. vm_compute. discriminate.
  - destruct (CornerZoom.detectCorners _ _) as [catalog| |] eqn:E.
    + exists catalog. split; [reflexivity|].
      assert (H : match CornerZoom.detectCorners Fixtures2.compass_atan2
                          (map CornerZoom.toPoint (Fixtures2.squareLap 100)) with
                  | JS.Normal d => map CornerZoom.index d
                  | _ => []
                  end = [92; 194; 296])
        by (vm_compute; reflexivity).
      rewrite E in H. exact H.
    + exfalso. revert E. vm_compute. discriminate.
    + exfalso. revert E. vm_compute. discriminate.
Qed.


(** ** Facts on [Map] and on the stable sort *)

Section MapFacts.

Context {V : Type}.

Lemma Map_get_set (m : JS.Map.t V) (k k' : Z) (v : V) :
  JS.Map.get (JS.Map.set m k v) k' = if k' =? k then Some v else JS.Map.get m k'.
Proof.
  induction m as [|[k0 v0] m IH]; cbn.
  - destruct (k' =? k); reflexivity.
  - destruct (Z.eqb_spec k k0) as [-> |Hne]; cbn.
    + destruct (Z.eqb_spec k' k0); reflexivity.
    + rewrite IH. destruct (Z.eqb_spec k' k0) as [-> |]; [|reflexivity].
      destruct (Z.eqb_spec k0 k); [congruence|reflexivity].
Qed.

Lemma Map_get_In_keys (m : JS.Map.t V) (k : Z) :
  In k (JS.Map.keys m) <-> exists v, JS.Map.get m k = Some v.
Proof.
  induction m as [|[k0 v0] m IH]; cbn.
  - split; [tauto|]. intros [v Hv]. discriminate.
  - destruct (Z.eqb_spec k k0) as [-> |Hne].
    + split; [eauto|auto].
    + rewrite <- IH. split; [intros [H|H]; [congruence|exact H]|auto].
Qed.

Lemma Map_get_In (m : JS.Map.t V) (k : Z) (v : V) :
  JS.Map.get m k = Some v -> In (k, v) m.
Proof.
  induction m as [|[k0 v0] m IH]; cbn; [discriminate|].
  destruct (Z.eqb_spec k k0) as [-> |Hne].
  - intros [= ->]. now left.
  - intros H. right. auto.
Qed.

Lemma Map_In_get (m : JS.Map.t V) (k : Z) (v : V) :
  NoDup (JS.Map.keys m) -> In (k, v) m -> JS.Map.get m k = Some v.
Proof.
  induction m as [|[k0 v0] m IH]; cbn; [tauto|].
  intros Hnd [H|H].
  - injection H as -> ->. now rewrite Z.eqb_refl.
  - inversion Hnd as [|? ? Hnotin Hnd']; subst.
    destruct (Z.eqb_spec k k0) as [-> |Hne]; [|auto].
    exfalso. apply Hnotin. change (In k0 (map fst m)).
    apply in_map_iff. exists (k0, v). auto.
Qed.

Lemma existsb_eqb_In (k : Z) (ks : list Z) :
  existsb (Z.eqb k) ks = true <-> In k ks.
Proof.
  rewrite existsb_exists. split.
  - intros [x [Hx E]]. apply Z.eqb_eq in E. now subst.
  - intros H. exists k. split; [exact H|apply Z.eqb_refl].
Qed.

Lemma Map_keys_set (m : JS.Map.t V) (k : Z) (v : V) :
  JS.Map.keys (JS.Map.set m k v) = addKey (JS.Map.keys m) k.
Proof.
  unfold addKey, JS.Map.keys. induction m as [|[k0 v0] m IH]; cbn; [reflexivity|].
  destruct (Z.eqb_spec k k0) as [-> |Hne]; cbn; [reflexivity|].
  rewrite IH. destruct (existsb (Z.eqb k) (map fst m)); reflexivity.
Qed.

End MapFacts.

Lemma addKey_In (ks : list Z) (k x : Z) :
  In x (addKey ks k) <-> In x ks \/ x = k.
Proof.
  unfold addKey. destruct (existsb (Z.eqb k) ks) eqn:E.
  - apply existsb_eqb_In in E. split; [auto|]. intros [H | ->]; auto.
  - rewrite in_app_iff. cbn. intuition.
Qed.

Lemma addKey_NoDup (ks : list Z) (k : Z) : NoDup ks -> NoDup (addKey ks k).
Proof.
  intros Hnd. unfold addKey. destruct (existsb (Z.eqb k) ks) eqn:E; [exact Hnd|].
  assert (Hnotin : ~ In k ks).
  { intros Hin. apply existsb_eqb_In in Hin. congruence. }
  clear E. induction Hnd as [|a l Ha Hnd IH]; cbn.
  - constructor; [tauto|constructor].
  - constructor.
    + rewrite in_app_iff. cbn. intros [H|[H|[]]]; [auto|]. subst. apply Hnotin. now left.
    + apply IH. intros H. apply Hnotin. now right.
Qed.

Lemma fold_addKey_In (l : list Z) :
  forall ks x, In x (fold_left addKey l ks) <-> In x ks \/ In x l.
Proof.
  induction l as [|k l IH]; intros ks x; cbn [fold_left].
  - cbn. tauto.
  - rewrite IH, addKey_In. cbn. intuition.
Qed.

Lemma fold_addKey_NoDup (l : list Z) :
  forall ks, NoDup ks -> NoDup (fold_left addKey l ks).
Proof.
  induction l as [|k l IH]; intros ks Hnd; cbn [fold_left]; [exact Hnd|].
  apply IH, addKey_NoDup, Hnd.
Qed.

Lemma firstOccurrences_In (l : list Z) (x : Z) : In x (firstOccurrences l) <-> In x l.
Proof. unfold firstOccurrences. rewrite fold_addKey_In. cbn. tauto. Qed.

Lemma firstOccurrences_NoDup (l : list Z) : NoDup (firstOccurrences l).
Proof. apply fold_addKey_NoDup. constructor. Qed.

Lemma fold_addKey_app (l1 l2 : list Z) (ks : list Z) :
  fold_left addKey (l1 ++ l2) ks = fold_left addKey l2 (fold_left addKey l1 ks).
Proof. apply fold_left_app. Qed.

Section SortFacts.

Context {A : Type} (cmp : A -> A -> comparison).

Lemma sort_insert_perm (x : A) (l : list A) : Permutation (x :: l) (JS.sort_insert cmp x l).
Proof.
  induction l as [|y r IH]; cbn; [reflexivity|].
  destruct (cmp x y); try reflexivity.
  rewrite perm_swap. now constructor.
Qed.

Lemma sort_perm (l : list A) : Permutation l (JS.sort cmp l).
Proof.
  induction l as [|x r IH]; cbn; [constructor|].
  rewrite <- sort_insert_perm. now constructor.
Qed.

Lemma sort_insert_keeps (x y z : A) (l : list A) :
  Before x y l -> Before x y (JS.sort_insert cmp z l).
Proof.
  induction 1 as [l Hy|h l Hb IH]; cbn.
  - destruct (cmp z x).
    + apply Before_skip. now apply Before_here.
    + apply Before_skip. now apply Before_here.
    + apply Before_here.
      apply (Permutation_in _ (sort_insert_perm z l)). now right.
  - destruct (cmp z h).
    + apply Before_skip. now apply Before_skip.
    + apply Before_skip. now apply Before_skip.
    + now apply Before_skip.
Qed.

Lemma sort_insert_before (x y : A) (l : list A) :
  In y l -> cmp x y <> Gt -> Before x y (JS.sort_insert cmp x l).
Proof.
  intros Hy Hcmp. induction l as [|h r IH]; [destruct Hy|].
  cbn. destruct (cmp x h) eqn:E.
  - now apply Before_here.
  - now apply Before_here.
  - destruct Hy as [-> |Hy]; [congruence|]. apply Before_skip. auto.
Qed.

(** The sort is stable: an element stays before a later one that the
    comparator does not put first. *)
Lemma sort_stable (x y : A) (l : list A) :
  Before x y l -> cmp x y <> Gt -> Before x y (JS.sort cmp l).
Proof.
  intros Hb Hcmp. induction Hb as [l Hy|z l Hb IH]; cbn.
  - apply sort_insert_before; [|exact Hcmp].
    apply (Permutation_in _ (sort_perm l)). exact Hy.
  - now apply sort_insert_keeps.
Qed.

End SortFacts.

Lemma Before_nth {A} (l : list A) :
  forall i j x y,
    (i < j)%nat -> nth_error l i = Some x -> nth_error l j = Some y -> Before x y l.
Proof.
  induction l as [|h l IH]; intros i j x y Hij Hi Hj.
  - destruct i; discriminate.
  - destruct j as [|j]; [lia|]. cbn in Hj. destruct i as [|i].
    + cbn in Hi. injection Hi as ->. apply Before_here. eapply nth_error_In; eauto.
    + cbn in Hi. apply Before_skip. apply (IH i j); auto. lia.
Qed.

(** Sorting lap numbers: ascending without repetition. *)
Lemma sort_insert_Z_sorted (x : Z) (l : list Z) :
  StronglySorted Z.lt l -> ~ In x l ->
  StronglySorted Z.lt (JS.sort_insert Z.compare x l).
Proof.
  induction 1 as [|y r Hs IH Hy]; intros Hx; cbn.
  - constructor; constructor.
  - destruct (Z.compare_spec x y) as [-> |Hlt|Hgt].
    + exfalso. apply Hx. now left.
    + constructor; [now constructor|]. constructor; [exact Hlt|].
      eapply Forall_impl; [|exact Hy]. cbn. intros; lia.
    + constructor.
      * apply IH. intros H. apply Hx. now right.
      * rewrite Forall_forall in *. intros z Hz.
        apply (Permutation_in _ (Permutation_sym (sort_insert_perm Z.compare x r))) in Hz.
        destruct Hz as [<-|Hz]; [lia|auto].
Qed.

Lemma sort_Z_sorted (l : list Z) :
  NoDup l -> StronglySorted Z.lt (JS.sort Z.compare l).
Proof.
  induction 1 as [|x l Hx Hnd IH]; cbn; [constructor|].
  apply sort_insert_Z_sorted; [exact IH|].
  intros H. apply Hx. apply (Permutation_in _ (Permutation_sym (sort_perm Z.compare l))).
  exact H.
Qed.


(** ** Position reconstruction: lap groups and cumulative times *)

Section Cumulative.

Import RacePositionChart.

Lemma addKey_idem (ks : list Z) (k : Z) : addKey (addKey ks k) k = addKey ks k.
Proof.
  unfold addKey at 2 3. destruct (existsb (Z.eqb k) ks) eqn:E.
  - unfold addKey. now rewrite E.
  - unfold addKey. rewrite existsb_app. cbn [existsb]. rewrite Z.eqb_refl.
    cbn [orb]. now rewrite orb_true_r.
Qed.

Lemma addKey_present (ks : list Z) (k : Z) : In k ks -> addKey ks k = ks.
Proof. intros H. unfold addKey. apply existsb_eqb_In in H. now rewrite H. Qed.

Lemma Map_has_In_keys {V} (m : JS.Map.t V) (k : Z) :
  JS.Map.has m k = true <-> In k (JS.Map.keys m).
Proof.
  unfold JS.Map.has. rewrite Map_get_In_keys.
  destruct (JS.Map.get m k) as [v|].
  - split; [intros _; now exists v|reflexivity].
  - split; [discriminate|]. intros [v Hv]. discriminate.
Qed.

Lemma lapGroupsStep_keys (g : JS.Map.t (list GroupEntry)) (lap : Lap.t) :
  JS.Map.keys (lapGroupsStep g lap) = addKey (JS.Map.keys g) (Lap.lap_number lap).
Proof.
  unfold lapGroupsStep, JS.Map.has.
  destruct (JS.Map.get g (Lap.lap_number lap)) as [group|] eqn:E.
  - rewrite E, Map_keys_set. reflexivity.
  - rewrite Map_get_set, Z.eqb_refl, !Map_keys_set. apply addKey_idem.
Qed.

Lemma lapGroupsStep_group (g : JS.Map.t (list GroupEntry)) (lap : Lap.t) (n : Z) :
  groupOf (lapGroupsStep g lap) n
  = groupOf g n ++ (if Lap.lap_number lap =? n then [toEntry lap] else []).
Proof.
  unfold lapGroupsStep, JS.Map.has, groupOf.
  destruct (JS.Map.get g (Lap.lap_number lap)) as [group|] eqn:E.
  - rewrite E, Map_get_set. rewrite (Z.eqb_sym (Lap.lap_number lap) n).
    destruct (Z.eqb_spec n (Lap.lap_number lap)) as [-> |Hne].
    + now rewrite E.
    + now rewrite app_nil_r.
  - rewrite Map_get_set, Z.eqb_refl, !Map_get_set.
    rewrite (Z.eqb_sym (Lap.lap_number lap) n).
    destruct (Z.eqb_spec n (Lap.lap_number lap)) as [-> |Hne].
    + now rewrite E.
    + now rewrite app_nil_r.
Qed.

(** Every record lands in the group of its lap number, in input order, and
    the groups are keyed in the order in which lap numbers first occur. *)
Lemma lapGroups_fold (laps : list Lap.t) :
  forall g,
    JS.Map.keys (fold_left lapGroupsStep laps g)
    = fold_left addKey (map Lap.lap_number laps) (JS.Map.keys g)
    /\ forall n, groupOf (fold_left lapGroupsStep laps g) n
                 = groupOf g n ++ map toEntry (lapsAt laps n).
Proof.
  induction laps as [|lap laps IH]; intros g; cbn [fold_left map].
  - split; [reflexivity|]. intros n. cbn. now rewrite app_nil_r.
  - destruct (IH (lapGroupsStep g lap)) as [IHk IHg]. split.
    + now rewrite IHk, lapGroupsStep_keys.
    + intros n. rewrite IHg, lapGroupsStep_group, <- app_assoc. f_equal.
      unfold lapsAt. cbn [filter].
      destruct (Lap.lap_number lap =? n); reflexivity.
Qed.

Lemma lapGroups_keys (laps : list Lap.t) :
  JS.Map.keys (lapGroups laps) = firstOccurrences (map Lap.lap_number laps).
Proof.
  change (lapGroups laps) with (fold_left lapGroupsStep laps JS.Map.empty).
  now destruct (lapGroups_fold laps JS.Map.empty) as [H _].
Qed.

Lemma lapGroups_group (laps : list Lap.t) (n : Z) :
  groupOf (lapGroups laps) n = map toEntry (lapsAt laps n).
Proof.
  change (lapGroups laps) with (fold_left lapGroupsStep laps JS.Map.empty).
  destruct (lapGroups_fold laps JS.Map.empty) as [_ H]. apply (H n).
Qed.

Lemma sortedLapNumbers_ascending (laps : list Lap.t) :
  sortedLapNumbers (lapGroups laps) = ascendingLapNumbers laps.
Proof. unfold sortedLapNumbers, ascendingLapNumbers. now rewrite lapGroups_keys. Qed.

Lemma ascendingLapNumbers_sorted (laps : list Lap.t) :
  StronglySorted Z.lt (ascendingLapNumbers laps).
Proof. apply sort_Z_sorted, firstOccurrences_NoDup. Qed.

Lemma ascendingLapNumbers_In (laps : list Lap.t) (n : Z) :
  In n (ascendingLapNumbers laps) <-> In n (map Lap.lap_number laps).
Proof.
  unfold ascendingLapNumbers. split; intros H.
  - apply firstOccurrences_In.
    apply (Permutation_in _ (Permutation_sym (sort_perm Z.compare _))). exact H.
  - apply (Permutation_in _ (sort_perm Z.compare _)).
    apply firstOccurrences_In. exact H.
Qed.

Lemma entryDurations_toEntry (d : Z) (laps : list Lap.t) :
  entryDurations d (map toEntry laps) = durationsOf d laps.
Proof.
  unfold entryDurations, durationsOf. induction laps as [|lap laps IH]; cbn; [reflexivity|].
  now rewrite IH.
Qed.

Lemma accumulate_app (start : option JS.number) (l1 l2 : list JS.number) :
  accumulate start (l1 ++ l2) = accumulate (accumulate start l1) l2.
Proof. apply fold_left_app. Qed.

(** A round adds to the total of a driver the durations of that driver's
    entries, and nothing else. *)
Lemma updateCumulativeTimes_get (lapData : list GroupEntry) :
  forall cum d,
    JS.Map.get (updateCumulativeTimes cum lapData) d
    = accumulate (JS.Map.get cum d) (entryDurations d lapData).
Proof.
  unfold updateCumulativeTimes.
  induction lapData as [|e lapData IH]; intros cum d; cbn [fold_left]; [reflexivity|].
  rewrite IH. unfold entryDurations. cbn [flat_map]. fold (entryDurations d lapData).
  rewrite accumulate_app. f_equal.
  destruct (duration e) as [t|].
  - rewrite Map_get_set. rewrite (Z.eqb_sym (entry_driverNumber e) d).
    destruct (Z.eqb_spec d (entry_driverNumber e)) as [->|Hne]; reflexivity.
  - destruct (entry_driverNumber e =? d); reflexivity.
Qed.

Lemma updateCumulativeTimes_keys (lapData : list GroupEntry) :
  forall cum,
    JS.Map.keys (updateCumulativeTimes cum lapData)
    = fold_left addKey (map entry_driverNumber (filter entryHasDuration lapData))
                (JS.Map.keys cum).
Proof.
  unfold updateCumulativeTimes.
  induction lapData as [|e lapData IH]; intros cum; cbn [fold_left]; [reflexivity|].
  rewrite IH. cbn [filter]. unfold entryHasDuration at 2.
  destruct (duration e); cbn [map fold_left]; [|reflexivity].
  now rewrite Map_keys_set.
Qed.

(** The cumulative times do not depend on the position map. *)
Lemma processLap_fold_fst (g : JS.Map.t (list GroupEntry)) (ks : list Z) :
  forall cum pm,
    fst (fold_left (processLap g) ks (cum, pm))
    = fold_left (fun c n => updateCumulativeTimes c (groupOf g n)) ks cum.
Proof.
  induction ks as [|k ks IH]; intros cum pm; cbn [fold_left]; [reflexivity|].
  unfold processLap at 2. fold (groupOf g k). apply IH.
Qed.

Lemma cumulative_fold_get (laps : list Lap.t) (ks : list Z) :
  forall cum d,
    JS.Map.get
      (fold_left (fun c n => updateCumulativeTimes c (groupOf (lapGroups laps) n)) ks cum) d
    = accumulate (JS.Map.get cum d) (durationsOf d (flat_map (lapsAt laps) ks)).
Proof.
  induction ks as [|k ks IH]; intros cum d; cbn [fold_left flat_map]; [reflexivity|].
  rewrite IH, updateCumulativeTimes_get, lapGroups_group, entryDurations_toEntry.
  unfold durationsOf. rewrite flat_map_app. fold (durationsOf d (lapsAt laps k)).
  now rewrite accumulate_app.
Qed.

Lemma filter_hasDuration_toEntry (laps : list Lap.t) :
  map entry_driverNumber (filter entryHasDuration (map toEntry laps))
  = map Lap.driver_number (filter hasDuration laps).
Proof.
  induction laps as [|lap laps IH]; [reflexivity|]. cbn [map filter].
  change (entryHasDuration (toEntry lap)) with (hasDuration lap).
  destruct (hasDuration lap); cbn [map]; now rewrite IH.
Qed.

Lemma cumulative_fold_keys (laps : list Lap.t) (ks : list Z) :
  forall cum,
    JS.Map.keys
      (fold_left (fun c n => updateCumulativeTimes c (groupOf (lapGroups laps) n)) ks cum)
    = fold_left addKey
        (map Lap.driver_number (filter hasDuration (flat_map (lapsAt laps) ks)))
        (JS.Map.keys cum).
Proof.
  induction ks as [|k ks IH]; intros cum; cbn [fold_left flat_map]; [reflexivity|].
  rewrite IH, updateCumulativeTimes_keys, lapGroups_group, filter_hasDuration_toEntry.
  now rewrite filter_app, map_app, fold_left_app.
Qed.

Lemma stateAfter_fst (drivers : list Driver.t) (laps : list Lap.t) (upTo : Z) :
  fst (stateAfter drivers laps upTo) = cumulativeAfter laps upTo.
Proof.
  unfold cumulativeAfter, stateAfter. now rewrite !processLap_fold_fst.
Qed.

Lemma cumulativeAfter_fold (laps : list Lap.t) (upTo : Z) :
  cumulativeAfter laps upTo
  = fold_left (fun c n => updateCumulativeTimes c (groupOf (lapGroups laps) n))
              (filter (fun n => n <=? upTo) (ascendingLapNumbers laps)) JS.Map.empty.
Proof.
  unfold cumulativeAfter, stateAfter.
  now rewrite processLap_fold_fst, sortedLapNumbers_ascending.
Qed.

Lemma cumulativeAfter_get (laps : list Lap.t) (upTo d : Z) :
  JS.Map.get (cumulativeAfter laps upTo) d
  = accumulate None (durationsOf d (processingOrder laps upTo)).
Proof. rewrite cumulativeAfter_fold, cumulative_fold_get. reflexivity. Qed.

Lemma cumulativeAfter_keys (laps : list Lap.t) (upTo : Z) :
  JS.Map.keys (cumulativeAfter laps upTo) = firstValidOrder laps upTo.
Proof. rewrite cumulativeAfter_fold, cumulative_fold_keys. reflexivity. Qed.

End Cumulative.


(** ** Position reconstruction: the position map *)

Section PositionMap.

Import RacePositionChart.

(** Walking the sorted entries appends to each driver of the map the
    positions of its own entries, and touches nothing else. *)
Lemma pushPositions_get (L : Z) (sorted : list (Z * JS.number)) :
  forall i pm d,
    JS.Map.get
      (fold_left
         (fun positionMap '(idx, (driverNumber, _)) =>
            match JS.Map.get positionMap driverNumber with
            | Some driverData =>
                JS.Map.set positionMap driverNumber
                  (mkDriverPositions (RacePositionChart.driverNumber driverData)
                     (acronym driverData) (color driverData)
                     (positions driverData ++ [mkPositionData L (idx + 1)]))
            | None => positionMap
            end)
         (JS.indexed_from i sorted) pm) d
    = option_map
        (fun driverData =>
           mkDriverPositions (RacePositionChart.driverNumber driverData)
             (acronym driverData) (color driverData)
             (positions driverData ++ pushed L i d sorted))
        (JS.Map.get pm d).
Proof.
  induction sorted as [|[dn t] rest IH]; intros i pm d; cbn [JS.indexed_from fold_left pushed].
  - destruct (JS.Map.get pm d) as [[n a c p]|]; cbn; [|reflexivity].
    now rewrite app_nil_r.
  - rewrite IH. destruct (JS.Map.get pm dn) as [dd0|] eqn:E.
    + rewrite Map_get_set. rewrite (Z.eqb_sym dn d).
      destruct (Z.eqb_spec d dn) as [-> |Hne].
      * rewrite E. cbn. now rewrite <- app_assoc.
      * reflexivity.
    + destruct (Z.eqb_spec dn d) as [-> |Hne].
      * now rewrite E.
      * reflexivity.
Qed.

Lemma pushPositions_get' (L : Z) (sorted : list (Z * JS.number))
  (pm : JS.Map.t DriverPositions) (d : Z) :
  JS.Map.get (pushPositions L sorted pm) d
  = option_map
      (fun driverData =>
         mkDriverPositions (RacePositionChart.driverNumber driverData)
           (acronym driverData) (color driverData)
           (positions driverData ++ pushed L 0 d sorted))
      (JS.Map.get pm d).
Proof. apply pushPositions_get. Qed.

Lemma pushPositions_keys (L : Z) (sorted : list (Z * JS.number)) :
  forall i pm,
    JS.Map.keys
      (fold_left
         (fun positionMap '(idx, (driverNumber, _)) =>
            match JS.Map.get positionMap driverNumber with
            | Some driverData =>
                JS.Map.set positionMap driverNumber
                  (mkDriverPositions (RacePositionChart.driverNumber driverData)
                     (acronym driverData) (color driverData)
                     (positions driverData ++ [mkPositionData L (idx + 1)]))
            | None => positionMap
            end)
         (JS.indexed_from i sorted) pm)
    = JS.Map.keys pm.
Proof.
  induction sorted as [|[dn t] rest IH]; intros i pm; cbn [JS.indexed_from fold_left];
    [reflexivity|].
  rewrite IH. destruct (JS.Map.get pm dn) as [dd0|] eqn:E; [|reflexivity].
  rewrite Map_keys_set. apply addKey_present. apply Map_get_In_keys. eauto.
Qed.

Lemma pushed_lap (L i d : Z) (sorted : list (Z * JS.number)) (p : PositionData) :
  In p (pushed L i d sorted) -> lap p = L.
Proof.
  revert i. induction sorted as [|[dn t] rest IH]; intros i; cbn; [tauto|].
  rewrite in_app_iff. intros [H|H]; [|eauto].
  destruct (dn =? d); [|destruct H]. destruct H as [<-|[]]. reflexivity.
Qed.

(** With one entry per driver, a driver gets its rank or nothing. *)
Lemma pushed_rank (L d : Z) (sorted : list (Z * JS.number)) :
  NoDup (map fst sorted) ->
  forall i,
    pushed L i d sorted
    = match rankFrom i d sorted with
      | Some p => [mkPositionData L p]
      | None => []
      end.
Proof.
  induction sorted as [|[dn t] rest IH]; intros Hnd i; cbn; [reflexivity|].
  inversion Hnd as [|? ? Hnotin Hnd']; subst.
  destruct (Z.eqb_spec dn d) as [-> |Hne]; cbn.
  - f_equal. rewrite (IH Hnd').
    assert (Hnone : forall j, rankFrom j d rest = None).
    { clear - Hnotin. induction rest as [|[dn' t'] rest IH]; intros j; cbn; [reflexivity|].
      destruct (Z.eqb_spec dn' d) as [-> |Hne].
      - exfalso. apply Hnotin. now left.
      - apply IH. intros H. apply Hnotin. now right. }
    now rewrite Hnone.
  - apply (IH Hnd').
Qed.

Lemma rankFrom_Some (d : Z) (sorted : list (Z * JS.number)) :
  forall i p,
    rankFrom i d sorted = Some p ->
    i + 1 <= p <= i + JS.length sorted
    /\ exists t, nth_error sorted (Z.to_nat (p - i - 1)) = Some (d, t).
Proof.
  induction sorted as [|[dn t] rest IH]; intros i p; cbn [rankFrom]; [discriminate|].
  assert (HL : JS.length ((dn, t) :: rest) = JS.length rest + 1).
  { unfold JS.length. cbn [List.length]. lia. }
  pose proof (JS_length_nonneg rest) as Hnn.
  destruct (Z.eqb_spec dn d) as [-> |Hne].
  - intros [= <-]. split; [lia|]. exists t.
    replace (i + 1 - i - 1) with 0 by lia. reflexivity.
  - intros Hr0. apply IH in Hr0 as [Hr [t' Ht']]. split; [lia|]. exists t'.
    replace (Z.to_nat (p - i - 1)) with (S (Z.to_nat (p - (i + 1) - 1))) by lia.
    exact Ht'.
Qed.

Lemma rankFrom_In (d : Z) (sorted : list (Z * JS.number)) :
  forall i, In d (map fst sorted) -> exists p, rankFrom i d sorted = Some p.
Proof.
  induction sorted as [|[dn t] rest IH]; intros i; cbn; [tauto|].
  destruct (Z.eqb_spec dn d) as [-> |Hne]; [eauto|].
  intros [H|H]; [congruence|auto].
Qed.

Lemma rankFrom_None (d : Z) (sorted : list (Z * JS.number)) :
  forall i, ~ In d (map fst sorted) -> rankFrom i d sorted = None.
Proof.
  induction sorted as [|[dn t] rest IH]; intros i Hnotin; cbn; [reflexivity|].
  destruct (Z.eqb_spec dn d) as [-> |Hne].
  - exfalso. apply Hnotin. now left.
  - apply IH. intros H. apply Hnotin. now right.
Qed.

Lemma rankFrom_nth (sorted : list (Z * JS.number)) :
  NoDup (map fst sorted) ->
  forall i n d t,
    nth_error sorted n = Some (d, t) ->
    rankFrom i d sorted = Some (i + Z.of_nat n + 1).
Proof.
  induction sorted as [|[dn t0] rest IH]; intros Hnd i n d t Hn.
  - destruct n; discriminate.
  - inversion Hnd as [|? ? Hnotin Hnd']; subst. cbn [rankFrom].
    destruct n as [|n].
    + cbn in Hn. injection Hn as -> ->. rewrite Z.eqb_refl. f_equal. lia.
    + cbn in Hn. destruct (Z.eqb_spec dn d) as [-> |Hne].
      * exfalso. apply Hnotin. apply in_map_iff. exists (d, t). split; [reflexivity|].
        eapply nth_error_In; eauto.
      * rewrite (IH Hnd' (i + 1) n d t Hn). f_equal. lia.
Qed.

End PositionMap.


(** ** Position reconstruction: the table of one lap *)

Section Table.

Import RacePositionChart.

Lemma StronglySorted_app_inv {A} (R : A -> A -> Prop) (l1 l2 : list A) :
  StronglySorted R (l1 ++ l2) ->
  StronglySorted R l1 /\ StronglySorted R l2
  /\ forall x y, In x l1 -> In y l2 -> R x y.
Proof.
  induction l1 as [|a l1 IH]; cbn; intros Hs.
  - repeat split; [constructor|exact Hs|]. intros x y [].
  - inversion Hs as [|? ? Hs' Ha]; subst. destruct (IH Hs') as (H1 & H2 & H12).
    rewrite Forall_app in Ha. destruct Ha as [Ha1 Ha2]. repeat split.
    + now constructor.
    + exact H2.
    + intros x y [<-|Hx] Hy; [|auto]. rewrite Forall_forall in Ha2. auto.
Qed.

Lemma filter_le_prefix (pre rest : list Z) (k : Z) :
  StronglySorted Z.lt (pre ++ k :: rest) ->
  filter (fun n => n <=? k) (pre ++ k :: rest) = pre ++ [k].
Proof.
  intros Hs. apply StronglySorted_app_inv in Hs as (_ & Hk & Hpre).
  inversion Hk as [|? ? _ Hrest]; subst. rewrite Forall_forall in Hrest.
  rewrite filter_app. cbn [filter]. rewrite Z.leb_refl. f_equal.
  - apply forallb_filter_id. apply forallb_forall. intros x Hx.
    apply Z.leb_le. specialize (Hpre x k Hx (or_introl eq_refl)). lia.
  - f_equal. clear - Hrest. induction rest as [|y rest IH]; [reflexivity|].
    cbn [filter]. destruct (Z.leb_spec y k) as [Hle|_].
    + specialize (Hrest y (or_introl eq_refl)). lia.
    + apply IH. intros z Hz. apply Hrest. now right.
Qed.

(** The map of a round is the one obtained from the lap numbers up to it. *)
Lemma cumTrace_sorted (g : JS.Map.t (list GroupEntry)) (cum0 : JS.Map.t JS.number)
  (ks : list Z) :
  forall pre,
    StronglySorted Z.lt (pre ++ ks) ->
    cumTrace g ks (fold_left (fun c n => updateCumulativeTimes c (groupOf g n)) pre cum0)
    = map (fun k =>
             (k, fold_left (fun c n => updateCumulativeTimes c (groupOf g n))
                           (filter (fun n => n <=? k) (pre ++ ks)) cum0))
          ks.
Proof.
  induction ks as [|k rest IH]; intros pre Hs; cbn [cumTrace map]; [reflexivity|].
  rewrite (filter_le_prefix pre rest k Hs). rewrite fold_left_app. cbn [fold_left].
  f_equal.
  specialize (IH (pre ++ [k])). rewrite <- app_assoc in IH. cbn [app] in IH.
  rewrite fold_left_app in IH. cbn [fold_left] in IH. apply IH. exact Hs.
Qed.

(** After a run, a driver of the map holds the positions it had, followed
    by those of every round, in order. *)
Lemma run_get (g : JS.Map.t (list GroupEntry)) (ks : list Z) :
  forall cum pm d,
    JS.Map.get (snd (fold_left (processLap g) ks (cum, pm))) d
    = option_map
        (fun driverData =>
           mkDriverPositions (driverNumber driverData) (acronym driverData)
             (color driverData)
             (positions driverData
              ++ flat_map (fun kc => pushed (fst kc) 0 d (sortByTime (snd kc)))
                          (cumTrace g ks cum)))
        (JS.Map.get pm d).
Proof.
  induction ks as [|k rest IH]; intros cum pm d; cbn [fold_left cumTrace flat_map].
  - cbn. destruct (JS.Map.get pm d) as [[n a c p]|]; cbn; [|reflexivity].
    now rewrite app_nil_r.
  - unfold processLap at 2. fold (groupOf g k). rewrite IH, pushPositions_get'.
    destruct (JS.Map.get pm d) as [dd|]; cbn; [|reflexivity].
    now rewrite <- app_assoc.
Qed.

Lemma run_keys (g : JS.Map.t (list GroupEntry)) (ks : list Z) :
  forall cum pm,
    JS.Map.keys (snd (fold_left (processLap g) ks (cum, pm))) = JS.Map.keys pm.
Proof.
  induction ks as [|k rest IH]; intros cum pm; cbn [fold_left]; [reflexivity|].
  unfold processLap at 2. rewrite IH. apply pushPositions_keys.
Qed.

Lemma initPositionMap_fold (drivers : list Driver.t) :
  forall pm,
    (forall d dd, JS.Map.get pm d = Some dd -> driverNumber dd = d /\ positions dd = []) ->
    let pm' :=
      fold_left
        (fun positionMap driver =>
           JS.Map.set positionMap (Driver.driver_number driver)
             (mkDriverPositions (Driver.driver_number driver)
                (Driver.name_acronym driver)
                (String.append "#" (Driver.team_colour driver)) []))
        drivers pm in
    (forall d dd, JS.Map.get pm' d = Some dd -> driverNumber dd = d /\ positions dd = [])
    /\ JS.Map.keys pm' = fold_left addKey (map Driver.driver_number drivers) (JS.Map.keys pm).
Proof.
  induction drivers as [|driver drivers IH]; intros pm Hpm; cbn [fold_left map].
  - split; [exact Hpm|reflexivity].
  - cbv zeta.
    match goal with
    | |- context [fold_left _ drivers ?pm1] =>
        destruct (IH pm1) as [H1 H2]; [|split; [exact H1|]]
    end.
    + intros d dd. rewrite Map_get_set.
      destruct (Z.eqb_spec d (Driver.driver_number driver)) as [-> |Hne]; [|apply Hpm].
      intros [= <-]. split; reflexivity.
    + rewrite H2, Map_keys_set. reflexivity.
Qed.

Lemma initPositionMap_keys (drivers : list Driver.t) :
  JS.Map.keys (initPositionMap drivers)
  = firstOccurrences (map Driver.driver_number drivers).
Proof.
  unfold initPositionMap.
  destruct (initPositionMap_fold drivers JS.Map.empty) as [_ H]; [|exact H].
  intros d dd. discriminate.
Qed.

Lemma initPositionMap_get (drivers : list Driver.t) (d : Z) (dd : DriverPositions) :
  JS.Map.get (initPositionMap drivers) d = Some dd ->
  driverNumber dd = d /\ positions dd = [].
Proof.
  unfold initPositionMap.
  destruct (initPositionMap_fold drivers JS.Map.empty) as [H _]; [|apply H].
  intros d' dd'. discriminate.
Qed.

Lemma filter_pushed_same (L i d : Z) (sorted : list (Z * JS.number)) :
  filter (fun p => lap p =? L) (pushed L i d sorted) = pushed L i d sorted.
Proof.
  apply forallb_filter_id. apply forallb_forall. intros p Hp.
  apply Z.eqb_eq. eapply pushed_lap; eauto.
Qed.

Lemma filter_pushed_other (L k i d : Z) (sorted : list (Z * JS.number)) :
  k <> L -> filter (fun p => lap p =? L) (pushed k i d sorted) = [].
Proof.
  intros Hne. induction (pushed k i d sorted) as [|p l IH] eqn:E; [reflexivity|].
  assert (Hall : forall q, In q (p :: l) -> lap q = k).
  { intros q Hq. rewrite <- E in Hq. eapply pushed_lap; eauto. }
  clear E IH. induction (p :: l) as [|q l' IH]; [reflexivity|].
  cbn [filter]. rewrite (Hall q (or_introl eq_refl)).
  destruct (Z.eqb_spec k L); [contradiction|]. apply IH. intros; apply Hall. now right.
Qed.

Lemma filter_rounds (L d : Z) (F : Z -> list (Z * JS.number)) (ks : list Z) :
  NoDup ks ->
  filter (fun p => lap p =? L) (flat_map (fun k => pushed k 0 d (F k)) ks)
  = if existsb (Z.eqb L) ks then pushed L 0 d (F L) else [].
Proof.
  induction 1 as [|k ks Hk Hnd IH]; cbn [flat_map existsb]; [reflexivity|].
  rewrite filter_app, IH. destruct (Z.eqb_spec L k) as [-> |Hne]; cbn [orb].
  - rewrite filter_pushed_same.
    destruct (existsb (Z.eqb k) ks) eqn:E.
    + apply existsb_eqb_In in E. contradiction.
    + apply app_nil_r.
  - rewrite filter_pushed_other by congruence. reflexivity.
Qed.

Lemma StronglySorted_lt_NoDup (l : list Z) : StronglySorted Z.lt l -> NoDup l.
Proof.
  induction 1 as [|x l Hs IH Hx]; constructor; [|exact IH].
  intros Hin. rewrite Forall_forall in Hx. specialize (Hx x Hin). lia.
Qed.

(** The positions a roster driver holds at the end are, round by round,
    its places in the tables of the rounds. *)
Lemma finalState_get (drivers : list Driver.t) (laps : list Lap.t) (d : Z) :
  JS.Map.get (snd (finalState drivers laps)) d
  = option_map
      (fun driverData =>
         mkDriverPositions (driverNumber driverData) (acronym driverData)
           (color driverData)
           (flat_map (fun k => pushed k 0 d (sortByTime (cumulativeAfter laps k)))
                     (ascendingLapNumbers laps)))
      (JS.Map.get (initPositionMap drivers) d).
Proof.
  unfold finalState. rewrite run_get, sortedLapNumbers_ascending.
  pose proof (cumTrace_sorted (lapGroups laps) JS.Map.empty (ascendingLapNumbers laps) [])
    as Htrace.
  cbn [app fold_left] in Htrace. rewrite Htrace by apply ascendingLapNumbers_sorted.
  destruct (JS.Map.get (initPositionMap drivers) d) as [dd|] eqn:E; cbn [option_map];
    [|reflexivity].
  destruct (initPositionMap_get drivers d dd E) as [_ ->]. cbn [app].
  do 2 f_equal. rewrite flat_map_concat_map, map_map, <- flat_map_concat_map.
  apply flat_map_ext. intros k. cbn [fst snd]. now rewrite cumulativeAfter_fold.
Qed.

Lemma finalState_keys (drivers : list Driver.t) (laps : list Lap.t) :
  JS.Map.keys (snd (finalState drivers laps))
  = firstOccurrences (map Driver.driver_number drivers).
Proof. unfold finalState. now rewrite run_keys, initPositionMap_keys. Qed.

End Table.


(** ** Position reconstruction: the rows of the chart at one lap *)

Section Rows.

Import RacePositionChart.

Lemma sortByTime_perm (cum : JS.Map.t JS.number) : Permutation cum (sortByTime cum).
Proof. unfold sortByTime, JS.Map.entries. apply sort_perm. Qed.

Lemma sortByTime_keys_perm (cum : JS.Map.t JS.number) :
  Permutation (JS.Map.keys cum) (map fst (sortByTime cum)).
Proof. unfold JS.Map.keys. apply Permutation_map, sortByTime_perm. Qed.

Lemma cumulativeAfter_NoDup (laps : list Lap.t) (L : Z) :
  NoDup (JS.Map.keys (cumulativeAfter laps L)).
Proof. rewrite cumulativeAfter_keys. apply firstOccurrences_NoDup. Qed.

Lemma table_NoDup (laps : list Lap.t) (L : Z) :
  NoDup (map fst (sortByTime (cumulativeAfter laps L))).
Proof.
  eapply Permutation_NoDup; [apply sortByTime_keys_perm|apply cumulativeAfter_NoDup].
Qed.

Lemma table_In (laps : list Lap.t) (L d : Z) :
  In d (map fst (sortByTime (cumulativeAfter laps L))) <-> In d (firstValidOrder laps L).
Proof.
  rewrite <- cumulativeAfter_keys. split; intros H.
  - apply (Permutation_in _ (Permutation_sym (sortByTime_keys_perm _))). exact H.
  - apply (Permutation_in _ (sortByTime_keys_perm _)). exact H.
Qed.

Lemma table_length (laps : list Lap.t) (L : Z) :
  JS.length (sortByTime (cumulativeAfter laps L)) = JS.length (firstValidOrder laps L).
Proof.
  unfold JS.length. f_equal. rewrite <- cumulativeAfter_keys.
  rewrite <- (Permutation_length (sortByTime_perm _)).
  unfold JS.Map.keys. now rewrite length_map.
Qed.

Lemma processingOrder_In (laps : list Lap.t) (upTo : Z) (lap : Lap.t) :
  In lap (processingOrder laps upTo) <-> In lap laps /\ Lap.lap_number lap <= upTo.
Proof.
  unfold processingOrder. rewrite in_flat_map. split.
  - intros (n & Hn & Hlap). apply filter_In in Hn as [_ Hle].
    apply filter_In in Hlap as [Hin E]. apply Z.eqb_eq in E. apply Z.leb_le in Hle.
    split; [exact Hin|lia].
  - intros [Hin Hle]. exists (Lap.lap_number lap). split.
    + apply filter_In. split; [|now apply Z.leb_le].
      apply ascendingLapNumbers_In. now apply in_map.
    + apply filter_In. split; [exact Hin|apply Z.eqb_refl].
Qed.

Lemma firstValidOrder_In (laps : list Lap.t) (upTo d : Z) :
  In d (firstValidOrder laps upTo)
  <-> exists lap,
        In lap laps /\ Lap.driver_number lap = d
        /\ hasDuration lap = true /\ Lap.lap_number lap <= upTo.
Proof.
  unfold firstValidOrder. rewrite firstOccurrences_In, in_map_iff. split.
  - intros (lap & <- & Hlap). apply filter_In in Hlap as [Hin Hd].
    apply processingOrder_In in Hin as [Hin Hle]. exists lap. auto.
  - intros (lap & Hin & <- & Hd & Hle). exists lap. split; [reflexivity|].
    apply filter_In. split; [|exact Hd]. apply processingOrder_In. auto.
Qed.

Lemma flat_map_filter_irrelevant {A B} (f : A -> list B) (q : A -> bool) (l : list A) :
  (forall x, q x = false -> f x = []) ->
  flat_map f (filter q l) = flat_map f l.
Proof.
  intros H. induction l as [|x l IH]; cbn [filter flat_map]; [reflexivity|].
  destruct (q x) eqn:E; cbn [flat_map]; rewrite IH.
  - reflexivity.
  - now rewrite (H x E).
Qed.

Lemma flat_map_values {V B} (f : V -> list B) (g : Z -> list B) (m : JS.Map.t V) :
  (forall k v, In (k, v) m -> f v = g k) ->
  flat_map f (JS.Map.values m) = flat_map g (JS.Map.keys m).
Proof.
  unfold JS.Map.values, JS.Map.keys. induction m as [|[k v] m IH]; intros H; cbn;
    [reflexivity|].
  rewrite (H k v (or_introl eq_refl)), IH; [reflexivity|].
  intros k' v' Hin. apply H. now right.
Qed.

(** The positions a roster driver holds for lap [L] at the end. *)
Lemma finalState_positions_at (drivers : list Driver.t) (laps : list Lap.t)
  (d L : Z) (dd : DriverPositions) :
  JS.Map.get (snd (finalState drivers laps)) d = Some dd ->
  driverNumber dd = d
  /\ filter (fun p => lap p =? L) (positions dd)
     = if existsb (Z.eqb L) (ascendingLapNumbers laps)
       then match rankOf d (sortByTime (cumulativeAfter laps L)) with
            | Some p => [mkPositionData L p]
            | None => []
            end
       else [].
Proof.
  rewrite finalState_get.
  destruct (JS.Map.get (initPositionMap drivers) d) as [dd0|] eqn:E; [|discriminate].
  cbn [option_map]. intros [= <-]. cbn [driverNumber positions].
  split; [apply (initPositionMap_get drivers d dd0 E)|].
  rewrite (filter_rounds L d (fun k => sortByTime (cumulativeAfter laps k))).
  - destruct (existsb _ _); [|reflexivity].
    apply pushed_rank, table_NoDup.
  - apply StronglySorted_lt_NoDup, ascendingLapNumbers_sorted.
Qed.

(** The rows of the chart at a lap number that occurs in the records: one
    row per roster driver that is in the table of that lap, with its rank. *)
Lemma entriesAt_rows (drivers : list Driver.t) (laps : list Lap.t) (L : Z) :
  In L (map Lap.lap_number laps) ->
  entriesAt L (driverPositions drivers laps)
  = flat_map (rowOf (sortByTime (cumulativeAfter laps L)))
             (firstOccurrences (map Driver.driver_number drivers)).
Proof.
  intros HL. unfold entriesAt, driverPositions.
  rewrite flat_map_filter_irrelevant.
  - rewrite <- (finalState_keys drivers laps). apply flat_map_values.
    intros k v Hin. apply Map_In_get in Hin.
    + destruct (finalState_positions_at drivers laps k L v Hin) as [-> ->].
      assert (E : existsb (Z.eqb L) (ascendingLapNumbers laps) = true).
      { apply existsb_eqb_In, ascendingLapNumbers_In, HL. }
      rewrite E. unfold rowOf. destruct (rankOf _ _); reflexivity.
    + rewrite finalState_keys. apply firstOccurrences_NoDup.
  - intros x Hx. unfold JS.length in Hx.
    destruct (positions x); [reflexivity|]. cbn in Hx. discriminate.
Qed.

Lemma rowOf_In (sorted : list (Z * JS.number)) (d : Z) (row : Z * Z) :
  In row (rowOf sorted d) <-> fst row = d /\ rankOf d sorted = Some (snd row).
Proof.
  unfold rowOf. destruct (rankOf d sorted) as [p|]; cbn.
  - split.
    + intros [<-|[]]. auto.
    + intros [H1 [= H2]]. left. destruct row; cbn in *; congruence.
  - split; [tauto|]. intros [_ H]. discriminate.
Qed.

Lemma rows_In (sorted : list (Z * JS.number)) (roster : list Z) (row : Z * Z) :
  In row (flat_map (rowOf sorted) roster)
  <-> In (fst row) roster /\ rankOf (fst row) sorted = Some (snd row).
Proof.
  rewrite in_flat_map. split.
  - intros (d & Hd & Hrow). apply rowOf_In in Hrow as [<- Hr]. auto.
  - intros [Hd Hr]. exists (fst row). split; [exact Hd|]. apply rowOf_In. auto.
Qed.

Lemma rows_fst_NoDup (sorted : list (Z * JS.number)) (roster : list Z) :
  NoDup roster -> NoDup (map fst (flat_map (rowOf sorted) roster)).
Proof.
  induction 1 as [|d roster Hd Hnd IH]; cbn; [constructor|].
  rewrite map_app. unfold rowOf at 1. destruct (rankOf d sorted); cbn; [|exact IH].
  constructor; [|exact IH]. intros Hin. apply in_map_iff in Hin as (row & E & Hrow).
  apply rows_In in Hrow as [Hr _]. congruence.
Qed.

Lemma rankOf_inj (sorted : list (Z * JS.number)) (d1 d2 p : Z) :
  rankOf d1 sorted = Some p -> rankOf d2 sorted = Some p -> d1 = d2.
Proof.
  unfold rankOf. intros H1 H2.
  apply rankFrom_Some in H1 as [_ [t1 H1]]. apply rankFrom_Some in H2 as [_ [t2 H2]].
  congruence.
Qed.

Lemma rows_snd_NoDup (sorted : list (Z * JS.number)) (roster : list Z) :
  NoDup roster -> NoDup (map snd (flat_map (rowOf sorted) roster)).
Proof.
  induction 1 as [|d roster Hd Hnd IH]; cbn; [constructor|].
  rewrite map_app. unfold rowOf at 1. destruct (rankOf d sorted) as [p|] eqn:E; cbn;
    [|exact IH].
  constructor; [|exact IH]. intros Hin. apply in_map_iff in Hin as (row & Ep & Hrow).
  apply rows_In in Hrow as [Hr Hrank]. rewrite Ep in Hrank.
  apply Hd. now rewrite (rankOf_inj sorted d (fst row) p E Hrank).
Qed.

Lemma oneTo_In (K p : Z) : In p (oneTo K) <-> 1 <= p <= K.
Proof.
  unfold oneTo. rewrite in_map_iff. split.
  - intros (n & <- & Hn). apply in_seq in Hn. lia.
  - intros Hp. exists (Z.to_nat p). split; [lia|]. apply in_seq. lia.
Qed.

Lemma oneTo_NoDup (K : Z) : NoDup (oneTo K).
Proof.
  unfold oneTo. apply Finite.Injective_map_NoDup; [|apply seq_NoDup].
  intros a b. apply Nat2Z.inj.
Qed.

End Rows.


(** ** Position reconstruction: the results *)

Section PositionClaims.

Import RacePositionChart.

(** C2 (amended).  After the round of any lap number, the cumulative total
    of a driver is the sum, in processing order, of the durations of that
    driver's records that have a duration: a record with
    [lap_duration = null] is never added, and [is_pit_out_lap] is not
    consulted, so a pit-out lap with a duration is added like any other. *)
Theorem cumulative_totals (drivers : list Driver.t) (laps : list Lap.t) (L d : Z) :
  JS.Map.get (fst (stateAfter drivers laps L)) d
  = accumulate None (durationsOf d (processingOrder laps L)).
Proof. rewrite stateAfter_fst. apply cumulativeAfter_get. Qed.

Lemma float_neq (x y : JS.number) :
  FloatOps.Prim2SF x <> FloatOps.Prim2SF y -> Some x <> Some y.
Proof. intros H [= E]. apply H. now rewrite E. Qed.

(** C2 as worded fails on a pit-out lap with a duration: the 95 seconds of
    driver 44's pit-out lap are in the total (185, not 90), which costs the
    driver the lead at lap 2. *)
Lemma pit_out_lap_counted_counterexample :
  let laps := RaceFixtures.pitOutLaps in
  let valid lap := hasDuration lap && negb (Lap.is_pit_out_lap lap) in
  JS.Map.get (fst (finalState Fixtures.bothDrivers laps)) 44 = Some 185%float
  /\ JS.Map.get (fst (finalState Fixtures.bothDrivers (filter valid laps))) 44
     = Some 90%float
  /\ JS.Map.get (fst (finalState Fixtures.bothDrivers laps)) 44
     <> JS.Map.get (fst (finalState Fixtures.bothDrivers (filter valid laps))) 44
  /\ entriesAt 2 (driverPositions Fixtures.bothDrivers laps) = [(1, 1); (44, 2)].
Proof.
  cbv zeta. assert (H1 : JS.Map.get (fst (finalState Fixtures.bothDrivers
                                            RaceFixtures.pitOutLaps)) 44
                         = Some 185%float) by (vm_compute; reflexivity).
  assert (H2 : JS.Map.get
                 (fst (finalState Fixtures.bothDrivers
                         (filter (fun lap => hasDuration lap
                                             && negb (Lap.is_pit_out_lap lap))
                                 RaceFixtures.pitOutLaps))) 44
               = Some 90%float) by (vm_compute; reflexivity).
  split; [exact H1|]. split; [exact H2|]. split.
  - rewrite H1, H2. apply float_neq. vm_compute. discriminate.
  - vm_compute. reflexivity.
Qed.









(** On the missing-lap records driver 44 keeps the total 79 at lap 5 and
    stays first. *)
Example missing_lap_rows :
  JS.Map.get (fst (stateAfter Fixtures.bothDrivers RaceFixtures.missingLap 4)) 44
  = Some 79%float
  /\ JS.Map.get (fst (stateAfter Fixtures.bothDrivers RaceFixtures.missingLap 5)) 44
     = Some 79%float
  /\ entriesAt 5 (driverPositions Fixtures.bothDrivers RaceFixtures.missingLap)
     = [(1, 2); (44, 1)].
Proof. repeat split; vm_compute; reflexivity. Qed.

End PositionClaims.


Section PositionClaims2.

Import RacePositionChart.

(** C9 (amended).  At a lap number that occurs in the records, with [K] the
    number of drivers that have a timed lap so far: no driver has two
    rows, no position is given twice, and every position lies in
    [1..K]; a driver appears in the chart only if one of its records has
    a duration.  The positions are exactly [1..K] when every driver with
    a timed lap so far is in the roster: a driver outside the roster
    takes a rank but gets no row. *)
Theorem positions_at_lap (drivers : list Driver.t) (laps : list Lap.t) (L : Z) :
  In L (map Lap.lap_number laps) ->
  let rows := entriesAt L (driverPositions drivers laps) in
  let K := JS.length (firstValidOrder laps L) in
  NoDup (firstValidOrder laps L)
  /\ (forall d, In d (firstValidOrder laps L)
                <-> exists lap, In lap laps /\ Lap.driver_number lap = d
                                /\ hasDuration lap = true /\ Lap.lap_number lap <= L)
  /\ NoDup (map fst rows)
  /\ NoDup (map snd rows)
  /\ (forall p, In p (map snd rows) -> 1 <= p <= K)
  /\ ((forall d, In d (firstValidOrder laps L) ->
                 In d (map Driver.driver_number drivers)) ->
      Permutation (map snd rows) (oneTo K))
  /\ (forall dp, In dp (driverPositions drivers laps) ->
                 exists lap, In lap laps /\ Lap.driver_number lap = driverNumber dp
                             /\ hasDuration lap = true).
Proof.
  intros HL rows K. subst rows K. rewrite (entriesAt_rows drivers laps L HL).
  set (sorted := sortByTime (cumulativeAfter laps L)).
  set (roster := firstOccurrences (map Driver.driver_number drivers)).
  assert (Hroster : NoDup roster) by apply firstOccurrences_NoDup.
  assert (Hrange : forall p, In p (map snd (flat_map (rowOf sorted) roster)) ->
                             1 <= p <= JS.length (firstValidOrder laps L)).
  { intros p Hp. apply in_map_iff in Hp as (row & <- & Hrow).
    apply rows_In in Hrow as [_ Hrank]. apply rankFrom_Some in Hrank as [Hr _].
    subst sorted. rewrite table_length in Hr. lia. }
  split; [apply firstOccurrences_NoDup|].
  split; [apply firstValidOrder_In|].
  split; [now apply rows_fst_NoDup|].
  split; [now apply rows_snd_NoDup|].
  split; [exact Hrange|]. split.
  - intros Hcover. apply NoDup_Permutation; [now apply rows_snd_NoDup|apply oneTo_NoDup|].
    intros p. rewrite oneTo_In. split; [apply Hrange|]. intros Hp.
    rewrite <- table_length in Hp. fold sorted in Hp.
    destruct (nth_error sorted (Z.to_nat (p - 1))) as [[d t]|] eqn:E.
    + apply in_map_iff. exists (d, p). split; [reflexivity|]. apply rows_In.
      cbn [fst snd]. split.
      * apply firstOccurrences_In, Hcover, table_In. fold sorted.
        apply in_map_iff. exists (d, t). split; [reflexivity|].
        eapply nth_error_In; eauto.
      * unfold rankOf. rewrite (rankFrom_nth sorted (table_NoDup laps L) 0 _ d t E).
        f_equal. lia.
    + apply nth_error_None in E. unfold JS.length in Hp. lia.
  - intros dp Hdp. unfold driverPositions in Hdp. apply filter_In in Hdp as [Hin Hpos].
    unfold JS.Map.values in Hin. apply in_map_iff in Hin as ([d dd] & <- & Hin).
    cbn [snd] in *. apply Map_In_get in Hin;
      [|rewrite finalState_keys; apply firstOccurrences_NoDup].
    destruct (positions dd) as [|p0 ps] eqn:Epos; [discriminate|].
    destruct (finalState_positions_at drivers laps d (lap p0) dd Hin) as [Hnum Hfilter].
    rewrite Epos in Hfilter. cbn [filter] in Hfilter. rewrite Z.eqb_refl in Hfilter.
    destruct (existsb _ _); [|discriminate].
    destruct (rankOf d _) as [p|] eqn:Erank; [|discriminate].
    assert (Hd : In d (firstValidOrder laps (lap p0))).
    { apply table_In. destruct (In_dec Z.eq_dec d
                                  (map fst (sortByTime (cumulativeAfter laps (lap p0)))))
        as [Hyes|Hno]; [exact Hyes|].
      unfold rankOf in Erank. rewrite (rankFrom_None _ _ 0 Hno) in Erank. discriminate. }
    apply firstValidOrder_In in Hd as (lap & Hlap & Hdn & Hdur & _).
    exists lap. rewrite Hnum. auto.
Qed.

Lemma positions_at_lap_witness :
  Permutation
    (map snd (entriesAt 3 (driverPositions Fixtures.bothDrivers RaceFixtures.tiedLaps)))
    (oneTo 2).
Proof.
  destruct (positions_at_lap Fixtures.bothDrivers RaceFixtures.tiedLaps 3)
    as (_ & _ & _ & _ & _ & Hperm & _).
  - do 4 right. left. reflexivity.
  - apply Hperm. intros d Hd. cbn in Hd. cbn.
    destruct Hd as [<-|[<-|[]]]; auto.
Defined.

(** C9 as worded fails when a record carries a driver number that is not
    in the roster: with only driver 44 in the roster, two drivers have a
    timed lap at lap 1, yet the only position given is 2. *)
Lemma positions_gap_counterexample :
  let rows := entriesAt 1 (driverPositions [Fixtures.hamilton] RaceFixtures.tiedLaps) in
  In 1 (map Lap.lap_number RaceFixtures.tiedLaps)
  /\ firstValidOrder RaceFixtures.tiedLaps 1 = [1; 44]
  /\ rows = [(44, 2)]
  /\ ~ Permutation (map snd rows) (oneTo 2).
Proof.
  cbv zeta. split; [left; reflexivity|]. split; [reflexivity|].
  assert (E : entriesAt 1 (driverPositions [Fixtures.hamilton] RaceFixtures.tiedLaps)
              = [(44, 2)]) by (vm_compute; reflexivity).
  split; [exact E|]. rewrite E. intros H. apply Permutation_length in H. discriminate.
Qed.

Lemma Before_In {A} (x y : A) (l : list A) : Before x y l -> In x l /\ In y l.
Proof.
  induction 1 as [l Hy|z l Hb [Hx Hy]]; split; cbn; auto.
Qed.

Lemma Before_rank (s : list (Z * JS.number)) (a b : Z) (ta tb : JS.number) :
  NoDup (map fst s) ->
  Before (a, ta) (b, tb) s ->
  forall i, exists pa pb,
    rankFrom i a s = Some pa /\ rankFrom i b s = Some pb /\ pa < pb.
Proof.
  intros Hnd Hb. induction Hb as [l Hy|[dz tz] l Hb IH]; intros i.
  - inversion Hnd as [|? ? Hnotin Hnd']; subst. cbn [rankFrom fst].
    rewrite Z.eqb_refl.
    assert (Hbl : In b (map fst l)) by (apply in_map_iff; exists (b, tb); auto).
    destruct (Z.eqb_spec a b) as [-> |Hne]; [contradiction|].
    destruct (rankFrom_In b l (i + 1) Hbl) as [pb Hpb].
    exists (i + 1), pb. repeat split; auto.
    apply rankFrom_Some in Hpb as [Hr _]. lia.
  - inversion Hnd as [|? ? Hnotin Hnd']; subst. cbn [rankFrom].
    destruct (Before_In _ _ _ Hb) as [Hal Hbl].
    assert (Ha : In a (map fst l)) by (apply in_map_iff; exists (a, ta); auto).
    assert (Hb' : In b (map fst l)) by (apply in_map_iff; exists (b, tb); auto).
    cbn [fst] in Hnotin.
    destruct (Z.eqb_spec dz a) as [-> |_]; [contradiction|].
    destruct (Z.eqb_spec dz b) as [-> |_]; [contradiction|].
    apply (IH Hnd').
Qed.

(** C10.  The table of a lap depends only on the records, and ties are
    broken by insertion order: when the comparator [a[1] - b[1]] is zero
    for two drivers (equal totals), the driver that recorded a timed lap
    first, in processing order, has the lower position; both rows are in
    the chart when the drivers are in the roster. *)
Theorem tie_keeps_first_timed_order
  (drivers : list Driver.t) (laps : list Lap.t) (L a b : Z) (ta tb : JS.number)
  (i j : nat) :
  nth_error (firstValidOrder laps L) i = Some a ->
  nth_error (firstValidOrder laps L) j = Some b ->
  (i < j)%nat ->
  JS.Map.get (fst (stateAfter drivers laps L)) a = Some ta ->
  JS.Map.get (fst (stateAfter drivers laps L)) b = Some tb ->
  JS.sign (PrimFloat.sub ta tb) = Eq ->
  JS.Map.keys (fst (stateAfter drivers laps L)) = firstValidOrder laps L
  /\ exists pa pb,
       rankOf a (sortByTime (fst (stateAfter drivers laps L))) = Some pa
       /\ rankOf b (sortByTime (fst (stateAfter drivers laps L))) = Some pb
       /\ pa < pb
       /\ (In L (map Lap.lap_number laps) ->
           In a (map Driver.driver_number drivers) ->
           In b (map Driver.driver_number drivers) ->
           In (a, pa) (entriesAt L (driverPositions drivers laps))
           /\ In (b, pb) (entriesAt L (driverPositions drivers laps))).
Proof.
  rewrite stateAfter_fst. intros Hi Hj Hij Hta Htb Htie.
  split; [apply cumulativeAfter_keys|].
  set (cum := cumulativeAfter laps L) in *.
  assert (Hnd : NoDup (JS.Map.keys cum)) by apply cumulativeAfter_NoDup.
  assert (Hentry : forall n d t, nth_error (firstValidOrder laps L) n = Some d ->
                                 JS.Map.get cum d = Some t ->
                                 nth_error cum n = Some (d, t)).
  { intros n d t Hn Hget. rewrite <- cumulativeAfter_keys in Hn. fold cum in Hn.
    unfold JS.Map.keys in Hn. rewrite nth_error_map in Hn.
    destruct (nth_error cum n) as [[d' t']|] eqn:E; [|discriminate].
    cbn in Hn. injection Hn as ->.
    apply nth_error_In, (Map_In_get cum d t' Hnd) in E. congruence. }
  assert (Hbefore : Before (a, ta) (b, tb) (sortByTime cum)).
  { unfold sortByTime, JS.Map.entries. apply sort_stable.
    - apply (Before_nth cum i j); auto.
    - cbn [snd]. rewrite Htie. discriminate. }
  destruct (Before_rank _ a b ta tb (table_NoDup laps L) Hbefore 0)
    as (pa & pb & Hpa & Hpb & Hlt).
  exists pa, pb. repeat split; auto.
  - rewrite (entriesAt_rows drivers laps L H). apply rows_In. cbn [fst snd].
    split; [now apply firstOccurrences_In|exact Hpa].
  - rewrite (entriesAt_rows drivers laps L H). apply rows_In. cbn [fst snd].
    split; [now apply firstOccurrences_In|exact Hpb].
Qed.

Lemma tie_keeps_first_timed_order_witness :
  exists pa pb,
    rankOf 1 (sortByTime (fst (stateAfter Fixtures.bothDrivers
                                 RaceFixtures.tiedLaps 3))) = Some pa
    /\ rankOf 44 (sortByTime (fst (stateAfter Fixtures.bothDrivers
                                     RaceFixtures.tiedLaps 3))) = Some pb
    /\ pa < pb.
Proof.
  destruct (tie_keeps_first_timed_order Fixtures.bothDrivers RaceFixtures.tiedLaps 3
              1 44 180%float 180%float 0 1)
    as (_ & pa & pb & Hpa & Hpb & Hlt & _).
  - reflexivity.
  - reflexivity.
  - lia.
  - vm_compute. reflexivity.
  - vm_compute. reflexivity.
  - vm_compute. reflexivity.
  - exists pa, pb. auto.
Defined.

(** The chart of the tied records: driver 44 leads at lap 2 (120 against
    121); at lap 3 both totals are 180 and driver 1, first in the records
    of lap 1, is placed first. *)
Example tied_laps_chart :
  entriesAt 2 (driverPositions Fixtures.bothDrivers RaceFixtures.tiedLaps)
  = [(1, 2); (44, 1)]
  /\ entriesAt 3 (driverPositions Fixtures.bothDrivers RaceFixtures.tiedLaps)
     = [(1, 1); (44, 2)].
Proof. split; vm_compute; reflexivity. Qed.

End PositionClaims2.


(** ** Kinematics: what the extraction guarantees on every window *)

Section KinematicsFacts.

Import CornerAnalysis.

(** From a held minimum [m], the search ends with the first sample that is
    lower than everything before it and not higher than anything after. *)
Lemma apex_fold_first_min (l : list CarData.t) :
  forall i0 mi m,
    exists k mk,
      fold_left apexStep (JS.indexed_from i0 l) (mi, Finite m) = (k, Finite mk)
      /\ (forall d, In d l -> mk <= CarData.speed d)
      /\ ((k = mi /\ mk = m)
          \/ (exists n dk,
                 nth_error l n = Some dk /\ k = i0 + Z.of_nat n
                 /\ CarData.speed dk = mk /\ mk < m
                 /\ forall j d, (j < n)%nat -> nth_error l j = Some d ->
                                mk < CarData.speed d)).
Proof.
  induction l as [|x r IH]; intros i0 mi m.
  - exists mi, m. cbn. split; [reflexivity|]. split; [tauto|]. now left.
  - cbn [JS.indexed_from fold_left apexStep below].
    destruct (Z.ltb_spec (CarData.speed x) m) as [Hlt|Hge].
    + destruct (IH (i0 + 1) i0 (CarData.speed x)) as (k & mk & Hrun & Hall & Hcase).
      exists k, mk. split; [exact Hrun|].
      assert (Hmk : mk <= CarData.speed x).
      { destruct Hcase as [[_ ->]|(n & dk & _ & _ & _ & Hlt' & _)]; lia. }
      split.
      * intros d [<-|Hd]; [exact Hmk|auto].
      * right. destruct Hcase as [[-> ->]|(n & dk & Hn & -> & Hs & Hlt' & Hbefore)].
        -- exists 0%nat, x. cbn. repeat split; try lia.
        -- exists (S n), dk. cbn [nth_error]. repeat split; try lia; auto.
           intros [|j] d Hj Hd; cbn in Hd.
           ++ injection Hd as <-. lia.
           ++ apply (Hbefore j d); [lia|exact Hd].
    + destruct (IH (i0 + 1) mi m) as (k & mk & Hrun & Hall & Hcase).
      exists k, mk. split; [exact Hrun|].
      assert (Hmk : mk <= m).
      { destruct Hcase as [[_ ->]|(n & dk & _ & _ & _ & Hlt' & _)]; lia. }
      split.
      * intros d [<-|Hd]; [lia|auto].
      * destruct Hcase as [[-> ->]|(n & dk & Hn & -> & Hs & Hlt' & Hbefore)];
          [now left|right].
        exists (S n), dk. cbn [nth_error]. repeat split; try lia; auto.
        intros [|j] d Hj Hd; cbn in Hd.
        -- injection Hd as <-. lia.
        -- apply (Hbefore j d); [lia|exact Hd].
Qed.

(** X1.  The apex of a non-empty window is its first slowest sample: no
    sample is slower, and every sample before it is strictly faster. *)
Theorem apex_is_first_minimum (w : list CarData.t) :
  w <> [] ->
  exists k dk,
    findApex w = (k, Finite (CarData.speed dk))
    /\ JS.get w k = Some dk
    /\ (forall i d, JS.get w i = Some d -> CarData.speed dk <= CarData.speed d)
    /\ (forall i d, JS.get w i = Some d -> i < k -> CarData.speed dk < CarData.speed d).
Proof.
  destruct w as [|x r]; [contradiction|]. intros _.
  unfold findApex, JS.indexed.
  change (fold_left _ (JS.indexed_from 0 (x :: r)) (0, Infinity))
    with (fold_left apexStep (JS.indexed_from (0 + 1) r) (0, Finite (CarData.speed x))).
  destruct (apex_fold_first_min r (0 + 1) 0 (CarData.speed x))
    as (k & mk & Hrun & Hall & Hcase).
  rewrite Hrun.
  destruct Hcase as [[-> ->]|(n & dk & Hn & -> & Hs & Hlt & Hbefore)].
  - exists 0, x. repeat split.
    + intros i d Hget. unfold JS.get in Hget.
      destruct (Z.ltb_spec i 0); [discriminate|].
      apply nth_error_In in Hget as [<-|Hd]; [lia|auto].
    + intros i d Hget Hi. apply JS_get_Some_range in Hget. lia.
  - exists (0 + 1 + Z.of_nat n), dk. rewrite <- Hs. repeat split.
    + rewrite JS_get_cons by lia. unfold JS.get.
      destruct (Z.ltb_spec (0 + 1 + Z.of_nat n - 1) 0); [lia|].
      replace (Z.to_nat (0 + 1 + Z.of_nat n - 1)) with n by lia. exact Hn.
    + intros i d Hget. unfold JS.get in Hget.
      destruct (Z.ltb_spec i 0); [discriminate|].
      apply nth_error_In in Hget as [<-|Hd]; [lia|]. rewrite Hs. auto.
    + intros i d Hget Hi. pose proof (JS_get_Some_range _ _ _ Hget) as Hr.
      destruct (Z.eq_dec i 0) as [-> |Hne].
      * cbn in Hget. injection Hget as <-. lia.
      * rewrite JS_get_cons in Hget by lia. unfold JS.get in Hget.
        destruct (Z.ltb_spec (i - 1) 0); [lia|]. rewrite Hs.
        apply (Hbefore (Z.to_nat (i - 1)) d); [lia|exact Hget].
Qed.

Lemma apex_is_first_minimum_witness :
  exists k dk,
    findApex Fixtures.coastingWindow = (k, Finite (CarData.speed dk))
    /\ JS.get Fixtures.coastingWindow k = Some dk
    /\ (forall i d, JS.get Fixtures.coastingWindow i = Some d ->
                    CarData.speed dk <= CarData.speed d)
    /\ (forall i d, JS.get Fixtures.coastingWindow i = Some d -> i < k ->
                    CarData.speed dk < CarData.speed d).
Proof. apply (apex_is_first_minimum Fixtures.coastingWindow). discriminate. Defined.

(** What a threshold scan returns: the first index in [[i, to)] that
    passes the test, or the initial value when none does. *)
Lemma scan_spec (test : CarData.t -> bool) (rest : list CarData.t) :
  forall i to init,
    (scan test rest i to init = init
     /\ forall j d, i <= j < to -> nth_error rest (Z.to_nat (j - i)) = Some d ->
                    test d = false)
    \/ (exists j d,
           scan test rest i to init = j /\ i <= j < to
           /\ nth_error rest (Z.to_nat (j - i)) = Some d /\ test d = true
           /\ forall j' d', i <= j' < j ->
                            nth_error rest (Z.to_nat (j' - i)) = Some d' ->
                            test d' = false).
Proof.
  induction rest as [|x r IH]; intros i to init.
  - left. split; [reflexivity|]. intros j d _ H. destruct (Z.to_nat (j - i)); discriminate.
  - cbn [scan]. destruct (Z.ltb_spec i to) as [Hlt|Hge].
    + destruct (test x) eqn:Ex.
      * right. exists i, x. rewrite Z.sub_diag.
        repeat split; auto; try lia; intros j' d' Hj'; lia.
      * destruct (IH (i + 1) to init) as [[Hrun Hnone]|(j & d & Hrun & Hj & Hd & Ht & Hbefore)].
        -- left. split; [exact Hrun|]. intros j d Hj Hd.
           destruct (Z.eq_dec j i) as [-> |Hne].
           ++ rewrite Z.sub_diag in Hd. cbn in Hd. now injection Hd as <-.
           ++ apply (Hnone j d); [lia|].
              replace (Z.to_nat (j - i)) with (S (Z.to_nat (j - (i + 1)))) in Hd by lia.
              exact Hd.
        -- right. exists j, d. split; [exact Hrun|]. split; [lia|]. split.
           ++ replace (Z.to_nat (j - i)) with (S (Z.to_nat (j - (i + 1)))) by lia.
              exact Hd.
           ++ split; [exact Ht|]. intros j' d' Hj' Hd'.
              destruct (Z.eq_dec j' i) as [-> |Hne].
              ** rewrite Z.sub_diag in Hd'. cbn in Hd'. now injection Hd' as <-.
              ** apply (Hbefore j' d'); [lia|].
                 replace (Z.to_nat (j' - i)) with (S (Z.to_nat (j' - (i + 1)))) in Hd' by lia.
                 exact Hd'.
    + left. split; [reflexivity|]. intros j d Hj. lia.
Qed.

Lemma scan_range (test : CarData.t -> bool) (rest : list CarData.t) (i to init : Z) :
  scan test rest i to init = init \/ i <= scan test rest i to init < to.
Proof.
  destruct (scan_spec test rest i to init) as [[H _]|(j & d & H & Hj & _)];
    [now left|right; lia].
Qed.

(** X2.  The braking point is the first sample before the apex with
    [brake > 10]; without one it is the window start. *)
Theorem braking_point_is_first_crossing (w : list CarData.t) :
  let apex := fst (findApex w) in
  let b := brakingStartIdx w apex in
  (b = 0 /\ forall i d, 0 <= i < apex -> JS.get w i = Some d -> CarData.brake d <= 10)
  \/ (0 <= b < apex
      /\ (exists d, JS.get w b = Some d /\ 10 < CarData.brake d)
      /\ forall i d, 0 <= i < b -> JS.get w i = Some d -> CarData.brake d <= 10).
Proof.
  cbv zeta. unfold brakingStartIdx.
  destruct (scan_spec (fun data => CarData.brake data >? 10) w 0 (fst (findApex w)) 0)
    as [[Hrun Hnone]|(j & d & Hrun & Hj & Hd & Ht & Hbefore)].
  - left. split; [exact Hrun|]. intros i d Hi Hget.
    specialize (Hnone i d Hi). rewrite Z.sub_0_r, nth_error_JS_get in Hnone by lia.
    specialize (Hnone Hget). destruct (Z.gtb_spec (CarData.brake d) 10); [discriminate|lia].
  - right. rewrite Hrun. rewrite Z.sub_0_r, nth_error_JS_get in Hd by lia.
    split; [exact Hj|]. split.
    + exists d. split; [exact Hd|]. apply Z.gtb_lt in Ht. lia.
    + intros i d' Hi Hget. specialize (Hbefore i d' ltac:(lia)).
      rewrite Z.sub_0_r, nth_error_JS_get in Hbefore by lia. specialize (Hbefore Hget).
      destruct (Z.gtb_spec (CarData.brake d') 10); [discriminate|lia].
Qed.

(** X3.  The throttle-on point is the first sample from the apex on with
    [throttle > 50]; without one it is the apex itself, and the reported
    throttle-on distance is 0. *)
Theorem throttle_point_is_first_crossing (driver : Driver.t) (w : list CarData.t) :
  let apex := fst (findApex w) in
  let t := throttleOnIdx w apex in
  (t = apex
   /\ throttleOnDistance (analyzeWindow driver w) = 0
   /\ forall i d, apex <= i -> JS.get w i = Some d -> CarData.throttle d <= 50)
  \/ (apex <= t < JS.length w
      /\ throttleOnDistance (analyzeWindow driver w) = (t - apex) * metersPerSample
      /\ (exists d, JS.get w t = Some d /\ 50 < CarData.throttle d)
      /\ forall i d, apex <= i < t -> JS.get w i = Some d -> CarData.throttle d <= 50).
Proof.
  cbv zeta. pose proof (findApex_range w) as Hrange.
  assert (Hdist : throttleOnDistance (analyzeWindow driver w)
                  = (throttleOnIdx w (fst (findApex w)) - fst (findApex w))
                    * metersPerSample).
  { unfold analyzeWindow. destruct (findApex w) as [a m]. reflexivity. }
  rewrite Hdist. unfold throttleOnIdx.
  set (apex := fst (findApex w)) in *.
  destruct (scan_spec (fun data => CarData.throttle data >? 50)
              (skipn (Z.to_nat apex) w) apex (JS.length w) apex)
    as [[Hrun Hnone]|(j & d & Hrun & Hj & Hd & Ht & Hbefore)].
  - left. rewrite Hrun. split; [reflexivity|]. split; [lia|].
    intros i d Hi Hget. pose proof (JS_get_Some_range _ _ _ Hget) as Hr.
    specialize (Hnone i d ltac:(lia)).
    rewrite nth_error_skipn_JS_get in Hnone by lia. specialize (Hnone Hget).
    destruct (Z.gtb_spec (CarData.throttle d) 50); [discriminate|lia].
  - right. rewrite Hrun. rewrite nth_error_skipn_JS_get in Hd by lia.
    split; [exact Hj|]. split; [reflexivity|]. split.
    + exists d. split; [exact Hd|]. apply Z.gtb_lt in Ht. lia.
    + intros i d' Hi Hget. specialize (Hbefore i d' ltac:(lia)).
      rewrite nth_error_skipn_JS_get in Hbefore by lia. specialize (Hbefore Hget).
      destruct (Z.gtb_spec (CarData.throttle d') 50); [discriminate|lia].
Qed.

(** X4.  On every window the three indices are ordered,
    [0 <= brakingStartIdx <= minSpeedIdx <= throttleOnIdx], the throttle-on
    index stays inside a non-empty window, and both reported distances are
    non-negative multiples of [metersPerSample]. *)
Theorem kinematics_indices_ordered (driver : Driver.t) (w : list CarData.t) :
  let apex := fst (findApex w) in
  let b := brakingStartIdx w apex in
  let t := throttleOnIdx w apex in
  0 <= b <= apex
  /\ apex <= t <= Z.max 0 (JS.length w - 1)
  /\ brakingDistance (analyzeWindow driver w) = (apex - b) * metersPerSample
  /\ throttleOnDistance (analyzeWindow driver w) = (t - apex) * metersPerSample
  /\ 0 <= brakingDistance (analyzeWindow driver w)
  /\ 0 <= throttleOnDistance (analyzeWindow driver w).
Proof.
  cbv zeta. pose proof (findApex_range w) as Hrange.
  assert (Hb : 0 <= brakingStartIdx w (fst (findApex w)) <= fst (findApex w)).
  { unfold brakingStartIdx.
    destruct (scan_range (fun data => CarData.brake data >? 10) w 0
                (fst (findApex w)) 0) as [-> |H]; lia. }
  assert (Ht : fst (findApex w) <= throttleOnIdx w (fst (findApex w))
               <= Z.max 0 (JS.length w - 1)).
  { unfold throttleOnIdx.
    destruct (scan_range (fun data => CarData.throttle data >? 50)
                (skipn (Z.to_nat (fst (findApex w))) w) (fst (findApex w))
                (JS.length w) (fst (findApex w))) as [-> |H]; lia. }
  assert (Hd : brakingDistance (analyzeWindow driver w)
               = (fst (findApex w) - brakingStartIdx w (fst (findApex w)))
                 * metersPerSample
               /\ throttleOnDistance (analyzeWindow driver w)
                  = (throttleOnIdx w (fst (findApex w)) - fst (findApex w))
                    * metersPerSample).
  { unfold analyzeWindow. destruct (findApex w) as [a m]. split; reflexivity. }
  destruct Hd as [Hd1 Hd2]. rewrite Hd1, Hd2. unfold metersPerSample.
  repeat split; lia.
Qed.

(** X5.  The speed trace has one point per sample, in order: point [i]
    carries the speed of sample [i] at distance
    [(i - minSpeedIdx) * metersPerSample], so the apex is at distance 0;
    entry and exit speed are the speeds of the first and the last sample. *)
Theorem speed_trace_is_apex_centred (driver : Driver.t) (w : list CarData.t) :
  let r := analyzeWindow driver w in
  JS.length (speedTrace r) = JS.length w
  /\ (forall i d, JS.get w i = Some d ->
                  JS.get (speedTrace r) i
                  = Some (mkTracePoint ((i - fst (findApex w)) * metersPerSample)
                                       (CarData.speed d)))
  /\ (forall d, JS.get w 0 = Some d -> entrySpeed r = CarData.speed d)
  /\ (forall d, JS.get w (JS.length w - 1) = Some d -> exitSpeed r = CarData.speed d).
Proof.
  cbv zeta. unfold analyzeWindow. destruct (findApex w) as [a m].
  cbn [speedTrace entrySpeed exitSpeed fst]. repeat split.
  - unfold JS.length, JS.indexed. rewrite length_map. f_equal.
    generalize 0. induction w as [|x r IH]; intros i0; cbn; [reflexivity|].
    now rewrite IH.
  - intros i d Hget. now rewrite JS_get_map_indexed, Hget.
  - intros d Hget. unfold speedAt. now rewrite Hget.
  - intros d Hget. unfold speedAt. now rewrite Hget.
Qed.

End KinematicsFacts.


(** ** Corner detection: what is in the catalog *)

Section CatalogFacts.

Import CornerZoom.

Variable Math_atan2 : JS.number -> JS.number -> JS.number.

(** Every corner the loop pushes sits on the step grid, inside the
    array with [w * 2] samples on each side, at a turn over the threshold,
    with its centre point and its segment of the lap. *)
Lemma detectLoop_candidates (points : list TrackPoint) (w : Z) :
  2 <= w ->
  forall fuel i acc,
    w * 2 <= i -> (exists k, 0 <= k /\ i = w * 2 + k * (w / 2)) ->
    (Z.to_nat (JS.length points - w * 2 - i) <= fuel)%nat ->
    exists new,
      detectLoop Math_atan2 fuel points w i acc = JS.Normal (acc ++ new)
      /\ Forall (candidateOf Math_atan2 points w) new.
Proof.
  intros Hw. induction fuel as [|fuel IH]; intros i acc Hi Hgrid Hfuel.
  - cbn [detectLoop]. destruct (Z.ltb_spec i (JS.length points - w * 2)); [lia|].
    exists []. rewrite app_nil_r. split; constructor.
  - cbn [detectLoop]. destruct (Z.ltb_spec i (JS.length points - w * 2)) as [Hlt|Hge].
    + destruct (JS_get_in_range points (i - w) ltac:(lia)) as [prev Hprev].
      destruct (JS_get_in_range points i ltac:(lia)) as [curr Hcurr].
      destruct (JS_get_in_range points (i + w) ltac:(lia)) as [next Hnext].
      rewrite Hprev, Hcurr, Hnext.
      assert (Hstep : 1 <= w / 2) by (apply Z.div_le_lower_bound; lia).
      assert (Hgrid' : exists k, 0 <= k /\ i + w / 2 = w * 2 + k * (w / 2)).
      { destruct Hgrid as (k & Hk & ->). exists (k + 1). split; lia. }
      match goal with
      | |- context [detectLoop _ fuel points w (i + w / 2) ?acc'] =>
          destruct (IH (i + w / 2) acc' ltac:(lia) Hgrid' ltac:(lia)) as (new & Hrun & Hall)
      end.
      rewrite Hrun. destruct (JS.gt _ _) eqn:Egt.
      * eexists (_ :: new). rewrite <- app_assoc. split; [reflexivity|].
        constructor; [|exact Hall].
        unfold candidateOf. cbn [index center CornerZoom.points].
        repeat split; auto; try lia. exists prev, next. auto.
      * exists new. split; [reflexivity|exact Hall].
    + exists []. rewrite app_nil_r. split; constructor.
Qed.

Lemma filterCorners_incl (w : Z) (detected : list CornerData) :
  forall filtered c,
    In c (fold_left
            (fun filteredCorners corner =>
               if existsb (fun existing =>
                             2 * Z.abs (index existing - index corner) <? 3 * w)
                          filteredCorners
               then filteredCorners else filteredCorners ++ [corner])
            detected filtered) ->
    In c filtered \/ In c detected.
Proof.
  induction detected as [|d rest IH]; intros filtered c; cbn [fold_left]; [auto|].
  intros H. apply IH in H as [H|H]; [|right; now right].
  destruct (existsb _ filtered); [now left|].
  apply in_app_or in H as [H|[<-|[]]]; [now left|right; now left].
Qed.

Lemma catalog_candidates (points : list TrackPoint) :
  exists catalog,
    detectCorners Math_atan2 points = JS.Normal catalog
    /\ Forall (candidateOf Math_atan2 points (windowSize points)) catalog.
Proof.
  pose proof (windowSize_ge_10 points) as Hw.
  destruct (detectLoop_candidates points (windowSize points) ltac:(lia)
              (List.length points) (windowSize points * 2) [] ltac:(lia))
    as (new & Hrun & Hall).
  { exists 0. lia. }
  { unfold JS.length. lia. }
  cbn [app] in Hrun.
  destruct (detectCorners_normal Math_atan2 points) as (detected & Hloop & _ & Hcat).
  assert (Enew : new = detected) by congruence. subst new.
  eexists. split; [exact Hcat|].
  rewrite Forall_forall in *. intros c Hc. apply Hall.
  apply In_firstn_In in Hc. unfold filterCorners in Hc.
  apply filterCorners_incl in Hc as [[]|Hc]. exact Hc.
Qed.

(** X6.  Every corner of the catalog is a candidate of the loop: its index
    is on the step grid [2w + k * floor(w / 2)] with at least [2w] samples
    on each side, its centre is the point at that index, its segment is
    the slice of [segmentSize] points around it, and the turn measured
    there exceeds 0.25 rad. *)
Theorem catalog_members (points : list TrackPoint) :
  exists catalog,
    detectCorners Math_atan2 points = JS.Normal catalog
    /\ Forall (candidateOf Math_atan2 points (windowSize points)) catalog.
Proof. apply catalog_candidates. Qed.

(** The filter drops a candidate only when an accepted corner is within
    [1.5 * w] samples of it. *)
Lemma filterCorners_covers (w : Z) (detected : list CornerData) :
  forall filtered,
    let result :=
      fold_left
        (fun filteredCorners corner =>
           if existsb (fun existing =>
                         2 * Z.abs (index existing - index corner) <? 3 * w)
                      filteredCorners
           then filteredCorners else filteredCorners ++ [corner])
        detected filtered in
    (forall f, In f filtered -> In f result)
    /\ forall c, In c detected ->
                 In c result
                 \/ exists kept, In kept result
                                 /\ 2 * Z.abs (index kept - index c) < 3 * w.
Proof.
  induction detected as [|d rest IH]; intros filtered; cbn [fold_left]; cbv zeta.
  - split; [auto|]. intros c [].
  - match goal with
    | |- context [fold_left _ rest ?f1] => destruct (IH f1) as [Hkeep Hcover]
    end.
    cbv zeta in Hkeep, Hcover. destruct (existsb _ filtered) eqn:E.
    + split; [exact Hkeep|]. intros c [<-|Hc]; [|auto].
      right. apply existsb_exists in E as (kept & Hin & Hclose).
      exists kept. split; [auto|]. now apply Z.ltb_lt.
    + split.
      * intros f Hf. apply Hkeep, in_or_app. now left.
      * intros c [<-|Hc]; [|auto]. left. apply Hkeep, in_or_app. right. now left.
Qed.

(** X7.  The filter merges and never loses a turn: every candidate is in
    the filtered list or lies within [1.5 * w] samples of a corner that is,
    and the first candidate is always kept. *)
Theorem filter_keeps_or_merges (w : Z) (detected : list CornerData) (c : CornerData) :
  In c detected ->
  (In c (filterCorners w detected)
   \/ exists kept, In kept (filterCorners w detected)
                   /\ 2 * Z.abs (index kept - index c) < 3 * w)
  /\ (forall first rest, detected = first :: rest ->
                         exists others, filterCorners w detected = first :: others).
Proof.
  intros Hc. split.
  - unfold filterCorners. destruct (filterCorners_covers w detected []) as [_ H]. auto.
  - intros first rest ->. unfold filterCorners. cbn [fold_left existsb app].
    clear Hc.
    assert (Hpre : forall l acc head,
               exists others,
                 fold_left
                   (fun filteredCorners corner =>
                      if existsb (fun existing =>
                                    2 * Z.abs (index existing - index corner) <? 3 * w)
                                 filteredCorners
                      then filteredCorners else filteredCorners ++ [corner])
                   l (head :: acc) = head :: others).
    { induction l as [|d l IH]; intros acc head; cbn [fold_left]; [eauto|].
      destruct (existsb _ (head :: acc)); [apply IH|].
      change ((head :: acc) ++ [d]) with (head :: (acc ++ [d])). apply IH. }
    apply (Hpre rest [] first).
Qed.

Lemma filter_keeps_or_merges_witness :
  let detected := [Fixtures3.cornerAt 92; Fixtures3.cornerAt 98; Fixtures3.cornerAt 194] in
  (In (Fixtures3.cornerAt 98) (filterCorners 13 detected)
   \/ exists kept, In kept (filterCorners 13 detected)
                   /\ 2 * Z.abs (index kept - index (Fixtures3.cornerAt 98)) < 3 * 13)
  /\ (forall first rest, detected = first :: rest ->
                         exists others, filterCorners 13 detected = first :: others).
Proof.
  apply (filter_keeps_or_merges 13
           [Fixtures3.cornerAt 92; Fixtures3.cornerAt 98; Fixtures3.cornerAt 194]
           (Fixtures3.cornerAt 98)).
  right. left. reflexivity.
Defined.

(** X8.  [fetchTrackData] writes the two pieces of state together: with no
    valid location sample it leaves the state as it is; otherwise the
    reference lap becomes the valid samples and the corners become the
    catalog detected on them, so every corner index is an index of the new
    reference lap and its centre is the point there. *)
Theorem fetchTrackData_state (st : State) (locationData : list Location.t) :
  (validData locationData = [] -> fetchTrackData Math_atan2 st locationData = st)
  /\ (validData locationData <> [] ->
      let st' := fetchTrackData Math_atan2 st locationData in
      fullTrackPoints st' = map toPoint (validData locationData)
      /\ detectCorners Math_atan2 (fullTrackPoints st') = JS.Normal (corners st')
      /\ forall c, In c (corners st') ->
                   0 <= index c < JS.length (fullTrackPoints st')
                   /\ JS.get (fullTrackPoints st') (index c) = Some (center c)).
Proof.
  split.
  - intros E. unfold fetchTrackData. rewrite E. reflexivity.
  - intros Hne. cbv zeta. unfold fetchTrackData.
    destruct (Z.eqb_spec (JS.length (validData locationData)) 0) as [E|_].
    { apply JS_length_zero in E. contradiction. }
    destruct (detectCorners_normal Math_atan2 (map toPoint (validData locationData)))
      as (detected & _ & _ & Hrun).
    rewrite Hrun. cbn [fullTrackPoints corners]. split; [reflexivity|].
    split; [exact Hrun|]. intros c Hc.
    destruct (catalog_candidates (map toPoint (validData locationData)))
      as (catalog & Hcat & Hall).
    assert (Ecat : catalog = firstn 20 (filterCorners
                                          (windowSize (map toPoint (validData locationData)))
                                          detected)) by congruence.
    subst catalog. rewrite Forall_forall in Hall.
    destruct (Hall c Hc) as (Hrange & _ & Hcenter & _).
    pose proof (windowSize_ge_10 (map toPoint (validData locationData))).
    split; [lia|exact Hcenter].
Qed.

End CatalogFacts.


(** ** Corner navigation and driver selection *)

Section Navigation.

Import CornerZoom CornerZoomUI.

Lemma navigation_range (selectedCorner : Z) (corners : list CornerData) :
  1 <= selectedCorner <= JS.length corners ->
  1 <= prevCorner selectedCorner corners <= JS.length corners
  /\ 1 <= nextCorner selectedCorner corners <= JS.length corners.
Proof.
  intros Hsel. unfold prevCorner, nextCorner.
  destruct (Z.gtb_spec selectedCorner 1);
    destruct (Z.ltb_spec selectedCorner (JS.length corners)); lia.
Qed.

(** X9.  With a corner selected among [n >= 1] corners, [prevCorner] and
    [nextCorner] stay within [1..n], wrap around at the ends and undo each
    other. *)
Theorem corner_navigation_wraps (selectedCorner : Z) (corners : list CornerData) :
  1 <= selectedCorner <= JS.length corners ->
  1 <= prevCorner selectedCorner corners <= JS.length corners
  /\ 1 <= nextCorner selectedCorner corners <= JS.length corners
  /\ prevCorner 1 corners = JS.length corners
  /\ nextCorner (JS.length corners) corners = 1
  /\ nextCorner (prevCorner selectedCorner corners) corners = selectedCorner
  /\ prevCorner (nextCorner selectedCorner corners) corners = selectedCorner.
Proof.
  intros Hsel. unfold prevCorner, nextCorner.
  repeat match goal with
         | |- context [?a >? ?b] => destruct (Z.gtb_spec a b)
         | |- context [?a <? ?b] => destruct (Z.ltb_spec a b)
         end; lia.
Qed.

Lemma corner_navigation_wraps_witness :
  let corners := [Fixtures3.cornerAt 92; Fixtures3.cornerAt 194; Fixtures3.cornerAt 296] in
  1 <= prevCorner 1 corners <= JS.length corners
  /\ 1 <= nextCorner 1 corners <= JS.length corners
  /\ prevCorner 1 corners = JS.length corners
  /\ nextCorner (JS.length corners) corners = 1
  /\ nextCorner (prevCorner 1 corners) corners = 1
  /\ prevCorner (nextCorner 1 corners) corners = 1.
Proof.
  apply (corner_navigation_wraps 1
           [Fixtures3.cornerAt 92; Fixtures3.cornerAt 194; Fixtures3.cornerAt 296]).
  vm_compute. split; discriminate.
Defined.

Section Traces.

Variable getLocation : Z -> Lap.t -> list Location.t.
Variable drivers : list Driver.t.
Variable driverFastestLaps : JS.Map.t Lap.t.

(** X10.  [fetchDriverTraces] sets the traces exactly when the selected
    corner exists, that is when [1 <= selectedCorner <= corners.length];
    otherwise it returns early.  A selection reached with [prevCorner] or
    [nextCorner] from an existing corner always exists. *)
Theorem traces_need_existing_corner (st : State) (selectedCorner : Z)
  (selectedDrivers : list Z) :
  (fetchDriverTraces getLocation drivers driverFastestLaps st selectedCorner
     selectedDrivers = None
   <-> ~ (1 <= selectedCorner <= JS.length (corners st)))
  /\ (1 <= selectedCorner <= JS.length (corners st) ->
      fetchDriverTraces getLocation drivers driverFastestLaps st
        (nextCorner selectedCorner (corners st)) selectedDrivers <> None
      /\ fetchDriverTraces getLocation drivers driverFastestLaps st
           (prevCorner selectedCorner (corners st)) selectedDrivers <> None).
Proof.
  assert (Hiff : forall sel,
             fetchDriverTraces getLocation drivers driverFastestLaps st sel
               selectedDrivers = None
             <-> ~ (1 <= sel <= JS.length (corners st))).
  { intros sel. unfold fetchDriverTraces.
    destruct (JS.get (corners st) (sel - 1)) as [c|] eqn:E.
    - apply JS_get_Some_range in E. split; [discriminate|]. intros H. exfalso. apply H. lia.
    - split; [|reflexivity]. intros _ Hr.
      destruct (JS_get_in_range (corners st) (sel - 1) ltac:(lia)) as [c Hc]. congruence. }
  split; [apply Hiff|]. intros Hsel.
  destruct (navigation_range selectedCorner (corners st) Hsel) as (Hp & Hn).
  split; intros H; apply Hiff in H; tauto.
Qed.

End Traces.

Lemma JS_slice_length {A} (l : list A) (s e : Z) :
  0 <= s -> 0 <= e ->
  JS.length (JS.slice l s e)
  = Z.max 0 (Z.min e (JS.length l) - Z.min s (JS.length l)).
Proof.
  intros Hs He. unfold JS.slice.
  destruct (Z.ltb_spec s 0); [lia|]. destruct (Z.ltb_spec e 0); [lia|].
  unfold JS.length. rewrite length_firstn, length_skipn. lia.
Qed.

Lemma slice_tail_length {A} (l : list A) :
  JS.length (JS.slice l 1 (JS.length l)) = Z.max 0 (JS.length l - 1).
Proof.
  pose proof (JS_length_nonneg l) as Hn. rewrite JS_slice_length by lia. lia.
Qed.

Lemma slice_tail_incl {A} (l : list A) (x : A) :
  In x (JS.slice l 1 (JS.length l)) -> In x l.
Proof.
  unfold JS.slice. intros H. apply In_firstn_In in H.
  revert H. generalize (Z.to_nat (if 1 <? 0 then Z.max (JS.length l + 1) 0
                                   else Z.min 1 (JS.length l))).
  intros n. revert l. induction n as [|n IH]; intros l; cbn; [auto|].
  destruct l as [|a l]; cbn; [auto|]. intros H. right. auto.
Qed.

Lemma slice_tail_NoDup (l : list Z) : NoDup l -> NoDup (JS.slice l 1 (JS.length l)).
Proof.
  intros Hnd. unfold JS.slice.
  assert (Hskip : forall n (l : list Z), NoDup l -> NoDup (skipn n l)).
  { induction n as [|n IH]; intros [|a l'] H; cbn; auto.
    inversion H; subst. auto. }
  assert (Hfirst : forall n (l : list Z), NoDup l -> NoDup (firstn n l)).
  { induction n as [|n IH]; intros [|a l'] H; cbn; try constructor.
    - inversion H as [|? ? Ha Hl]; subst. intros Hin. apply Ha.
      now apply (In_firstn_In n).
    - inversion H; subst. auto. }
  apply Hfirst, Hskip, Hnd.
Qed.

(** X11.  A selection of at most four distinct drivers stays one under
    [toggleDriver]. *)
Theorem toggle_keeps_selection_small (prev : list Z) (driverNumber : Z) :
  JS.length prev <= 4 -> NoDup prev ->
  JS.length (toggleDriver prev driverNumber) <= 4
  /\ NoDup (toggleDriver prev driverNumber).
Proof.
  intros Hlen Hnd. unfold toggleDriver.
  destruct (existsb (fun d => d =? driverNumber) prev) eqn:E.
  - split.
    + unfold JS.length in *.
      pose proof (filter_length_le (fun d => negb (d =? driverNumber)) prev). lia.
    + now apply NoDup_filter.
  - assert (Hnotin : ~ In driverNumber prev).
    { intros Hin. assert (existsb (fun d => d =? driverNumber) prev = true) as H.
      { apply existsb_exists. exists driverNumber. split; [exact Hin|apply Z.eqb_refl]. }
      congruence. }
    assert (Hsnoc : forall l : list Z, NoDup l -> ~ In driverNumber l ->
                                       NoDup (l ++ [driverNumber])).
    { intros l Hl Hn. apply NoDup_app; [exact Hl|repeat constructor; tauto|].
      intros x Hx [<-|[]]. contradiction. }
    destruct (Z.geb_spec (JS.length prev) 4).
    + split.
      * unfold JS.length at 1. rewrite length_app. cbn [List.length].
        pose proof (slice_tail_length prev) as Ht. unfold JS.length in *. lia.
      * apply Hsnoc; [now apply slice_tail_NoDup|].
        intros Hin. apply Hnotin. now apply slice_tail_incl.
    + split.
      * unfold JS.length in *. rewrite length_app. cbn [List.length]. lia.
      * now apply Hsnoc.
Qed.

Lemma toggle_keeps_selection_small_witness :
  JS.length (toggleDriver [1; 44; 16; 4] 81) <= 4
  /\ NoDup (toggleDriver [1; 44; 16; 4] 81).
Proof.
  apply (toggle_keeps_selection_small [1; 44; 16; 4] 81).
  - vm_compute. discriminate.
  - repeat constructor; cbn; intuition discriminate.
Defined.

(** X12.  Toggling a selected driver removes it and keeps the others in
    order; toggling a driver that is not selected puts it last, after
    dropping the oldest selection when four are already selected; toggling
    an unselected driver twice restores a selection of fewer than four. *)
Theorem toggle_adds_or_removes (prev : list Z) (driverNumber : Z) :
  (In driverNumber prev ->
   toggleDriver prev driverNumber = filter (fun d => negb (d =? driverNumber)) prev
   /\ ~ In driverNumber (toggleDriver prev driverNumber))
  /\ (~ In driverNumber prev ->
      (exists kept, toggleDriver prev driverNumber = kept ++ [driverNumber]
                    /\ kept = if JS.length prev >=? 4
                              then JS.slice prev 1 (JS.length prev) else prev)
      /\ (JS.length prev < 4 ->
          toggleDriver (toggleDriver prev driverNumber) driverNumber = prev)).
Proof.
  assert (Hex : existsb (fun d => d =? driverNumber) prev = true <-> In driverNumber prev).
  { rewrite existsb_exists. split.
    - intros (x & Hx & E). apply Z.eqb_eq in E. now subst.
    - intros H. exists driverNumber. split; [exact H|apply Z.eqb_refl]. }
  split.
  - intros Hin. unfold toggleDriver. apply Hex in Hin. rewrite Hin.
    split; [reflexivity|]. intros H. apply filter_In in H as [_ H].
    now rewrite Z.eqb_refl in H.
  - intros Hnotin.
    assert (E : existsb (fun d => d =? driverNumber) prev = false).
    { apply not_true_is_false. intros E'. apply Hex in E'. contradiction. }
    split.
    + unfold toggleDriver. rewrite E. destruct (JS.length prev >=? 4); eauto.
    + intros Hlt. unfold toggleDriver at 2. rewrite E.
      destruct (Z.geb_spec (JS.length prev) 4); [lia|].
      unfold toggleDriver.
      assert (E2 : existsb (fun d => d =? driverNumber) (prev ++ [driverNumber]) = true).
      { rewrite existsb_app. cbn. rewrite Z.eqb_refl. apply orb_true_r. }
      rewrite E2, filter_app. cbn [filter]. rewrite Z.eqb_refl. cbn [negb].
      rewrite app_nil_r. apply forallb_filter_id. apply forallb_forall.
      intros x Hx. apply negb_true_iff, Z.eqb_neq. intros ->. contradiction.
Qed.

End Navigation.


(** ** The fastest lap of each driver *)

Section FloatOrder.

(** [<] on binary64 numbers, through its specification on [spec_float]. *)
Lemma SFltb_irrefl (a : SpecFloat.spec_float) : SpecFloat.SFltb a a = false.
Proof.
  unfold SpecFloat.SFltb, SpecFloat.SFcompare.
  destruct a as [[]|[]| |[] m e]; cbn; try reflexivity;
    change (PosDef.Pos.compare_cont Eq) with Pos.compare;
    now rewrite Z.compare_refl, Pos.compare_refl.
Qed.

Lemma SFltb_trans (a b c : SpecFloat.spec_float) :
  SpecFloat.SFltb a b = true -> SpecFloat.SFltb b c = true ->
  SpecFloat.SFltb a c = true.
Proof.
  unfold SpecFloat.SFltb, SpecFloat.SFcompare.
  destruct a as [[]|[]| |[] ma ea], b as [[]|[]| |[] mb eb], c as [[]|[]| |[] mc ec];
    cbn; try discriminate; try reflexivity; intros H1 H2;
    change (PosDef.Pos.compare_cont Eq) with Pos.compare in *;
    destruct (Z.compare_spec ea eb) as [Eab|Hab|Hab];
    destruct (Z.compare_spec eb ec) as [Ebc|Hbc|Hbc];
    destruct (Z.compare_spec ea ec) as [Eac|Hac|Hac];
    try discriminate; try reflexivity; try lia;
    destruct (Pos.compare_spec ma mb); destruct (Pos.compare_spec mb mc);
    destruct (Pos.compare_spec ma mc); cbn in *; try discriminate; try reflexivity;
    subst; lia.
Qed.

Lemma JS_lt_irrefl (x : JS.number) : JS.lt x x = false.
Proof. unfold JS.lt. rewrite FloatAxioms.ltb_spec. apply SFltb_irrefl. Qed.

Lemma JS_lt_trans (x y z : JS.number) :
  JS.lt x y = true -> JS.lt y z = true -> JS.lt x z = true.
Proof. unfold JS.lt. rewrite !FloatAxioms.ltb_spec. apply SFltb_trans. Qed.

End FloatOrder.

Section FastestLap.

Lemma shorter_irrefl (lap : Lap.t) : ~ shorter lap lap.
Proof.
  unfold shorter. destruct (Lap.lap_duration lap); [|tauto].
  rewrite JS_lt_irrefl. discriminate.
Qed.

Lemma shorter_trans (a b c : Lap.t) : shorter a b -> shorter b c -> shorter a c.
Proof.
  unfold shorter.
  destruct (Lap.lap_duration a), (Lap.lap_duration b), (Lap.lap_duration c);
    try tauto. apply JS_lt_trans.
Qed.

(** The [reduce] ends with the starting lap or a lap of the list strictly
    shorter than it; no lap of the list is strictly shorter than the
    result. *)
Lemma keepFaster_fold (l : list Lap.t) :
  forall best0,
    (forall lap, In lap l -> hasDuration lap = true) ->
    hasDuration best0 = true ->
    exists best,
      fold_left keepFaster l (Some best0) = Some best
      /\ (best = best0 \/ (In best l /\ shorter best best0))
      /\ forall lap, In lap l -> ~ shorter lap best.
Proof.
  induction l as [|x l IH]; intros best0 Hall H0.
  - exists best0. cbn. repeat split; auto.
  - cbn [fold_left keepFaster].
    assert (Hx : hasDuration x = true) by (apply Hall; now left).
    unfold hasDuration in Hx, H0.
    destruct (Lap.lap_duration x) as [dx|] eqn:Ex; [|discriminate].
    destruct (Lap.lap_duration best0) as [d0|] eqn:E0; [|discriminate].
    destruct (JS.lt dx d0) eqn:Elt.
    + assert (Hx0 : shorter x best0) by (unfold shorter; now rewrite Ex, E0).
      destruct (IH x) as (best & Hrun & Hin & Hmin).
      { intros lap Hlap. apply Hall. now right. }
      { unfold hasDuration. now rewrite Ex. }
      exists best. split; [exact Hrun|]. split.
      * right. destruct Hin as [-> |[Hin Hs]].
        -- split; [now left|exact Hx0].
        -- split; [now right|]. eapply shorter_trans; eauto.
      * intros lap [<-|Hlap]; [|auto].
        destruct Hin as [-> |[_ Hs]]; [apply shorter_irrefl|].
        intros H. apply (shorter_irrefl x). eapply shorter_trans; eauto.
    + assert (Hnx : ~ shorter x best0)
        by (unfold shorter; rewrite Ex, E0; congruence).
      destruct (IH best0) as (best & Hrun & Hin & Hmin).
      { intros lap Hlap. apply Hall. now right. }
      { unfold hasDuration. now rewrite E0. }
      exists best. split; [exact Hrun|]. split.
      * destruct Hin as [-> |[Hin Hs]]; [now left|right]. split; [now right|exact Hs].
      * intros lap [<-|Hlap]; [|auto].
        destruct Hin as [-> |[_ Hs]]; [exact Hnx|].
        intros H. apply Hnx. eapply shorter_trans; eauto.
Qed.

Lemma validLapsOf_In (d : Z) (laps : list Lap.t) (lap : Lap.t) :
  In lap (validLapsOf d laps)
  <-> In lap laps /\ Lap.driver_number lap = d /\ hasDuration lap = true
      /\ Lap.is_pit_out_lap lap = false.
Proof.
  unfold validLapsOf, hasDuration. rewrite filter_In, !andb_true_iff, negb_true_iff, Z.eqb_eq.
  tauto.
Qed.

(** The entry written for a roster driver is the result of the [reduce]
    over its valid laps; other keys are left alone. *)
Lemma driverFastestLaps_fold (laps : list Lap.t) (drivers : list Driver.t) :
  forall m d,
    JS.Map.get
      (fold_left
         (fun fastestLaps driver =>
            match fold_left keepFaster
                    (validLapsOf (Driver.driver_number driver) laps) None with
            | Some lap => JS.Map.set fastestLaps (Driver.driver_number driver) lap
            | None => fastestLaps
            end)
         drivers m) d
    = if existsb (fun driver => Driver.driver_number driver =? d) drivers
      then match fold_left keepFaster (validLapsOf d laps) None with
           | Some lap => Some lap
           | None => JS.Map.get m d
           end
      else JS.Map.get m d.
Proof.
  induction drivers as [|driver drivers IH]; intros m d; cbn [fold_left existsb];
    [reflexivity|].
  rewrite IH. destruct (Z.eqb_spec (Driver.driver_number driver) d) as [-> |Hne];
    cbn [orb].
  - destruct (fold_left keepFaster (validLapsOf d laps) None) as [lap|] eqn:E.
    + rewrite Map_get_set, Z.eqb_refl.
      destruct (existsb _ drivers); reflexivity.
    + destruct (existsb _ drivers); reflexivity.
  - destruct (fold_left keepFaster (validLapsOf (Driver.driver_number driver) laps) None);
      [|reflexivity].
    rewrite Map_get_set. destruct (Z.eqb_spec d (Driver.driver_number driver));
      [congruence|reflexivity].
Qed.

Lemma driverFastestLaps_get (laps : list Lap.t) (drivers : list Driver.t) (d : Z) :
  JS.Map.get (driverFastestLaps laps drivers) d
  = if existsb (fun driver => Driver.driver_number driver =? d) drivers
    then fold_left keepFaster (validLapsOf d laps) None
    else None.
Proof.
  unfold driverFastestLaps.
  change (JS.Map.get
            (fold_left
               (fun fastestLaps driver =>
                  match fold_left keepFaster
                          (validLapsOf (Driver.driver_number driver) laps) None with
                  | Some lap => JS.Map.set fastestLaps (Driver.driver_number driver) lap
                  | None => fastestLaps
                  end)
               drivers JS.Map.empty) d
          = if existsb (fun driver => Driver.driver_number driver =? d) drivers
            then fold_left keepFaster (validLapsOf d laps) None
            else None).
  rewrite driverFastestLaps_fold. cbn [JS.Map.get JS.Map.empty].
  destruct (existsb _ drivers); [|reflexivity].
  destruct (fold_left keepFaster (validLapsOf d laps) None); reflexivity.
Qed.

Lemma roster_existsb (drivers : list Driver.t) (d : Z) :
  existsb (fun driver => Driver.driver_number driver =? d) drivers = true
  <-> In d (map Driver.driver_number drivers).
Proof.
  rewrite existsb_exists, in_map_iff. split.
  - intros (x & Hx & E). apply Z.eqb_eq in E. eauto.
  - intros (x & E & Hx). exists x. split; [exact Hx|now apply Z.eqb_eq].
Qed.

(** X13.  The fastest lap recorded for a driver is one of the session's
    laps of that roster driver, with a duration and not a pit-out lap, and
    no such lap of the driver is strictly shorter. *)
Theorem fastest_lap_is_shortest_valid_lap
  (laps : list Lap.t) (drivers : list Driver.t) (d : Z) (fastest : Lap.t) :
  JS.Map.get (driverFastestLaps laps drivers) d = Some fastest ->
  In d (map Driver.driver_number drivers)
  /\ In fastest laps
  /\ Lap.driver_number fastest = d
  /\ hasDuration fastest = true
  /\ Lap.is_pit_out_lap fastest = false
  /\ forall lap, In lap laps -> Lap.driver_number lap = d ->
                 hasDuration lap = true -> Lap.is_pit_out_lap lap = false ->
                 ~ shorter lap fastest.
Proof.
  rewrite driverFastestLaps_get.
  destruct (existsb _ drivers) eqn:Er; [|discriminate].
  apply roster_existsb in Er. intros Hfold.
  destruct (validLapsOf d laps) as [|x l] eqn:El; [discriminate|].
  cbn [fold_left keepFaster] in Hfold.
  assert (Hvalid : forall lap, In lap (x :: l) -> hasDuration lap = true).
  { intros lap Hlap. rewrite <- El in Hlap. now apply validLapsOf_In in Hlap. }
  destruct (keepFaster_fold l x) as (best & Hrun & Hin & Hmin).
  { intros lap Hlap. apply Hvalid. now right. }
  { apply Hvalid. now left. }
  assert (best = fastest) by congruence. subst best.
  assert (Hf : In fastest (validLapsOf d laps)).
  { rewrite El. destruct Hin as [-> |[Hin _]]; [now left|now right]. }
  apply validLapsOf_In in Hf as (Hf1 & Hf2 & Hf3 & Hf4).
  repeat split; auto.
  intros lap Hlap Hd Hdur Hpit.
  assert (Hl : In lap (x :: l)) by (rewrite <- El; apply validLapsOf_In; auto).
  destruct Hl as [<-|Hl]; [|auto].
  destruct Hin as [-> |[_ Hs]]; [apply shorter_irrefl|].
  intros H. apply (shorter_irrefl x). eapply shorter_trans; eauto.
Qed.

Lemma fastest_lap_is_shortest_valid_lap_witness :
  In 44 (map Driver.driver_number Fixtures.bothDrivers)
  /\ In (Lap.mk "2024-05-26T13:02:41" 44 false (Some 90.25%float) 3) Fixtures3.sessionLaps
  /\ Lap.driver_number (Lap.mk "2024-05-26T13:02:41" 44 false (Some 90.25%float) 3) = 44
  /\ hasDuration (Lap.mk "2024-05-26T13:02:41" 44 false (Some 90.25%float) 3) = true
  /\ Lap.is_pit_out_lap (Lap.mk "2024-05-26T13:02:41" 44 false (Some 90.25%float) 3)
     = false
  /\ forall lap, In lap Fixtures3.sessionLaps -> Lap.driver_number lap = 44 ->
                 hasDuration lap = true -> Lap.is_pit_out_lap lap = false ->
                 ~ shorter lap (Lap.mk "2024-05-26T13:02:41" 44 false (Some 90.25%float) 3).
Proof.
  apply (fastest_lap_is_shortest_valid_lap Fixtures3.sessionLaps Fixtures.bothDrivers 44).
  vm_compute. reflexivity.
Defined.

(** X14.  A driver has a fastest lap exactly when it is in the roster and
    has at least one lap with a duration that is not a pit-out lap. *)
Theorem fastest_lap_exists_iff (laps : list Lap.t) (drivers : list Driver.t) (d : Z) :
  (exists fastest, JS.Map.get (driverFastestLaps laps drivers) d = Some fastest)
  <-> In d (map Driver.driver_number drivers)
      /\ exists lap, In lap laps /\ Lap.driver_number lap = d
                     /\ hasDuration lap = true /\ Lap.is_pit_out_lap lap = false.
Proof.
  rewrite driverFastestLaps_get. split.
  - intros [fastest H]. destruct (existsb _ drivers) eqn:Er; [|discriminate].
    apply roster_existsb in Er. split; [exact Er|].
    destruct (validLapsOf d laps) as [|x l] eqn:El; [discriminate|].
    exists x. apply validLapsOf_In. rewrite El. now left.
  - intros [Hr (lap & Hlap)]. apply roster_existsb in Hr. rewrite Hr.
    apply validLapsOf_In in Hlap.
    destruct (validLapsOf d laps) as [|x l] eqn:El; [destruct Hlap|].
    cbn [fold_left keepFaster].
    assert (Hvalid : forall lap', In lap' (x :: l) -> hasDuration lap' = true).
    { intros lap' Hl. rewrite <- El in Hl. now apply validLapsOf_In in Hl. }
    destruct (keepFaster_fold l x) as (best & Hrun & _).
    { intros lap' Hl. apply Hvalid. now right. }
    { apply Hvalid. now left. }
    eauto.
Qed.

End FastestLap.


(** ** The reference driver *)

Section FastestDriver.

Import CornerZoomUI.

Lemma quicker_irrefl (lap : Lap.t) : quicker lap lap = false.
Proof. apply JS_lt_irrefl. Qed.

Lemma quicker_trans (a b c : Lap.t) :
  quicker a b = true -> quicker b c = true -> quicker a c = true.
Proof. apply JS_lt_trans. Qed.

Lemma fastestDriver_fold (fl : JS.Map.t Lap.t) (drivers : list Driver.t) :
  forall d0 l0,
    exists d l,
      fold_left
        (fun fastest driver =>
           match JS.Map.get fl (Driver.driver_number driver) with
           | Some lap =>
               match fastest with
               | None => Some (driver, lap)
               | Some (_, fastestLap) =>
                   if JS.lt (durationNumber lap) (durationNumber fastestLap)
                   then Some (driver, lap) else fastest
               end
           | None => fastest
           end)
        drivers (Some (d0, l0)) = Some (d, l)
      /\ ((d, l) = (d0, l0)
          \/ (In d drivers /\ JS.Map.get fl (Driver.driver_number d) = Some l
              /\ quicker l l0 = true))
      /\ forall d' l', In d' drivers ->
                       JS.Map.get fl (Driver.driver_number d') = Some l' ->
                       quicker l' l = false.
Proof.
  induction drivers as [|x drivers IH]; intros d0 l0.
  - exists d0, l0. cbn. repeat split; auto. intros d' l' [].
  - cbn [fold_left].
    destruct (JS.Map.get fl (Driver.driver_number x)) as [lx|] eqn:Ex.
    + fold (quicker lx l0). destruct (quicker lx l0) eqn:Eq.
      * destruct (IH x lx) as (d & l & Hrun & Hin & Hmin).
        exists d, l. split; [exact Hrun|]. split.
        -- right. destruct Hin as [[= -> ->]|(Hin & Hget & Hq)].
           ++ repeat split; auto. now left.
           ++ repeat split; auto; [now right|]. eapply quicker_trans; eauto.
        -- intros d' l' [<-|Hd'] Hget; [|eauto].
           assert (l' = lx) by congruence. subst l'.
           destruct Hin as [[= -> ->]|(_ & _ & Hq)]; [apply quicker_irrefl|].
           destruct (quicker lx l) eqn:E; [|reflexivity].
           rewrite <- (quicker_irrefl lx). symmetry. eapply quicker_trans; eauto.
      * destruct (IH d0 l0) as (d & l & Hrun & Hin & Hmin).
        exists d, l. split; [exact Hrun|]. split.
        -- destruct Hin as [E|(Hin & Hget & Hq)]; [now left|right].
           repeat split; auto. now right.
        -- intros d' l' [<-|Hd'] Hget; [|eauto].
           assert (l' = lx) by congruence. subst l'.
           destruct Hin as [[= -> ->]|(_ & _ & Hq)]; [exact Eq|].
           destruct (quicker lx l) eqn:E; [|reflexivity].
           rewrite <- Eq. symmetry. eapply quicker_trans; eauto.
    + destruct (IH d0 l0) as (d & l & Hrun & Hin & Hmin).
      exists d, l. split; [exact Hrun|]. split.
      * destruct Hin as [E|(Hin & Hget & Hq)]; [now left|right].
        repeat split; auto. now right.
      * intros d' l' [<-|Hd'] Hget; [congruence|eauto].
Qed.

(** X15.  The reference driver is a roster driver together with its own
    fastest lap, and no roster driver has a fastest lap that compares as
    shorter. *)
Theorem reference_driver_has_shortest_lap
  (drivers : list Driver.t) (driverFastestLaps : JS.Map.t Lap.t)
  (driver : Driver.t) (lap : Lap.t) :
  fastestDriver drivers driverFastestLaps = Some (driver, lap) ->
  In driver drivers
  /\ JS.Map.get driverFastestLaps (Driver.driver_number driver) = Some lap
  /\ forall other otherLap,
       In other drivers ->
       JS.Map.get driverFastestLaps (Driver.driver_number other) = Some otherLap ->
       JS.lt (durationNumber otherLap) (durationNumber lap) = false.
Proof.
  unfold fastestDriver. destruct (JS.length driverFastestLaps =? 0); [discriminate|].
  induction drivers as [|x drivers IH]; [discriminate|].
  cbn [fold_left].
  destruct (JS.Map.get driverFastestLaps (Driver.driver_number x)) as [lx|] eqn:Ex.
  - intros Hrun.
    destruct (fastestDriver_fold driverFastestLaps drivers x lx)
      as (d & l & Hrun' & Hin & Hmin).
    rewrite Hrun' in Hrun. injection Hrun as E1 E2. subst d l.
    assert (Hhead : quicker lx lap = false).
    { destruct Hin as [[= -> ->]|(_ & _ & Hq)]; [apply quicker_irrefl|].
      destruct (quicker lx lap) eqn:E; [|reflexivity].
      rewrite <- (quicker_irrefl lx). symmetry. eapply quicker_trans; eauto. }
    destruct Hin as [[= -> ->]|(Hin & Hget & Hq)].
    + repeat split; auto; [now left|].
      intros other otherLap [<-|Ho] Hget; [|eapply Hmin; eauto].
      assert (otherLap = lx) by congruence. subst. apply quicker_irrefl.
    + repeat split; auto; [now right|].
      intros other otherLap [<-|Ho] Hget'; [|eapply Hmin; eauto].
      assert (otherLap = lx) by congruence. subst. exact Hhead.
  - intros Hrun. destruct (IH Hrun) as (Hin & Hget & Hmin).
    repeat split; auto; [now right|].
    intros other otherLap [<-|Ho] Hget'; [congruence|eauto].
Qed.

Lemma reference_driver_has_shortest_lap_witness :
  In Fixtures.verstappen Fixtures.bothDrivers
  /\ JS.Map.get (driverFastestLaps Fixtures3.sessionLaps Fixtures.bothDrivers) 1
     = Some (Lap.mk "2024-05-26T13:00:05" 1 false (Some 89%float) 1)
  /\ forall other otherLap,
       In other Fixtures.bothDrivers ->
       JS.Map.get (driverFastestLaps Fixtures3.sessionLaps Fixtures.bothDrivers)
         (Driver.driver_number other) = Some otherLap ->
       JS.lt (durationNumber otherLap)
             (durationNumber (Lap.mk "2024-05-26T13:00:05" 1 false (Some 89%float) 1))
       = false.
Proof.
  apply (reference_driver_has_shortest_lap Fixtures.bothDrivers
           (driverFastestLaps Fixtures3.sessionLaps Fixtures.bothDrivers)
           Fixtures.verstappen).
  vm_compute. reflexivity.
Defined.

(** X16.  There is no reference driver exactly when no roster driver has a
    fastest lap. *)
Theorem no_reference_driver_iff (drivers : list Driver.t)
  (driverFastestLaps : JS.Map.t Lap.t) :
  fastestDriver drivers driverFastestLaps = None
  <-> forall driver, In driver drivers ->
                     JS.Map.get driverFastestLaps (Driver.driver_number driver) = None.
Proof.
  unfold fastestDriver. split.
  - destruct (Z.eqb_spec (JS.length driverFastestLaps) 0) as [E|_].
    + intros _ driver _. apply JS_length_zero in E. now rewrite E.
    + induction drivers as [|x drivers IH]; [intros _ d []|].
      cbn [fold_left].
      destruct (JS.Map.get driverFastestLaps (Driver.driver_number x)) as [lx|] eqn:Ex.
      * intros Hrun.
        destruct (fastestDriver_fold driverFastestLaps drivers x lx) as (d & l & Hrun' & _).
        congruence.
      * intros Hrun driver [<-|Hd]; [exact Ex|auto].
  - intros Hnone. destruct (JS.length driverFastestLaps =? 0); [reflexivity|].
    induction drivers as [|x drivers IH]; [reflexivity|].
    cbn [fold_left]. rewrite (Hnone x (or_introl eq_refl)).
    apply IH. intros d Hd. apply Hnone. now right.
Qed.

End FastestDriver.


(** ** Position reconstruction: shape of the chart data *)

Section ChartFacts.

Import RacePositionChart.

Lemma rounds_positions_sorted (d : Z) (F : Z -> list (Z * JS.number)) (ks : list Z) :
  StronglySorted Z.lt ks ->
  (forall k, NoDup (map fst (F k))) ->
  let ps := flat_map (fun k => pushed k 0 d (F k)) ks in
  StronglySorted Z.lt (map lap ps)
  /\ forall p, In p ps -> In (lap p) ks /\ 1 <= position p <= JS.length (F (lap p)).
Proof.
  intros Hs Hnd. cbv zeta. induction Hs as [|k ks Hs IH Hk]; cbn [flat_map map].
  - split; [constructor|]. intros p [].
  - destruct IH as [IH1 IH2]. rewrite map_app, (pushed_rank k d (F k) (Hnd k) 0).
    destruct (rankFrom 0 d (F k)) as [p|] eqn:Er; cbn [map app].
    + split.
      * constructor; [exact IH1|]. rewrite Forall_forall. intros n Hn.
        apply in_map_iff in Hn as (q & <- & Hq). destruct (IH2 q Hq) as [Hin _].
        rewrite Forall_forall in Hk. cbn [lap]. now apply Hk.
      * intros q [<-|Hq].
        -- cbn [lap position]. split; [now left|].
           apply rankFrom_Some in Er as [Hr _]. lia.
        -- destruct (IH2 q Hq) as [Hin Hpos]. split; [now right|exact Hpos].
    + split; [exact IH1|]. intros q Hq. destruct (IH2 q Hq) as [Hin Hpos].
      split; [now right|exact Hpos].
Qed.

Lemma chart_entry_positions (drivers : list Driver.t) (laps : list Lap.t)
  (dp : DriverPositions) :
  In dp (driverPositions drivers laps) ->
  positions dp <> []
  /\ StronglySorted Z.lt (map lap (positions dp))
  /\ forall p, In p (positions dp) ->
               In (lap p) (map Lap.lap_number laps)
               /\ 1 <= position p <= JS.length (firstValidOrder laps (lap p)).
Proof.
  intros Hdp. unfold driverPositions in Hdp. apply filter_In in Hdp as [Hin Hpos].
  unfold JS.Map.values in Hin. apply in_map_iff in Hin as ([d dd] & <- & Hin).
  cbn [snd] in *. apply Map_In_get in Hin;
    [|rewrite finalState_keys; apply firstOccurrences_NoDup].
  rewrite finalState_get in Hin.
  destruct (JS.Map.get (initPositionMap drivers) d) as [dd0|]; [|discriminate].
  cbn [option_map] in Hin. injection Hin as <-. cbn [positions] in *.
  destruct (rounds_positions_sorted d (fun k => sortByTime (cumulativeAfter laps k))
              (ascendingLapNumbers laps) (ascendingLapNumbers_sorted laps)
              (fun k => table_NoDup laps k)) as [H1 H2].
  split.
  - intros E. rewrite E in Hpos. discriminate.
  - split; [exact H1|]. intros p Hp. destruct (H2 p Hp) as [Hin Hr].
    split; [now apply ascendingLapNumbers_In|]. now rewrite table_length in Hr.
Qed.

(** X17.  For every driver of the chart the recorded positions come in
    strictly ascending lap order, each at a lap number of the records and
    each between 1 and the number of drivers timed so far. *)
Theorem chart_positions_ascend (drivers : list Driver.t) (laps : list Lap.t)
  (dp : DriverPositions) :
  In dp (driverPositions drivers laps) ->
  positions dp <> []
  /\ StronglySorted Z.lt (map lap (positions dp))
  /\ forall p, In p (positions dp) ->
               In (lap p) (map Lap.lap_number laps)
               /\ 1 <= position p <= JS.length (firstValidOrder laps (lap p)).
Proof. apply chart_entry_positions. Qed.

Lemma chart_positions_ascend_witness :
  exists dp,
    In dp (driverPositions Fixtures.bothDrivers RaceFixtures.missingLap)
    /\ StronglySorted Z.lt (map lap (positions dp)).
Proof.
  assert (H : exists dp,
             In dp (driverPositions Fixtures.bothDrivers RaceFixtures.missingLap)).
  { vm_compute. eexists. left. reflexivity. }
  destruct H as [dp H]. exists dp. split; [exact H|].
  apply (chart_positions_ascend Fixtures.bothDrivers RaceFixtures.missingLap dp H).
Defined.

(** X18.  A driver is in the chart exactly when it is in the roster and
    one of its records has a duration; the chart lists each such driver
    once. *)
Theorem chart_drivers (drivers : list Driver.t) (laps : list Lap.t) :
  NoDup (map driverNumber (driverPositions drivers laps))
  /\ forall d,
       In d (map driverNumber (driverPositions drivers laps))
       <-> In d (map Driver.driver_number drivers)
           /\ exists lap, In lap laps /\ Lap.driver_number lap = d
                          /\ hasDuration lap = true.
Proof.
  assert (Hkeys : NoDup (JS.Map.keys (snd (finalState drivers laps))))
    by (rewrite finalState_keys; apply firstOccurrences_NoDup).
  assert (Hnum : forall d dd, In (d, dd) (snd (finalState drivers laps)) ->
                              driverNumber dd = d).
  { intros d dd Hin. apply Map_In_get in Hin; [|exact Hkeys].
    now destruct (finalState_positions_at drivers laps d 0 dd Hin). }
  split.
  - unfold driverPositions, JS.Map.values.
    assert (Hall : NoDup (map driverNumber (map snd (snd (finalState drivers laps))))).
    { rewrite map_map. unfold JS.Map.keys in Hkeys.
      erewrite map_ext_in; [exact Hkeys|]. intros [d dd] Hin. cbn. now apply Hnum. }
    revert Hall. generalize (map snd (snd (finalState drivers laps))).
    induction l as [|x l IH]; cbn; [constructor|]. intros Hnd.
    inversion Hnd as [|? ? Hx Hl]; subst. destruct (0 <? JS.length (positions x)); cbn; auto.
    constructor; auto. intros Hin. apply Hx. apply in_map_iff in Hin as (y & E & Hy).
    apply in_map_iff. exists y. split; [exact E|]. now apply filter_In in Hy.
  - intros d. split.
    + intros Hin. apply in_map_iff in Hin as (dp & <- & Hdp).
      pose proof Hdp as Hdp'. unfold driverPositions in Hdp'.
      apply filter_In in Hdp' as [Hv _]. unfold JS.Map.values in Hv.
      apply in_map_iff in Hv as ([d dd] & <- & Hv). cbn [snd].
      rewrite (Hnum d dd Hv). split.
      * apply firstOccurrences_In. rewrite <- (finalState_keys drivers laps).
        unfold JS.Map.keys. apply in_map_iff. exists (d, dd). auto.
      * destruct (chart_entry_positions drivers laps dd Hdp) as (Hne & _ & Hp).
        destruct (positions dd) as [|p ps] eqn:Ep; [contradiction|].
        destruct (Hp p (or_introl eq_refl)) as [_ Hr].
        assert (Hd : In d (firstValidOrder laps (lap p))).
        { apply Map_In_get in Hv; [|exact Hkeys].
          destruct (finalState_positions_at drivers laps d (lap p) dd Hv) as [_ Hf].
          rewrite Ep in Hf. cbn [filter] in Hf. rewrite Z.eqb_refl in Hf.
          destruct (existsb _ _); [|discriminate].
          destruct (rankOf d _) as [r|] eqn:Erank; [|discriminate].
          apply table_In.
          destruct (In_dec Z.eq_dec d
                      (map fst (sortByTime (cumulativeAfter laps (lap p)))))
            as [Hyes|Hno]; [exact Hyes|].
          unfold rankOf in Erank. rewrite (rankFrom_None _ _ 0 Hno) in Erank.
          discriminate. }
        apply firstValidOrder_In in Hd as (l0 & Hl0 & Hd0 & Hdur & _). eauto.
    + intros [Hroster (lap0 & Hlap & Hd & Hdur)].
      assert (HL : In (Lap.lap_number lap0) (map Lap.lap_number laps)) by now apply in_map.
      assert (Hfirst : In d (firstValidOrder laps (Lap.lap_number lap0))).
      { apply firstValidOrder_In. exists lap0. repeat split; auto. lia. }
      destruct (rankFrom_In d (sortByTime (cumulativeAfter laps (Lap.lap_number lap0))) 0)
        as [p Hp]; [now apply table_In|].
      assert (Hrow : In (d, p) (entriesAt (Lap.lap_number lap0)
                                  (driverPositions drivers laps))).
      { rewrite (entriesAt_rows drivers laps _ HL). apply rows_In. cbn [fst snd].
        split; [now apply firstOccurrences_In|exact Hp]. }
      unfold entriesAt in Hrow. apply in_flat_map in Hrow as (dp & Hdp & Hrow).
      apply in_map_iff in Hrow as (q & E & _). injection E as E1 E2.
      apply in_map_iff. exists dp. auto.
Qed.

(** X19.  Once a roster driver has a timed lap it has a row at every later
    lap number of the records, timed there or not. *)
Theorem rows_persist (drivers : list Driver.t) (laps : list Lap.t) (d L : Z) (lap0 : Lap.t) :
  In d (map Driver.driver_number drivers) ->
  In lap0 laps -> Lap.driver_number lap0 = d -> hasDuration lap0 = true ->
  Lap.lap_number lap0 <= L ->
  In L (map Lap.lap_number laps) ->
  exists p,
    rankOf d (sortByTime (fst (stateAfter drivers laps L))) = Some p
    /\ In (d, p) (entriesAt L (driverPositions drivers laps)).
Proof.
  intros Hroster Hlap Hd Hdur Hle HL. rewrite stateAfter_fst.
  assert (Hfirst : In d (firstValidOrder laps L)).
  { apply firstValidOrder_In. exists lap0. auto. }
  destruct (rankFrom_In d (sortByTime (cumulativeAfter laps L)) 0) as [p Hp];
    [now apply table_In|].
  exists p. split; [exact Hp|].
  rewrite (entriesAt_rows drivers laps L HL). apply rows_In. cbn [fst snd].
  split; [now apply firstOccurrences_In|exact Hp].
Qed.

Lemma rows_persist_witness :
  exists p,
    rankOf 44 (sortByTime (fst (stateAfter Fixtures.bothDrivers
                                  RaceFixtures.missingLap 6))) = Some p
    /\ In (44, p) (entriesAt 6 (driverPositions Fixtures.bothDrivers
                                  RaceFixtures.missingLap)).
Proof.
  apply (rows_persist Fixtures.bothDrivers RaceFixtures.missingLap 44 6
           (RaceFixtures.lapOf 44 4 (Some 79%float) false)).
  - right. left. reflexivity.
  - right. left. reflexivity.
  - reflexivity.
  - reflexivity.
  - discriminate.
  - do 4 right. left. reflexivity.
Defined.

(** X20.  Grouping loses nothing: the group of a lap number holds one
    entry per record of that lap number, in input order, with or without a
    duration; a lap number without records has no group. *)
Theorem lap_groups_partition (laps : list Lap.t) (n : Z) :
  match JS.Map.get (lapGroups laps) n with
  | Some lapData =>
      In n (map Lap.lap_number laps)
      /\ lapData
         = map (fun lap => mkGroupEntry (Lap.driver_number lap) (Lap.lap_duration lap))
               (filter (fun lap => Lap.lap_number lap =? n) laps)
  | None => ~ In n (map Lap.lap_number laps)
  end.
Proof.
  pose proof (lapGroups_group laps n) as Hg. unfold groupOf in Hg.
  pose proof (lapGroups_keys laps) as Hk.
  destruct (JS.Map.get (lapGroups laps) n) as [lapData|] eqn:E.
  - split; [|exact Hg]. apply firstOccurrences_In. rewrite <- Hk.
    apply Map_get_In_keys. eauto.
  - intros Hin. apply firstOccurrences_In in Hin. rewrite <- Hk in Hin.
    apply Map_get_In_keys in Hin as [v Hv]. congruence.
Qed.

(** X21.  The rounds run over the lap numbers of the records, each once,
    in strictly ascending order, whatever the order of the input. *)
Theorem rounds_ascend (laps : list Lap.t) :
  StronglySorted Z.lt (sortedLapNumbers (lapGroups laps))
  /\ forall n, In n (sortedLapNumbers (lapGroups laps))
               <-> In n (map Lap.lap_number laps).
Proof.
  rewrite sortedLapNumbers_ascending. split.
  - apply ascendingLapNumbers_sorted.
  - apply ascendingLapNumbers_In.
Qed.

End ChartFacts.

(** ** The comparison loop and the sampling of SpeedTrace *)

Section AnalysisFacts.

Import CornerAnalysis.

Lemma push_loop_eq {A B} (body : A -> option B) (l : list A) (init : list B) :
  fold_left (fun acc a => match body a with Some b => acc ++ [b] | None => acc end)
            l init
  = init ++ flat_map (fun a => match body a with Some b => [b] | None => [] end) l.
Proof.
  revert init. induction l as [|a l IH]; intros init; cbn [fold_left flat_map].
  - now rewrite app_nil_r.
  - rewrite IH. destruct (body a); cbn; [now rewrite <- app_assoc|reflexivity].
Qed.

Lemma JS_slice_length_only {A B} (l : list A) (l' : list B) (s e : Z) :
  List.length l = List.length l' ->
  JS.length (JS.slice l s e) = JS.length (JS.slice l' s e).
Proof.
  intros H. unfold JS.slice, JS.length.
  now rewrite !length_firstn, !length_skipn, H.
Qed.

Lemma cornerWindow_length (selectedCorner : Z) (carData : list CarData.t) :
  JS.length (cornerWindow selectedCorner carData)
  = windowLength selectedCorner (JS.length carData).
Proof.
  unfold windowLength, cornerWindow, cornerIndex, windowSize.
  assert (E : List.length (repeat (CarData.mk 0 0 0) (Z.to_nat (JS.length carData)))
              = List.length carData).
  { rewrite repeat_length. unfold JS.length. apply Nat2Z.id. }
  assert (E' : JS.length (repeat (CarData.mk 0 0 0) (Z.to_nat (JS.length carData)))
               = JS.length carData).
  { unfold JS.length at 1 3. now rewrite E. }
  rewrite E'. apply JS_slice_length_only. now rewrite E.
Qed.

Lemma shortLapsSkipped_true : shortLapsSkipped = true.
Proof. vm_compute. reflexivity. Qed.

Lemma short_window (selectedCorner N : Z) :
  1 <= selectedCorner <= 20 -> 0 <= N < 63 ->
  (windowLength selectedCorner N <? 10) = true.
Proof.
  intros Hsel HN. pose proof shortLapsSkipped_true as H. unfold shortLapsSkipped in H.
  rewrite forallb_forall in H.
  assert (HinN : In (Z.to_nat N) (seq 0 63)) by (apply in_seq; lia).
  specialize (H (Z.to_nat N) HinN). rewrite forallb_forall in H.
  assert (Hink : In (Z.to_nat selectedCorner) (seq 1 20)) by (apply in_seq; lia).
  specialize (H (Z.to_nat selectedCorner) Hink).
  now rewrite !Z2Nat.id in H by lia.
Qed.

Section Loop.

Variable getCarData : Z -> Lap.t -> list CarData.t.
Variable drivers : list Driver.t.
Variable driverFastestLaps : JS.Map.t Lap.t.
Variable selectedCorner : Z.

Lemma analyzeDriver_Some (driverNumber : Z) (r : DriverCornerData) :
  analyzeDriver getCarData drivers driverFastestLaps selectedCorner driverNumber = Some r ->
  Driver.driver_number (driver r) = driverNumber
  /\ In (driver r) drivers
  /\ 10 <= JS.length (speedTrace r).
Proof.
  unfold analyzeDriver.
  destruct (find _ drivers) as [d|] eqn:Ef; [|discriminate].
  destruct (JS.Map.get driverFastestLaps driverNumber) as [lap|]; [|discriminate].
  destruct (JS.length (getCarData driverNumber lap) =? 0); [discriminate|].
  destruct (Z.ltb_spec (JS.length (cornerWindow selectedCorner
                                     (getCarData driverNumber lap))) 10) as [|Hlen];
    [discriminate|].
  intros [= <-]. apply find_some in Ef as [Hin Hd]. apply Z.eqb_eq in Hd.
  unfold analyzeWindow. destruct (findApex _) as [a m]. cbn [driver speedTrace].
  repeat split; [exact Hd|exact Hin|].
  unfold JS.length in *. rewrite length_map. unfold JS.indexed.
  assert (Hidx : forall (l : list CarData.t) i,
             List.length (JS.indexed_from i l) = List.length l).
  { induction l as [|x l IH]; intros i; cbn; [reflexivity|]. now rewrite IH. }
  now rewrite Hidx.
Qed.

(** X22.  The comparison follows the selection: the results are those of
    the focused drivers that pass the loop body, in the order of the
    selection, each under the roster entry of its own driver number and
    with a speed trace of at least 10 points. *)
Theorem analysis_follows_selection (focusedDrivers : list Z) :
  let results :=
    analyzeCorner getCarData drivers driverFastestLaps selectedCorner focusedDrivers in
  map (fun r => Driver.driver_number (driver r)) results
  = filter (fun driverNumber =>
              analysed (analyzeDriver getCarData drivers driverFastestLaps
                          selectedCorner driverNumber))
           focusedDrivers
  /\ Forall (fun r => In (driver r) drivers /\ 10 <= JS.length (speedTrace r)) results.
Proof.
  cbv zeta. unfold analyzeCorner. rewrite push_loop_eq. cbn [app].
  induction focusedDrivers as [|dn l [IH1 IH2]]; cbn [flat_map filter map].
  - split; [reflexivity|constructor].
  - destruct (analyzeDriver getCarData drivers driverFastestLaps selectedCorner dn)
      as [r|] eqn:E; cbn [analysed app map].
    + apply analyzeDriver_Some in E as (Hd & Hin & Hlen).
      split; [now rewrite Hd, IH1|]. constructor; auto.
    + split; assumption.
Qed.

(** X23.  Short telemetry is never analysed: for the corner numbers 1 to
    20, a driver whose telemetry for its fastest lap has fewer than 63
    samples gets no result, whatever the samples are. *)
Theorem short_telemetry_never_analysed (driverNumber : Z) :
  1 <= selectedCorner <= 20 ->
  (forall lap, JS.Map.get driverFastestLaps driverNumber = Some lap ->
               JS.length (getCarData driverNumber lap) < 63) ->
  analyzeDriver getCarData drivers driverFastestLaps selectedCorner driverNumber = None.
Proof.
  intros Hsel Hshort. unfold analyzeDriver.
  destruct (find _ drivers) as [d|]; [|reflexivity].
  destruct (JS.Map.get driverFastestLaps driverNumber) as [lap|]; [|reflexivity].
  destruct (JS.length (getCarData driverNumber lap) =? 0); [reflexivity|].
  specialize (Hshort lap eq_refl). rewrite cornerWindow_length.
  pose proof (JS_length_nonneg (getCarData driverNumber lap)) as Hn.
  now rewrite short_window by lia.
Qed.

End Loop.

Lemma short_telemetry_never_analysed_witness :
  analyzeDriver (fun _ _ => repeat (CarData.mk 0 200 100) 62) Fixtures.bothDrivers
    (driverFastestLaps Fixtures3.sessionLaps Fixtures.bothDrivers) 3 44 = None.
Proof.
  apply (short_telemetry_never_analysed (fun _ _ => repeat (CarData.mk 0 200 100) 62)
           Fixtures.bothDrivers
           (driverFastestLaps Fixtures3.sessionLaps Fixtures.bothDrivers) 3 44).
  - lia.
  - intros lap _. vm_compute. reflexivity.
Defined.

End AnalysisFacts.

Section Sampling.

Import SpeedTrace.

Lemma floorDivExact_20000 : floorDivExact 20000 = true.
Proof. vm_compute. reflexivity. Qed.

Lemma sampleRate_pos (lapData : list CarData.t) : 1 <= sampleRate lapData.
Proof. unfold sampleRate. lia. Qed.

Lemma allFrom_sound (test : Z -> bool) (count : nat) :
  forall n, allFrom test n count = true ->
            forall k, n <= k < n + Z.of_nat count -> test k = true.
Proof.
  induction count as [|count IH]; intros n H k Hk; [lia|].
  cbn [allFrom] in H. apply andb_true_iff in H as [Hn Hrest].
  destruct (Z.eq_dec k n) as [-> |Hne]; [exact Hn|].
  apply (IH (n + 1) Hrest). lia.
Qed.

Lemma floorDivExact_sound (bound : Z) :
  floorDivExact bound = true ->
  forall n, 0 <= n <= bound ->
            JS.Math_floor (PrimFloat.div (JS.of_int n) (JS.of_int 200)) = n / 200.
Proof.
  intros H n Hn. unfold floorDivExact in H.
  apply Z.eqb_eq.
  apply (allFrom_sound _ _ 0 H n). lia.
Qed.

Lemma sampleRate_quotient (lapData : list CarData.t) :
  JS.length lapData <= 20000 ->
  sampleRate lapData = Z.max 1 (JS.length lapData / 200).
Proof.
  intros Hn. unfold sampleRate. f_equal.
  pose proof (JS_length_nonneg lapData) as H0.
  apply (floorDivExact_sound 20000 floorDivExact_20000). lia.
Qed.

(** The first multiple of [r] from [i] on. *)
Lemma next_multiple_hit (r i : Z) :
  1 <= r -> 0 <= i -> Z.rem i r = 0 ->
  (i + r - 1) / r * r = i /\ (i + 1 + r - 1) / r * r = i + r.
Proof.
  intros Hr Hi Hrem. rewrite Z.rem_mod_nonneg in Hrem by lia.
  pose proof (Z.div_mod i r ltac:(lia)) as E. rewrite Hrem in E.
  assert (E1 : (i + r - 1) / r = i / r).
  { symmetry. apply (Z.div_unique _ _ _ (r - 1)); lia. }
  assert (E2 : (i + 1 + r - 1) / r = i / r + 1).
  { symmetry. apply (Z.div_unique _ _ _ 0); lia. }
  rewrite E1, E2. lia.
Qed.

Lemma next_multiple_miss (r i : Z) :
  1 <= r -> 0 <= i -> Z.rem i r <> 0 ->
  (i + 1 + r - 1) / r * r = (i + r - 1) / r * r /\ i < (i + r - 1) / r * r.
Proof.
  intros Hr Hi Hrem. rewrite Z.rem_mod_nonneg in Hrem by lia.
  pose proof (Z.div_mod i r ltac:(lia)) as E.
  pose proof (Z.mod_pos_bound i r ltac:(lia)) as Hm.
  assert (E1 : (i + r - 1) / r = i / r + 1).
  { symmetry. apply (Z.div_unique _ _ _ (i mod r - 1)); lia. }
  assert (E2 : (i + 1 + r - 1) / r = i / r + 1).
  { symmetry. apply (Z.div_unique _ _ _ (i mod r)); lia. }
  rewrite E1, E2. lia.
Qed.

Lemma sampled_from_nth (r : Z) (l : list CarData.t) :
  1 <= r ->
  forall (i : Z) (j : nat),
    0 <= i ->
    nth_error (map snd (filter (fun '(i, _) => Z.rem i r =? 0) (JS.indexed_from i l))) j
    = nth_error l (Z.to_nat ((i + r - 1) / r * r + Z.of_nat j * r - i)).
Proof.
  intros Hr. induction l as [|x l IH]; intros i j Hi.
  - cbn. now rewrite !nth_error_nil.
  - cbn [JS.indexed_from filter]. destruct (Z.eqb_spec (Z.rem i r) 0) as [E|E].
    + destruct (next_multiple_hit r i Hr Hi E) as [E1 E2].
      cbn [map snd]. destruct j as [|j].
      * rewrite E1. cbn [nth_error].
        replace (Z.to_nat (i + Z.of_nat 0 * r - i)) with 0%nat by lia. reflexivity.
      * cbn [nth_error]. rewrite IH by lia. rewrite E1, E2.
        replace (Z.to_nat (i + Z.of_nat (S j) * r - i))
          with (S (Z.to_nat (i + r + Z.of_nat j * r - (i + 1)))) by nia.
        reflexivity.
    + destruct (next_multiple_miss r i Hr Hi E) as [E1 E2].
      rewrite IH by lia. rewrite E1.
      replace (Z.to_nat ((i + r - 1) / r * r + Z.of_nat j * r - i))
        with (S (Z.to_nat ((i + r - 1) / r * r + Z.of_nat j * r - (i + 1)))) by nia.
      reflexivity.
Qed.

Lemma sampled_get (lapData : list CarData.t) (j : Z) :
  0 <= j ->
  JS.get (sampled lapData) j = JS.get lapData (j * sampleRate lapData).
Proof.
  intros Hj. pose proof (sampleRate_pos lapData) as Hr.
  unfold JS.get, sampled, JS.indexed. cbv zeta.
  destruct (Z.ltb_spec j 0); [lia|].
  destruct (Z.ltb_spec (j * sampleRate lapData) 0); [nia|].
  rewrite (sampled_from_nth (sampleRate lapData) lapData Hr 0 (Z.to_nat j)) by lia.
  f_equal. replace ((0 + sampleRate lapData - 1) / sampleRate lapData) with 0.
  - rewrite Z2Nat.id by lia. f_equal. lia.
  - symmetry. apply Z.div_small. lia.
Qed.

Lemma rate_one_keeps_all (l : list CarData.t) (i : Z) :
  map snd (filter (fun '(i, _) => Z.rem i 1 =? 0) (JS.indexed_from i l)) = l.
Proof.
  revert i. induction l as [|x l IH]; intros i; [reflexivity|].
  cbn [JS.indexed_from filter]. rewrite Z.rem_1_r. cbn [Z.eqb map snd].
  f_equal. apply IH.
Qed.

Lemma sampled_length (lapData : list CarData.t) :
  let L := JS.length (sampled lapData) in
  JS.length lapData <= L * sampleRate lapData
  /\ (0 < L -> (L - 1) * sampleRate lapData < JS.length lapData).
Proof.
  cbv zeta. pose proof (sampleRate_pos lapData) as Hr.
  pose proof (JS_length_nonneg (sampled lapData)) as HL.
  split.
  - destruct (Z_lt_le_dec (JS.length (sampled lapData) * sampleRate lapData)
                (JS.length lapData)) as [Hlt|]; [|assumption].
    destruct (JS_get_in_range lapData (JS.length (sampled lapData) * sampleRate lapData)
                ltac:(nia)) as [d Hd].
    rewrite <- sampled_get in Hd by lia. apply JS_get_Some_range in Hd. lia.
  - intros Hpos.
    destruct (JS_get_in_range (sampled lapData) (JS.length (sampled lapData) - 1)
                ltac:(lia)) as [d Hd].
    rewrite sampled_get in Hd by lia. apply JS_get_Some_range in Hd. lia.
Qed.

(** X24.  Sampling takes every [sampleRate]-th sample from the first one
    on: the rate is at least 1 and point [j] of the sampled trace is sample
    [j * sampleRate] of the lap, up to the end of the lap. *)
Theorem sampling_takes_every_nth (lapData : list CarData.t) :
  1 <= sampleRate lapData
  /\ (forall j, 0 <= j ->
                JS.get (sampled lapData) j = JS.get lapData (j * sampleRate lapData))
  /\ JS.get (sampled lapData) 0 = JS.get lapData 0.
Proof.
  split; [apply sampleRate_pos|]. split; [intros j Hj; now apply sampled_get|].
  now rewrite sampled_get by lia.
Qed.

(** X25.  For a lap of up to 20000 samples the rate is the integer
    quotient of its length by 200 (1 below 200 samples); the sampled trace
    never has more than 399 points, has at least 200 for a lap of 200
    samples or more, and a lap of fewer than 400 samples is kept whole. *)
Theorem sampling_bounds_points (lapData : list CarData.t) :
  JS.length lapData <= 20000 ->
  sampleRate lapData = Z.max 1 (JS.length lapData / 200)
  /\ JS.length (sampled lapData) <= 399
  /\ (200 <= JS.length lapData -> 200 <= JS.length (sampled lapData))
  /\ (JS.length lapData < 400 -> sampled lapData = lapData).
Proof.
  intros Hn. pose proof (sampleRate_quotient lapData Hn) as Hr.
  pose proof (JS_length_nonneg lapData) as H0.
  pose proof (JS_length_nonneg (sampled lapData)) as HL.
  destruct (sampled_length lapData) as [Hup Hlow].
  pose proof (Z.div_mod (JS.length lapData) 200 ltac:(lia)) as Ediv.
  pose proof (Z.mod_pos_bound (JS.length lapData) 200 ltac:(lia)) as Hmod.
  split; [exact Hr|]. split; [|split].
  - destruct (Z_le_gt_dec (JS.length (sampled lapData)) 399) as [|Hgt]; [assumption|].
    specialize (Hlow ltac:(lia)). rewrite Hr in Hlow. nia.
  - intros H200. rewrite Hr in Hup.
    assert (1 <= JS.length lapData / 200) by (apply Z.div_le_lower_bound; lia).
    nia.
  - intros H400.
    assert (E1 : sampleRate lapData = 1).
    { rewrite Hr. assert (JS.length lapData / 200 < 2)
        by (apply Z.div_lt_upper_bound; lia). lia. }
    unfold sampled. rewrite E1. cbv zeta. apply rate_one_keeps_all.
Qed.

Lemma sampling_bounds_points_witness :
  let lapData := repeat (CarData.mk 0 280 100) 1000 in
  sampleRate lapData = Z.max 1 (JS.length lapData / 200)
  /\ JS.length (sampled lapData) <= 399
  /\ (200 <= JS.length lapData -> 200 <= JS.length (sampled lapData))
  /\ (JS.length lapData < 400 -> sampled lapData = lapData).
Proof.
  apply (sampling_bounds_points (repeat (CarData.mk 0 280 100) 1000)).
  vm_compute. discriminate.
Defined.

End Sampling.
